(** * MyMalloc: an explicit-free-list allocator (mm.c), embedded in Rocq

    The allocator of [src/mm.c] keeps boundary-tagged blocks in a heap
    obtained from an sbrk-like provider and threads a doubly linked free
    list through the free blocks.  The embedding below follows the C text
    for an ILP32 little-endian target (the target of the CS:APP malloc
    lab, where [size_t] and pointers are 32 bits wide): memory is a map
    from byte addresses to bytes, every [size_t] and pointer computation
    wraps modulo 2^32, and the two module-level variables [heap_listp]
    and [free_listp] are fields of an explicit state. *)

From Stdlib Require Import ZArith List Lia Bool.
Import ListNotations.
Local Open Scope Z_scope.

(** ** Machine words *)

Definition w32 (x : Z) : Z := x mod 4294967296.

(** ** The state: raw memory, the provider's break, the two globals *)

Record state : Type := mkState {
  mem : Z -> Z;        (* byte at each address *)
  heap_lo : Z;         (* first byte of the heap *)
  heap_brk : Z;        (* first byte past the heap *)
  heap_max : Z;        (* the provider refuses to grow past this address *)
  heap_listp : Z;      (* static char *heap_listp *)
  free_listp : Z       (* static char *free_listp *)
}.

Definition set_mem (s : state) (m : Z -> Z) : state :=
  mkState m (heap_lo s) (heap_brk s) (heap_max s) (heap_listp s) (free_listp s).
Definition set_brk (s : state) (b : Z) : state :=
  mkState (mem s) (heap_lo s) b (heap_max s) (heap_listp s) (free_listp s).
Definition set_heap_listp (s : state) (p : Z) : state :=
  mkState (mem s) (heap_lo s) (heap_brk s) (heap_max s) p (free_listp s).
Definition set_free_listp (s : state) (p : Z) : state :=
  mkState (mem s) (heap_lo s) (heap_brk s) (heap_max s) (heap_listp s) p.

(** Little-endian 32-bit load and store on the byte memory. *)
Definition rd32 (m : Z -> Z) (a : Z) : Z :=
  m a mod 256 + 256 * (m (a + 1) mod 256)
  + 65536 * (m (a + 2) mod 256) + 16777216 * (m (a + 3) mod 256).

Definition wr32 (m : Z -> Z) (a v : Z) : Z -> Z :=
  fun x =>
    if x =? a then v mod 256
    else if x =? a + 1 then (v / 256) mod 256
    else if x =? a + 2 then (v / 65536) mod 256
    else if x =? a + 3 then (v / 16777216) mod 256
    else m x.

(** [memcpy(dst, src, n)] on non-overlapping areas. *)
Definition copy_bytes (m : Z -> Z) (dst src n : Z) : Z -> Z :=
  fun x => if (dst <=? x) && (x <? dst + n) then m (src + (x - dst)) else m x.

(** ** The macros of mm.c *)

Definition ALIGNMENT : Z := 8.
Definition WSIZE : Z := 4.
Definition DSIZE : Z := 8.
Definition CHUNKSIZE : Z := 16.
Definition OVERHEAD : Z := 24.

Definition ALIGN (size : Z) : Z := Z.land (w32 (size + (ALIGNMENT - 1))) (Z.lnot 7).
Definition MAX (x y : Z) : Z := if x >? y then x else y.
Definition PACK (size alloc : Z) : Z := Z.lor size alloc.

Definition GET (s : state) (p : Z) : Z := rd32 (mem s) p.
Definition PUT (s : state) (p value : Z) : state := set_mem s (wr32 (mem s) p value).
Definition GET_SIZE (s : state) (p : Z) : Z := Z.land (GET s p) (Z.lnot 7).
Definition GET_ALLOC (s : state) (p : Z) : Z := Z.land (GET s p) 1.
Definition HDRP (bp : Z) : Z := w32 (bp - WSIZE).
Definition FTRP (s : state) (bp : Z) : Z := w32 (w32 (bp + GET_SIZE s (HDRP bp)) - DSIZE).
Definition NEXT_BLKP (s : state) (bp : Z) : Z := w32 (bp + GET_SIZE s (HDRP bp)).
Definition PREV_BLKP (s : state) (bp : Z) : Z := w32 (bp - GET_SIZE s (w32 (HDRP bp - WSIZE))).
Definition NEXT_FREEP (s : state) (bp : Z) : Z := GET s (w32 (bp + DSIZE)).
Definition PREV_FREEP (s : state) (bp : Z) : Z := GET s bp.
Definition set_NEXT_FREEP (s : state) (bp v : Z) : state := PUT s (w32 (bp + DSIZE)) v.
Definition set_PREV_FREEP (s : state) (bp v : Z) : state := PUT s bp v.

(** The request adjustment shared by [mm_malloc] and [mm_realloc]:
    [MAX(ALIGN(size) + DSIZE, OVERHEAD)]. *)
Definition adjust (size : Z) : Z := MAX (w32 (ALIGN size + DSIZE)) OVERHEAD.

(** ** The heap provider (memlib) *)

(** Modelled from the spec: [mem_sbrk] of memlib.c, which is not among the
    sources.  Section 6 of the specification describes it as
    "grow(n): extends the heap by exactly n bytes, returns the address of
    the first new byte (= previous high water mark), or signals failure";
    the failure value is the [(void * )-1] that [extend_heap] tests for,
    and the provider refuses when the new break would pass [heap_max]. *)
Definition mem_sbrk (s : state) (incr : Z) : Z * state :=
  if heap_brk s + incr >? heap_max s then (w32 (-1), s)
  else (heap_brk s, set_brk s (heap_brk s + incr)).

(** Modelled from the spec: [mem_heap_lo] of memlib.c, the "current
    inclusive low bound" of section 6. *)
Definition mem_heap_lo (s : state) : Z := heap_lo s.

(** Modelled from the spec: [mem_heap_hi] of memlib.c.  Section 6 leaves
    open whether the high bound is inclusive (the last heap byte) or
    exclusive (the break), so the choice is a parameter. *)
Definition mem_heap_hi (inclusive : bool) (s : state) : Z :=
  if inclusive then heap_brk s - 1 else heap_brk s.

(** ** The free list *)

Definition insert_at_front (s : state) (bp : Z) : state :=
  let s := set_NEXT_FREEP s bp (free_listp s) in
  let s := set_PREV_FREEP s (free_listp s) bp in
  let s := set_PREV_FREEP s bp 0 in
  set_free_listp s bp.

Definition remove_block (s : state) (bp : Z) : state :=
  let s :=
    if negb (PREV_FREEP s bp =? 0)
    then set_NEXT_FREEP s (PREV_FREEP s bp) (NEXT_FREEP s bp)
    else set_free_listp s (NEXT_FREEP s bp) in
  set_PREV_FREEP s (NEXT_FREEP s bp) (PREV_FREEP s bp).

(** ** The coalescer *)

Definition coalesce (s : state) (bp : Z) : Z * state :=
  let previous_alloc :=
    negb (GET_ALLOC s (FTRP s (PREV_BLKP s bp)) =? 0) || (PREV_BLKP s bp =? bp) in
  let next__alloc := negb (GET_ALLOC s (HDRP (NEXT_BLKP s bp)) =? 0) in
  let size := GET_SIZE s (HDRP bp) in
  if previous_alloc && negb next__alloc then
    let size := w32 (size + GET_SIZE s (HDRP (NEXT_BLKP s bp))) in
    let s := remove_block s (NEXT_BLKP s bp) in
    let s := PUT s (HDRP bp) (PACK size 0) in
    let s := PUT s (FTRP s bp) (PACK size 0) in
    (bp, insert_at_front s bp)
  else if negb previous_alloc && next__alloc then
    let size := w32 (size + GET_SIZE s (HDRP (PREV_BLKP s bp))) in
    let bp := PREV_BLKP s bp in
    let s := remove_block s bp in
    let s := PUT s (HDRP bp) (PACK size 0) in
    let s := PUT s (FTRP s bp) (PACK size 0) in
    (bp, insert_at_front s bp)
  else if negb previous_alloc && negb next__alloc then
    let size :=
      w32 (size + w32 (GET_SIZE s (HDRP (PREV_BLKP s bp))
                       + GET_SIZE s (HDRP (NEXT_BLKP s bp)))) in
    let s := remove_block s (PREV_BLKP s bp) in
    let s := remove_block s (NEXT_BLKP s bp) in
    let bp := PREV_BLKP s bp in
    let s := PUT s (HDRP bp) (PACK size 0) in
    let s := PUT s (FTRP s bp) (PACK size 0) in
    (bp, insert_at_front s bp)
  else (bp, insert_at_front s bp).

(** ** The heap extender *)

Definition extend_heap (s : state) (words : Z) : Z * state :=
  let size :=
    if negb (words mod 2 =? 0) then w32 (w32 (words + 1) * WSIZE)
    else w32 (words * WSIZE) in
  let size := if size <? OVERHEAD then OVERHEAD else size in
  let (bp, s) := mem_sbrk s size in
  if bp =? w32 (-1) then (0, s)
  else
    let s := PUT s (HDRP bp) (PACK size 0) in
    let s := PUT s (FTRP s bp) (PACK size 0) in
    let s := PUT s (HDRP (NEXT_BLKP s bp)) (PACK 0 1) in
    coalesce s bp.

(** ** Initialisation *)

Definition mm_init (s : state) : Z * state :=
  let (p, s) := mem_sbrk s (2 * OVERHEAD) in
  let s := set_heap_listp s p in
  if p =? 0 then (-1, s)
  else
    let s := PUT s (heap_listp s) 0 in
    let s := PUT s (w32 (heap_listp s + WSIZE)) (PACK OVERHEAD 1) in
    let s := PUT s (w32 (heap_listp s + DSIZE)) 0 in
    let s := PUT s (w32 (w32 (heap_listp s + DSIZE) + WSIZE)) 0 in
    let s := PUT s (w32 (heap_listp s + OVERHEAD)) (PACK OVERHEAD 1) in
    let s := PUT s (w32 (w32 (heap_listp s + WSIZE) + OVERHEAD)) (PACK 0 1) in
    let s := set_free_listp s (w32 (heap_listp s + DSIZE)) in
    let (r, s) := extend_heap s (CHUNKSIZE / WSIZE) in
    if r =? 0 then (-1, s) else (0, s).

(** ** The finder

    The [for] loop of [find_fit] follows free-list links until it meets an
    allocated header; on a damaged list it need not terminate, so the loop
    carries fuel and [None] stands for "still running". *)

Fixpoint find_fit_from (fuel : nat) (s : state) (size bp : Z) : option Z :=
  match fuel with
  | O => None
  | S fuel =>
      if GET_ALLOC s (HDRP bp) =? 0 then
        if size <=? GET_SIZE s (HDRP bp) then Some bp
        else find_fit_from fuel s size (NEXT_FREEP s bp)
      else Some 0
  end.

Definition find_fit (fuel : nat) (s : state) (size : Z) : option Z :=
  find_fit_from fuel s size (free_listp s).

(** ** The placer *)

Definition place (s : state) (bp size : Z) : state :=
  let totalsize := GET_SIZE s (HDRP bp) in
  if w32 (totalsize - size) >=? OVERHEAD then
    let s := PUT s (HDRP bp) (PACK size 1) in
    let s := PUT s (FTRP s bp) (PACK size 1) in
    let s := remove_block s bp in
    let bp := NEXT_BLKP s bp in
    let s := PUT s (HDRP bp) (PACK (w32 (totalsize - size)) 0) in
    let s := PUT s (FTRP s bp) (PACK (w32 (totalsize - size)) 0) in
    snd (coalesce s bp)
  else
    let s := PUT s (HDRP bp) (PACK totalsize 1) in
    let s := PUT s (FTRP s bp) (PACK totalsize 1) in
    remove_block s bp.

(** ** The allocator surface *)

Definition mm_malloc (fuel : nat) (s : state) (size : Z) : option (Z * state) :=
  if size <=? 0 then Some (0, s)
  else
    let adjustedsize := adjust size in
    match find_fit fuel s adjustedsize with
    | None => None
    | Some bp =>
        if negb (bp =? 0) then Some (bp, place s bp adjustedsize)
        else
          let extendedsize := MAX adjustedsize CHUNKSIZE in
          let (bp, s) := extend_heap s (extendedsize / WSIZE) in
          if bp =? 0 then Some (0, s)
          else Some (bp, place s bp adjustedsize)
    end.

Definition mm_free (s : state) (bp : Z) : state :=
  if bp =? 0 then s
  else
    let size := GET_SIZE s (HDRP bp) in
    let s := PUT s (HDRP bp) (PACK size 0) in
    let s := PUT s (FTRP s bp) (PACK size 0) in
    snd (coalesce s bp).

(** The number of bytes [mm_realloc] hands to [memcpy] on its growing
    path: [oldsize], lowered to [size] when [size < oldsize]. *)
Definition realloc_copy_length (size oldsize : Z) : Z :=
  if size <? oldsize then size else oldsize.

Definition mm_realloc (fuel : nat) (s : state) (bp size : Z) : option (Z * state) :=
  let adjustedsize := adjust size in
  if size <=? 0 then Some (0, mm_free s bp)
  else if bp =? 0 then mm_malloc fuel s size
  else
    let oldsize := GET_SIZE s (HDRP bp) in
    if oldsize =? adjustedsize then Some (bp, s)
    else if adjustedsize <=? oldsize then
      let size := adjustedsize in
      if w32 (oldsize - size) <=? OVERHEAD then Some (bp, s)
      else
        let s := PUT s (HDRP bp) (PACK size 1) in
        let s := PUT s (FTRP s bp) (PACK size 1) in
        let s := PUT s (HDRP (NEXT_BLKP s bp)) (PACK (w32 (oldsize - size)) 1) in
        Some (bp, mm_free s (NEXT_BLKP s bp))
    else
      match mm_malloc fuel s size with
      | None => None
      | Some (newbp, s) =>
          if newbp =? 0 then Some (0, s)
          else
            let s := set_mem s (copy_bytes (mem s) newbp bp
                                  (realloc_copy_length size oldsize)) in
            Some (newbp, mm_free s bp)
      end.

(** ** The consistency checker

    The diagnostic [printf]s have no bearing on the result and are left
    out. *)

Definition check_block (inclusive : bool) (s : state) (bp : Z) : Z :=
  if (NEXT_FREEP s bp <? mem_heap_lo s) || (NEXT_FREEP s bp >? mem_heap_hi inclusive s)
  then -1
  else if (PREV_FREEP s bp <? mem_heap_lo s) || (PREV_FREEP s bp >? mem_heap_hi inclusive s)
  then -1
  else if negb (bp mod 8 =? 0) then -1
  else if negb (GET s (HDRP bp) =? GET s (FTRP s bp)) then -1
  else 0.

Fixpoint check_free_list (fuel : nat) (inclusive : bool) (s : state) (bp : Z)
  : option Z :=
  match fuel with
  | O => None
  | S fuel =>
      if GET_ALLOC s (HDRP bp) =? 0 then
        if check_block inclusive s bp =? -1 then Some (-1)
        else check_free_list fuel inclusive s (NEXT_FREEP s bp)
      else Some 0
  end.

Definition mm_check (fuel : nat) (inclusive : bool) (s : state) : option Z :=
  if negb (GET_SIZE s (HDRP (heap_listp s)) =? OVERHEAD)
     || (GET_ALLOC s (HDRP (heap_listp s)) =? 0)
  then Some (-1)
  else if check_block inclusive s (heap_listp s) =? -1 then Some (-1)
  else check_free_list fuel inclusive s (free_listp s).

(** ** A fresh provider *)

(** An empty heap at address [lo] whose provider can grow up to [max],
    over zero-filled memory. *)
Definition fresh (lo max : Z) : state :=
  mkState (fun _ => 0) lo lo max 0 0.

Definition heap0 : state := fresh 4096 1052672.
Definition heap1 : state := snd (mm_init heap0).

(** ** The abstract heap

    The heap the allocator maintains is a row of blocks, each described
    by its size and its allocated bit.  The first block's header sits at
    offset 44 of the heap: [mm_init] asks the provider for 48 bytes,
    lays the pad, the prologue and an epilogue header over the first 32,
    and the first extension starts at offset 48. *)

Definition b2z (b : bool) : Z := if b then 1 else 0.

Definition first_hdr (s : state) : Z := heap_lo s + 44.
Definition prologue (s : state) : Z := heap_lo s + 8.

Fixpoint total (bs : list (Z * bool)) : Z :=
  match bs with
  | [] => 0
  | (sz, _) :: r => sz + total r
  end.

(** Block pointer, size and allocated bit of every block of a row whose
    first header is at [h]. *)
Fixpoint layout (h : Z) (bs : list (Z * bool)) : list (Z * Z * bool) :=
  match bs with
  | [] => []
  | (sz, al) :: r => (h + 4, sz, al) :: layout (h + sz) r
  end.

Definition sized (bs : list (Z * bool)) : Prop :=
  forall sz al, In (sz, al) bs -> 24 <= sz /\ sz mod 8 = 0.

(** Header and footer of the block at [bp] both hold [size | alloc]. *)
Definition blk_ok (s : state) (bp sz : Z) (al : bool) : Prop :=
  GET s (bp - 4) = sz + b2z al /\ GET s (bp + sz - 8) = sz + b2z al.

Definition tagged (s : state) (L : list (Z * Z * bool)) : Prop :=
  forall bp sz al, In (bp, sz, al) L -> blk_ok s bp sz al.

(** The doubly linked chain from [head]: every member's previous-free
    slot names its predecessor ([prev] for the first one), its next-free
    slot names its successor, and the last successor is the prologue. *)
Fixpoint flist (s : state) (pro prev head : Z) (fl : list Z) : Prop :=
  match fl with
  | [] => head = pro
  | b :: r => head = b /\ GET s b = prev /\ flist s pro b (GET s (b + 8)) r
  end.

Definition hd_alloc (bs : list (Z * bool)) : bool :=
  match bs with
  | (_, false) :: _ => false
  | _ => true
  end.

(** No two neighbours of a row are both free. *)
Fixpoint noadj (bs : list (Z * bool)) : Prop :=
  match bs with
  | [] => True
  | (_, al) :: r => (al = true \/ hd_alloc r = true) /\ noadj r
  end.

Record heap_core (s : state) (bs : list (Z * bool)) : Prop := {
  core_lo : 0 < heap_lo s;
  core_align : heap_lo s mod 8 = 0;
  core_max : heap_max s < 4294967296;
  core_brk : heap_brk s = heap_lo s + 48 + total bs;
  core_room : heap_brk s <= heap_max s;
  core_listp : heap_listp s = heap_lo s;
  core_prologue : GET s (heap_lo s + 4) = 25;
  core_pad : GET s (heap_lo s) = 0;
  core_gap : GET_SIZE s (heap_lo s + 40) = 0;
  core_sized : sized bs;
  core_tags : tagged s (layout (first_hdr s) bs);
  core_epilogue : GET s (heap_brk s - 4) = 1
}.

Definition free_in (s : state) (bs : list (Z * bool)) (b : Z) : Prop :=
  exists sz, In (b, sz, false) (layout (first_hdr s) bs).

(** The free list [fl] holds exactly the free blocks of the row, but for
    the [pending] ones (a block that has just been tagged free and is
    about to be handed to the coalescer). *)
Record heap_list (s : state) (bs : list (Z * bool)) (fl pending : list Z) : Prop := {
  hl_flist : flist s (prologue s) 0 (free_listp s) fl;
  hl_nodup : NoDup fl;
  hl_sound : forall b, In b fl -> free_in s bs b /\ ~ In b pending;
  hl_complete : forall b, free_in s bs b -> In b fl \/ In b pending
}.

Definition heap_inv (s : state) (bs : list (Z * bool)) (fl : list Z) : Prop :=
  heap_core s bs /\ heap_list s bs fl [] /\ noadj bs.

(** What the coalescer makes of a free block of size [sz] between the
    blocks [rpre] before it (nearest first) and [post] after it. *)
Definition merged (rpre : list (Z * bool)) (sz : Z) (post : list (Z * bool))
  : list (Z * bool) * Z * list (Z * bool) :=
  match rpre, post with
  | (psz, false) :: rp, (nsz, false) :: po => (rp, psz + sz + nsz, po)
  | (psz, false) :: rp, _ => (rp, psz + sz, post)
  | _, (nsz, false) :: po => (rpre, sz + nsz, po)
  | _, _ => (rpre, sz, post)
  end.

(** The block pointers the coalescer unlinks. *)
Definition unlinked (h : Z) (rpre : list (Z * bool)) (sz : Z) (post : list (Z * bool))
  : list Z :=
  match rpre with
  | (psz, false) :: _ => [h + total rpre - psz + 4]
  | _ => []
  end ++
  match post with
  | (_, false) :: _ => [h + total rpre + sz + 4]
  | _ => []
  end.

Definition remove_all (cs : list Z) (fl : list Z) : list Z :=
  fold_left (fun l c => remove Z.eq_dec c l) cs fl.

(** Two 4-byte words that do not overlap. *)
Definition dj (x a : Z) : Prop := a + 4 <= x \/ x + 4 <= a.

(** Pointers far enough apart for their link slots not to overlap. *)
Definition spaced (cs : list Z) : Prop :=
  forall x y, In x cs -> In y cs -> x = y \/ x + 16 <= y \/ y + 16 <= x.

Definition ptrs_ok (cs : list Z) : Prop :=
  NoDup cs /\ spaced cs /\ forall x, In x cs -> 0 < x /\ x + 12 <= 4294967296.

(** The part of [heap_core] that does not read memory. *)
Definition geom (s : state) (bs : list (Z * bool)) : Prop :=
  0 < heap_lo s /\ heap_lo s mod 8 = 0 /\ heap_max s < 4294967296
  /\ heap_brk s = heap_lo s + 48 + total bs /\ heap_brk s <= heap_max s
  /\ sized bs.

(** A word that is no link slot: neither of the prologue nor of a free
    block of the row. *)
Definition quiet (s : state) (bs : list (Z * bool)) (x : Z) : Prop :=
  dj x (prologue s) /\ dj x (prologue s + 8)
  /\ forall c szc, In (c, szc, false) (layout (first_hdr s) bs) ->
                   dj x c /\ dj x (c + 8).

(** A well-tagged heap whose epilogue header may still be missing (the
    state in which [mm_init] calls the extender). *)
Definition heap_shape (s : state) (bs : list (Z * bool)) : Prop :=
  geom s bs /\ heap_listp s = heap_lo s /\ GET s (heap_lo s + 4) = 25
  /\ GET s (heap_lo s) = 0 /\ GET_SIZE s (heap_lo s + 40) = 0 /\ tagged s (layout (first_hdr s) bs).

(** Every word of the allocated blocks of the row, tags included, reads
    in [s'] as it does in [s]. *)
Definition keeps (s s' : state) (bs : list (Z * bool)) : Prop :=
  forall q szq x, In (q, szq, true) (layout (first_hdr s) bs) ->
    q - 4 <= x -> x + 4 <= q + szq - 4 -> GET s' x = GET s x.

Definition merged_row (rpre : list (Z * bool)) (sz : Z) (post : list (Z * bool))
  : list (Z * bool) :=
  let '(rp, sz', po) := merged rpre sz post in rev rp ++ (sz', false) :: po.

Definition merged_bp (h : Z) (rpre : list (Z * bool)) (sz : Z) (post : list (Z * bool))
  : Z :=
  let '(rp, _, _) := merged rpre sz post in h + total rp + 4.

Definition merged_size (rpre : list (Z * bool)) (sz : Z) (post : list (Z * bool)) : Z :=
  let '(_, sz', _) := merged rpre sz post in sz'.

(** The provider's bounds and [heap_listp] are the same in both states. *)
Definition same_frame (s s' : state) : Prop :=
  heap_lo s' = heap_lo s /\ heap_brk s' = heap_brk s
  /\ heap_max s' = heap_max s /\ heap_listp s' = heap_listp s.

(** The number of bytes [extend_heap] asks the provider for. *)
Definition extend_size (words : Z) : Z :=
  let size :=
    if negb (words mod 2 =? 0) then w32 (w32 (words + 1) * WSIZE)
    else w32 (words * WSIZE) in
  if size <? OVERHEAD then OVERHEAD else size.

(** A provider that has handed out nothing yet, at an 8-aligned address,
    and whose word at offset 40 carries no size bits (as in zero-filled
    memory): that word is never written and is read as the footer of the
    block before the first one. *)
Definition fresh_provider (s : state) : Prop :=
  heap_brk s = heap_lo s /\ 0 < heap_lo s /\ heap_lo s mod 8 = 0
  /\ heap_max s < 4294967296 /\ GET_SIZE s (heap_lo s + 40) = 0.

(** A client store of one byte. *)
Definition poke (s : state) (x v : Z) : state :=
  set_mem s (fun y => if y =? x then v else mem s y).

(** The states a client can reach, with the pointers it holds: after an
    initialisation the provider could serve, any sequence of [mm_malloc],
    [mm_free] and [mm_realloc] on null or on pointers it holds, and
    stores into the payload of blocks it holds. *)
Inductive reachable : state -> list Z -> Prop :=
| reach_init (s0 : state) :
    fresh_provider s0 -> heap_lo s0 + 2 * OVERHEAD <= heap_max s0 ->
    fst (mm_init s0) = 0 ->
    reachable (snd (mm_init s0)) []
| reach_malloc (s : state) (live : list Z) (fuel : nat) (size p : Z) (s' : state) :
    reachable s live -> 0 <= size < 4294967296 ->
    mm_malloc fuel s size = Some (p, s') ->
    reachable s' (if p =? 0 then live else p :: live)
| reach_free (s : state) (live : list Z) (p : Z) :
    reachable s live -> p = 0 \/ In p live ->
    reachable (mm_free s p) (remove Z.eq_dec p live)
| reach_realloc (s : state) (live : list Z) (fuel : nat) (p size q : Z) (s' : state) :
    reachable s live -> p = 0 \/ In p live -> 0 <= size < 4294967296 ->
    mm_realloc fuel s p size = Some (q, s') ->
    reachable s' (if size =? 0 then remove Z.eq_dec p live
                  else if q =? 0 then live else q :: remove Z.eq_dec p live)
| reach_poke (s : state) (live : list Z) (p x v : Z) :
    reachable s live -> In p live ->
    p <= x < p + GET_SIZE s (HDRP p) - DSIZE ->
    reachable (poke s x v) live.

(** Every pointer the client holds heads an allocated block of the row. *)
Definition holds (s : state) (bs : list (Z * bool)) (live : list Z) : Prop :=
  forall p, In p live -> exists sz, In (p, sz, true) (layout (first_hdr s) bs).

(** The heap after [mm_malloc(40)] on the freshly initialised heap: the
    48-byte block at 4144 is allocated, a 24-byte free block follows. *)
Definition heap2 : state :=
  match mm_malloc 10 heap1 40 with
  | Some (_, s) => s
  | None => heap1
  end.

(** [heap2] with the block at 4144 tagged free but not yet linked: the
    state in which [mm_free] calls the coalescer. *)
Definition heap2_pending : state :=
  PUT (PUT heap2 (HDRP 4144) (PACK 48 0)) (FTRP heap2 4144) (PACK 48 0).

(** [heap2] after [mm_malloc(100)]: a second allocated block, of 112
    bytes, at 4192. *)
Definition heap3 : state :=
  match mm_malloc 10 heap2 100 with
  | Some (_, s) => s
  | None => heap2
  end.

(** [heap3] with the block at 4192 tagged free but not yet linked. *)
Definition heap3_pending : state :=
  PUT (PUT heap3 (HDRP 4192) (PACK 112 0)) (FTRP heap3 4192) (PACK 112 0).

(** A provider with room for the initial heap and nothing more, and the
    heap [mm_init] builds on it. *)
Definition tight0 : state := fresh 4096 4168.
Definition tight1 : state := snd (mm_init tight0).

(** The copy length of the growing path of [mm_realloc] as the
    specification words it: "min(size, o minus header/footer overhead)".
    It is compared below with [realloc_copy_length], the length the
    source computes. *)
Definition spec_copy_length (size oldsize : Z) : Z := Z.min size (oldsize - DSIZE).

(** * Properties *)

(** ** Words and bytes *)

Lemma w32_small (x : Z) : 0 <= x < 4294967296 -> w32 x = x.
Proof. intros H. unfold w32. apply Z.mod_small. exact H. Qed.

Lemma w32_range (x : Z) : 0 <= w32 x < 4294967296.
Proof. unfold w32. apply Z.mod_pos_bound. lia. Qed.

Lemma rd32_range (m : Z -> Z) (a : Z) : 0 <= rd32 m a < 4294967296.
Proof.
  unfold rd32.
  pose proof (Z.mod_pos_bound (m a) 256).
  pose proof (Z.mod_pos_bound (m (a + 1)) 256).
  pose proof (Z.mod_pos_bound (m (a + 2)) 256).
  pose proof (Z.mod_pos_bound (m (a + 3)) 256).
  lia.
Qed.

Lemma split_word (v : Z) :
  v mod 256 + 256 * ((v / 256) mod 256) + 65536 * ((v / 65536) mod 256)
  + 16777216 * ((v / 16777216) mod 256) = v mod 4294967296.
Proof.
  assert (E1 : v mod 4294967296 = v mod 256 + 256 * ((v / 256) mod 16777216)).
  { apply (Z.rem_mul_r v 256 16777216); lia. }
  assert (E2 : (v / 256) mod 16777216
               = (v / 256) mod 256 + 256 * ((v / 256 / 256) mod 65536)).
  { apply (Z.rem_mul_r (v / 256) 256 65536); lia. }
  assert (E3 : (v / 256 / 256) mod 65536
               = (v / 256 / 256) mod 256 + 256 * ((v / 256 / 256 / 256) mod 256)).
  { apply (Z.rem_mul_r (v / 256 / 256) 256 256); lia. }
  assert (D2 : v / 256 / 256 = v / 65536) by (rewrite Z.div_div by lia; reflexivity).
  assert (D3 : v / 65536 / 256 = v / 16777216) by (rewrite Z.div_div by lia; reflexivity).
  rewrite D2 in E2, E3. rewrite D3 in E3. lia.
Qed.

Lemma rd32_wr32_same (m : Z -> Z) (a v : Z) : rd32 (wr32 m a v) a = w32 v.
Proof.
  unfold rd32, wr32, w32.
  rewrite Z.eqb_refl.
  replace (a + 1 =? a) with false by (symmetry; apply Z.eqb_neq; lia).
  replace (a + 2 =? a) with false by (symmetry; apply Z.eqb_neq; lia).
  replace (a + 3 =? a) with false by (symmetry; apply Z.eqb_neq; lia).
  replace (a + 2 =? a + 1) with false by (symmetry; apply Z.eqb_neq; lia).
  replace (a + 3 =? a + 1) with false by (symmetry; apply Z.eqb_neq; lia).
  replace (a + 3 =? a + 2) with false by (symmetry; apply Z.eqb_neq; lia).
  rewrite !Z.eqb_refl.
  rewrite !Z.mod_mod by lia.
  apply split_word.
Qed.

Lemma wr32_other_byte (m : Z -> Z) (a v x : Z) :
  x < a \/ a + 4 <= x -> wr32 m a v x = m x.
Proof.
  intros H. unfold wr32.
  replace (x =? a) with false by (symmetry; apply Z.eqb_neq; lia).
  replace (x =? a + 1) with false by (symmetry; apply Z.eqb_neq; lia).
  replace (x =? a + 2) with false by (symmetry; apply Z.eqb_neq; lia).
  replace (x =? a + 3) with false by (symmetry; apply Z.eqb_neq; lia).
  reflexivity.
Qed.

Lemma rd32_wr32_other (m : Z -> Z) (a v b : Z) :
  a + 4 <= b \/ b + 4 <= a -> rd32 (wr32 m a v) b = rd32 m b.
Proof.
  intros H. unfold rd32.
  rewrite !wr32_other_byte by lia. reflexivity.
Qed.

Lemma rd32_copy_outside (m : Z -> Z) (dst src n b : Z) :
  b + 4 <= dst \/ dst + n <= b -> rd32 (copy_bytes m dst src n) b = rd32 m b.
Proof.
  intros H. unfold rd32, copy_bytes.
  assert (E : forall k, 0 <= k < 4 ->
            (dst <=? b + k) && (b + k <? dst + n) = false).
  { intros k Hk. apply andb_false_iff.
    destruct H; [left; apply Z.leb_gt | right; apply Z.ltb_ge]; lia. }
  pose proof (E 0) as E0. rewrite Z.add_0_r in E0.
  rewrite E0, (E 1), (E 2), (E 3) by lia. reflexivity.
Qed.

(** ** Tag arithmetic *)

Lemma land_lnot7 (x : Z) : Z.land x (Z.lnot 7) = 8 * (x / 8).
Proof.
  rewrite <- Z.ldiff_land.
  change 7 with (Z.ones 3).
  rewrite Z.ldiff_ones_r by lia.
  rewrite Z.shiftr_div_pow2, Z.shiftl_mul_pow2 by lia.
  change (2 ^ 3) with 8. lia.
Qed.

Lemma land_1 (x : Z) : Z.land x 1 = x mod 2.
Proof. change 1 with (Z.ones 1). rewrite Z.land_ones by lia. reflexivity. Qed.

Lemma PACK_add (size : Z) (al : bool) :
  size mod 8 = 0 -> PACK size (b2z al) = size + b2z al.
Proof.
  intros H. unfold PACK.
  assert (L : Z.land size (b2z al) = 0).
  { destruct al; simpl; [|apply Z.land_0_r].
    rewrite land_1.
    pose proof (Z.div_mod size 8 ltac:(lia)) as E. rewrite H in E.
    rewrite E. replace (8 * (size / 8) + 0) with ((4 * (size / 8)) * 2) by lia.
    apply Z.mod_mul. lia. }
  rewrite <- Z.lxor_lor by exact L.
  symmetry. apply Z.add_nocarry_lxor. exact L.
Qed.

Lemma size_of_tag (size : Z) (al : bool) :
  size mod 8 = 0 -> Z.land (size + b2z al) (Z.lnot 7) = size.
Proof.
  intros H. rewrite land_lnot7.
  pose proof (Z.div_mod size 8 ltac:(lia)) as E. rewrite H in E.
  assert (B : 0 <= b2z al < 8) by (destruct al; simpl; lia).
  replace (size + b2z al) with (b2z al + (size / 8) * 8) by lia.
  rewrite Z.div_add by lia. rewrite (Z.div_small (b2z al)) by lia. lia.
Qed.

Lemma alloc_of_tag (size : Z) (al : bool) :
  size mod 8 = 0 -> Z.land (size + b2z al) 1 = b2z al.
Proof.
  intros H. rewrite land_1.
  pose proof (Z.div_mod size 8 ltac:(lia)) as E. rewrite H in E.
  replace (size + b2z al) with (b2z al + (4 * (size / 8)) * 2) by lia.
  rewrite Z.mod_add by lia. destruct al; reflexivity.
Qed.

Lemma ALIGN_mod8 (size : Z) : ALIGN size mod 8 = 0.
Proof.
  unfold ALIGN. rewrite land_lnot7. rewrite Z.mul_comm. apply Z.mod_mul. lia.
Qed.

Lemma ALIGN_range (size : Z) : 0 <= ALIGN size <= 4294967288.
Proof.
  unfold ALIGN. rewrite land_lnot7.
  pose proof (w32_range (size + (ALIGNMENT - 1))) as R.
  pose proof (Z.div_mod (w32 (size + (ALIGNMENT - 1))) 8 ltac:(lia)) as E.
  pose proof (Z.mod_pos_bound (w32 (size + (ALIGNMENT - 1))) 8 ltac:(lia)) as B.
  lia.
Qed.

Lemma ALIGN_ge (size : Z) :
  0 <= size -> size + 7 < 4294967296 -> size <= ALIGN size <= size + 7.
Proof.
  intros H0 H1. unfold ALIGN, ALIGNMENT. rewrite land_lnot7.
  rewrite w32_small by lia.
  pose proof (Z.div_mod (size + (8 - 1)) 8 ltac:(lia)) as E.
  pose proof (Z.mod_pos_bound (size + (8 - 1)) 8 ltac:(lia)) as B.
  lia.
Qed.

(** The adjusted size is a legal block size. *)
Lemma adjust_spec (size : Z) :
  OVERHEAD <= adjust size < 4294967296 /\ adjust size mod 8 = 0.
Proof.
  unfold adjust, MAX, OVERHEAD, DSIZE.
  pose proof (ALIGN_range size) as R. pose proof (ALIGN_mod8 size) as M.
  pose proof (w32_range (ALIGN size + 8)) as W.
  destruct (w32 (ALIGN size + 8) >? 24) eqn:C.
  - apply Z.gtb_lt in C. split; [lia|].
    unfold w32 in *.
    destruct (Z.eq_dec (ALIGN size) 4294967288) as [E|E].
    + rewrite E in C. vm_compute in C. discriminate.
    + pose proof (Z.div_mod (ALIGN size) 8 ltac:(lia)) as D. rewrite M in D.
      rewrite (Z.mod_small (ALIGN size + 8)) by lia.
      replace (ALIGN size + 8) with ((ALIGN size / 8 + 1) * 8) by lia.
      apply Z.mod_mul. lia.
  - split; [lia | reflexivity].
Qed.

(** Without wrap-around the adjusted size leaves room for the request and
    the two boundary tags. *)
Lemma adjust_ge (size : Z) :
  0 <= size -> size + 15 < 4294967296 -> size + DSIZE <= adjust size.
Proof.
  intros H0 H1. unfold adjust, MAX, OVERHEAD, DSIZE.
  pose proof (ALIGN_ge size H0 ltac:(lia)) as A.
  rewrite w32_small by lia.
  destruct (ALIGN size + 8 >? 24) eqn:C; lia.
Qed.

(** ** Reading the state after a store *)

Lemma GET_range (s : state) (p : Z) : 0 <= GET s p < 4294967296.
Proof. apply rd32_range. Qed.

Lemma GET_PUT_same (s : state) (p v : Z) : GET (PUT s p v) p = w32 v.
Proof. apply rd32_wr32_same. Qed.

Lemma GET_PUT_other (s : state) (p v q : Z) :
  p + 4 <= q \/ q + 4 <= p -> GET (PUT s p v) q = GET s q.
Proof. apply rd32_wr32_other. Qed.

Lemma GET_SIZE_range (s : state) (p : Z) : 0 <= GET_SIZE s p < 4294967296.
Proof.
  unfold GET_SIZE. rewrite land_lnot7.
  pose proof (GET_range s p) as R.
  pose proof (Z.div_mod (GET s p) 8 ltac:(lia)) as E.
  pose proof (Z.mod_pos_bound (GET s p) 8 ltac:(lia)) as B.
  lia.
Qed.

Lemma GET_SIZE_mod8 (s : state) (p : Z) : GET_SIZE s p mod 8 = 0.
Proof.
  unfold GET_SIZE. rewrite land_lnot7. rewrite Z.mul_comm. apply Z.mod_mul. lia.
Qed.

(** ** Rows of blocks *)

Lemma total_app (l1 l2 : list (Z * bool)) : total (l1 ++ l2) = total l1 + total l2.
Proof.
  induction l1 as [|[sz al] l1 IH]; simpl; [reflexivity|]. rewrite IH. lia.
Qed.

Lemma total_rev (l : list (Z * bool)) : total (rev l) = total l.
Proof.
  induction l as [|[sz al] l IH]; simpl; [reflexivity|].
  rewrite total_app, IH. simpl. lia.
Qed.

Lemma layout_app (h : Z) (l1 l2 : list (Z * bool)) :
  layout h (l1 ++ l2) = layout h l1 ++ layout (h + total l1) l2.
Proof.
  revert h. induction l1 as [|[sz al] l1 IH]; intros h; simpl.
  - rewrite Z.add_0_r. reflexivity.
  - rewrite IH. rewrite Z.add_assoc. reflexivity.
Qed.

Lemma sized_cons (sz : Z) (al : bool) (bs : list (Z * bool)) :
  sized ((sz, al) :: bs) <-> (24 <= sz /\ sz mod 8 = 0) /\ sized bs.
Proof.
  unfold sized. split.
  - intros H. split; [apply (H sz al); left; reflexivity|].
    intros sz' al' Hin. apply (H sz' al'). right. exact Hin.
  - intros [H1 H2] sz' al' [E|Hin]; [inversion E; subst; exact H1|].
    apply (H2 sz' al' Hin).
Qed.

Lemma sized_app (l1 l2 : list (Z * bool)) :
  sized (l1 ++ l2) <-> sized l1 /\ sized l2.
Proof.
  unfold sized. split.
  - intros H. split; intros sz al Hin; apply (H sz al); apply in_or_app; auto.
  - intros [H1 H2] sz al Hin. apply in_app_or in Hin. destruct Hin; eauto.
Qed.

Lemma sized_rev (l : list (Z * bool)) : sized (rev l) <-> sized l.
Proof.
  unfold sized. split; intros H sz al Hin; apply (H sz al).
  - apply -> in_rev. exact Hin.
  - apply in_rev. exact Hin.
Qed.

Lemma sized_nil : sized [].
Proof. intros sz al []. Qed.

Lemma total_nonneg (bs : list (Z * bool)) : sized bs -> 0 <= total bs.
Proof.
  induction bs as [|[sz al] bs IH]; simpl; intros H; [lia|].
  apply sized_cons in H. destruct H as [[H1 _] H2]. specialize (IH H2). lia.
Qed.

Lemma total_mod8 (bs : list (Z * bool)) : sized bs -> total bs mod 8 = 0.
Proof.
  induction bs as [|[sz al] bs IH]; simpl; intros H; [reflexivity|].
  apply sized_cons in H. destruct H as [[_ H1] H2]. specialize (IH H2).
  rewrite Z.add_mod, H1, IH by lia. reflexivity.
Qed.

(** Every block of a row lies inside the row. *)
Lemma layout_bounds (h : Z) (bs : list (Z * bool)) (bp sz : Z) (al : bool) :
  sized bs -> In (bp, sz, al) (layout h bs) ->
  24 <= sz /\ sz mod 8 = 0 /\ h + 4 <= bp /\ bp + sz <= h + total bs + 4
  /\ (bp - h - 4) mod 8 = 0.
Proof.
  revert h. induction bs as [|[sz0 al0] bs IH]; intros h Hs Hin; simpl in Hin.
  - destruct Hin.
  - apply sized_cons in Hs. destruct Hs as [[S1 S2] Hs].
    pose proof (total_nonneg bs Hs) as T.
    destruct Hin as [E|Hin].
    + inversion E; subst. simpl. replace (h + 4 - h - 4) with 0 by lia.
      repeat split; try lia; reflexivity.
    + destruct (IH (h + sz0) Hs Hin) as (A & B & C & D & F). simpl.
      repeat split; try lia.
      replace (bp - h - 4) with ((bp - (h + sz0) - 4) + sz0) by lia.
      rewrite Z.add_mod, F, S2 by lia. reflexivity.
Qed.

(** Two blocks of a row are the same block or do not overlap. *)
Lemma layout_sep (h : Z) (bs : list (Z * bool))
      (b1 s1 : Z) (a1 : bool) (b2 s2 : Z) (a2 : bool) :
  sized bs -> In (b1, s1, a1) (layout h bs) -> In (b2, s2, a2) (layout h bs) ->
  (b1 = b2 /\ s1 = s2 /\ a1 = a2) \/ b1 + s1 <= b2 \/ b2 + s2 <= b1.
Proof.
  revert h. induction bs as [|[sz0 al0] bs IH]; intros h Hs H1 H2; simpl in H1, H2.
  - destruct H1.
  - apply sized_cons in Hs. destruct Hs as [[S1 S2] Hs].
    destruct H1 as [E1|H1], H2 as [E2|H2].
    + inversion E1; inversion E2; subst. left. auto.
    + inversion E1; subst. pose proof (layout_bounds _ _ _ _ _ Hs H2). lia.
    + inversion E2; subst. pose proof (layout_bounds _ _ _ _ _ Hs H1). lia.
    + apply (IH (h + sz0)); assumption.
Qed.

(** A block of a row splits the row around itself. *)
Lemma layout_split (h : Z) (bs : list (Z * bool)) (bp sz : Z) (al : bool) :
  In (bp, sz, al) (layout h bs) ->
  exists rpre post, bs = rev rpre ++ (sz, al) :: post /\ bp = h + total rpre + 4.
Proof.
  revert h. induction bs as [|[sz0 al0] bs IH]; intros h Hin; simpl in Hin.
  - destruct Hin.
  - destruct Hin as [E|Hin].
    + inversion E; subst. exists [], bs. simpl. split; [reflexivity | lia].
    + destruct (IH (h + sz0) Hin) as (rpre & post & E1 & E2).
      exists (rpre ++ [(sz0, al0)]), post. split.
      * rewrite rev_app_distr. simpl. rewrite E1. reflexivity.
      * rewrite total_app. simpl. lia.
Qed.

Lemma layout_mid (h : Z) (rpre post : list (Z * bool)) (sz : Z) (al : bool) :
  In (h + total rpre + 4, sz, al) (layout h (rev rpre ++ (sz, al) :: post)).
Proof.
  rewrite layout_app, total_rev. apply in_or_app. right. left. reflexivity.
Qed.

(** Membership in a row that is split around one of its blocks. *)
Lemma layout_zip (h : Z) (rpre mid post : list (Z * bool)) (x : Z * Z * bool) :
  In x (layout h (rev rpre ++ mid ++ post)) <->
  In x (layout h (rev rpre)) \/ In x (layout (h + total rpre) mid)
  \/ In x (layout (h + total rpre + total mid) post).
Proof.
  rewrite !layout_app, !in_app_iff, total_rev. reflexivity.
Qed.

Lemma layout_rev_cons (h : Z) (p : Z * bool) (rp : list (Z * bool)) (x : Z * Z * bool) :
  In x (layout h (rev (p :: rp))) <->
  In x (layout h (rev rp)) \/ x = (h + total rp + 4, fst p, snd p).
Proof.
  simpl rev. rewrite layout_app, in_app_iff, total_rev. destruct p as [psz pal].
  simpl. intuition congruence.
Qed.

(** ** Free neighbours *)

Lemma noadj_app (l1 l2 : list (Z * bool)) :
  noadj (l1 ++ l2) <->
  noadj l1 /\ noadj l2 /\ (hd_alloc (rev l1) = true \/ hd_alloc l2 = true).
Proof.
  induction l1 as [|[sz al] l1 IH]; simpl.
  - split; [intros H; repeat split; auto | intros (_ & H & _); exact H].
  - rewrite IH. destruct l1 as [|[sz1 al1] l1].
    + simpl. destruct al; simpl; intuition congruence.
    + assert (E : hd_alloc (rev ((sz1, al1) :: l1) ++ [(sz, al)])
                  = hd_alloc (rev ((sz1, al1) :: l1))).
      { destruct (rev ((sz1, al1) :: l1)) as [|[sz2 al2] r] eqn:R.
        - apply (f_equal (@length _)) in R. rewrite length_rev in R. discriminate.
        - reflexivity. }
      rewrite E. simpl ((_ :: _) ++ _). simpl hd_alloc at 1 2. tauto.
Qed.

Lemma noadj_rev_cons (sz : Z) (al : bool) (rp : list (Z * bool)) :
  noadj (rev ((sz, al) :: rp)) <->
  noadj (rev rp) /\ (hd_alloc rp = true \/ al = true).
Proof.
  simpl rev. rewrite noadj_app, rev_involutive. simpl.
  destruct al; intuition congruence.
Qed.

Lemma noadj_zip (rpre post : list (Z * bool)) :
  noadj (rev rpre ++ post) <->
  noadj (rev rpre) /\ noadj post /\ (hd_alloc rpre = true \/ hd_alloc post = true).
Proof. rewrite noadj_app, rev_involutive. reflexivity. Qed.

(** ** The state after each primitive *)

Lemma GET_set_free_listp (s : state) (p x : Z) : GET (set_free_listp s p) x = GET s x.
Proof. reflexivity. Qed.

Lemma GET_PUT_eq (s : state) (p v q : Z) : p = q -> GET (PUT s p v) q = w32 v.
Proof. intros <-. apply GET_PUT_same. Qed.

Lemma GET_PUT_dj (s : state) (p v q : Z) : dj q p -> GET (PUT s p v) q = GET s q.
Proof. unfold dj. intros H. apply GET_PUT_other. lia. Qed.

Lemma GET_SIZE_PUT_dj (s : state) (p v q : Z) :
  dj q p -> GET_SIZE (PUT s p v) q = GET_SIZE s q.
Proof. intros H. unfold GET_SIZE. rewrite GET_PUT_dj by exact H. reflexivity. Qed.

Lemma fields_PUT (s : state) (p v : Z) :
  heap_lo (PUT s p v) = heap_lo s /\ heap_brk (PUT s p v) = heap_brk s
  /\ heap_max (PUT s p v) = heap_max s /\ heap_listp (PUT s p v) = heap_listp s
  /\ free_listp (PUT s p v) = free_listp s.
Proof. repeat split. Qed.

Lemma heap_lo_PUT (s : state) (p v : Z) : heap_lo (PUT s p v) = heap_lo s.
Proof. reflexivity. Qed.
Lemma heap_brk_PUT (s : state) (p v : Z) : heap_brk (PUT s p v) = heap_brk s.
Proof. reflexivity. Qed.
Lemma heap_max_PUT (s : state) (p v : Z) : heap_max (PUT s p v) = heap_max s.
Proof. reflexivity. Qed.
Lemma heap_listp_PUT (s : state) (p v : Z) : heap_listp (PUT s p v) = heap_listp s.
Proof. reflexivity. Qed.
Lemma free_listp_PUT (s : state) (p v : Z) : free_listp (PUT s p v) = free_listp s.
Proof. reflexivity. Qed.
Lemma first_hdr_PUT (s : state) (p v : Z) : first_hdr (PUT s p v) = first_hdr s.
Proof. reflexivity. Qed.
Lemma prologue_PUT (s : state) (p v : Z) : prologue (PUT s p v) = prologue s.
Proof. reflexivity. Qed.

Lemma heap_lo_set_free_listp (s : state) (p : Z) : heap_lo (set_free_listp s p) = heap_lo s.
Proof. reflexivity. Qed.
Lemma heap_brk_set_free_listp (s : state) (p : Z) : heap_brk (set_free_listp s p) = heap_brk s.
Proof. reflexivity. Qed.
Lemma heap_max_set_free_listp (s : state) (p : Z) : heap_max (set_free_listp s p) = heap_max s.
Proof. reflexivity. Qed.
Lemma heap_listp_set_free_listp (s : state) (p : Z) :
  heap_listp (set_free_listp s p) = heap_listp s.
Proof. reflexivity. Qed.
Lemma free_listp_set_free_listp (s : state) (p : Z) : free_listp (set_free_listp s p) = p.
Proof. reflexivity. Qed.
Lemma first_hdr_set_free_listp (s : state) (p : Z) :
  first_hdr (set_free_listp s p) = first_hdr s.
Proof. reflexivity. Qed.
Lemma prologue_set_free_listp (s : state) (p : Z) :
  prologue (set_free_listp s p) = prologue s.
Proof. reflexivity. Qed.

Create Rewrite HintDb fld.
#[export] Hint Rewrite heap_lo_PUT heap_brk_PUT heap_max_PUT heap_listp_PUT free_listp_PUT
  first_hdr_PUT prologue_PUT
  heap_lo_set_free_listp heap_brk_set_free_listp heap_max_set_free_listp
  heap_listp_set_free_listp free_listp_set_free_listp first_hdr_set_free_listp
  prologue_set_free_listp GET_set_free_listp : fld.

(** ** Reading tags *)

Lemma tag_range (sz : Z) (al : bool) : 0 <= b2z al <= 1.
Proof. destruct al; simpl; lia. Qed.

Lemma GET_SIZE_tag (s : state) (x sz : Z) (al : bool) :
  GET s x = sz + b2z al -> sz mod 8 = 0 -> GET_SIZE s x = sz.
Proof. intros H M. unfold GET_SIZE. rewrite H. apply size_of_tag. exact M. Qed.

Lemma GET_ALLOC_tag (s : state) (x sz : Z) (al : bool) :
  GET s x = sz + b2z al -> sz mod 8 = 0 -> GET_ALLOC s x = b2z al.
Proof. intros H M. unfold GET_ALLOC. rewrite H. apply alloc_of_tag. exact M. Qed.

Lemma PACK_0 (sz : Z) : sz mod 8 = 0 -> PACK sz 0 = sz + b2z false.
Proof. intros M. apply (PACK_add sz false M). Qed.

Lemma PACK_1 (sz : Z) : sz mod 8 = 0 -> PACK sz 1 = sz + b2z true.
Proof. intros M. apply (PACK_add sz true M). Qed.

Lemma HDRP_eq (bp : Z) : 4 <= bp < 4294967296 -> HDRP bp = bp - 4.
Proof. intros H. unfold HDRP, WSIZE. apply w32_small. lia. Qed.

Lemma FTRP_eq (s : state) (bp sz : Z) :
  4 <= bp -> GET_SIZE s (bp - 4) = sz -> 8 <= bp + sz < 4294967296 -> 0 <= sz ->
  FTRP s bp = bp + sz - 8.
Proof.
  intros H1 H2 H3 H4. unfold FTRP, DSIZE. rewrite HDRP_eq by lia. rewrite H2.
  rewrite (w32_small (bp + sz)) by lia. apply w32_small. lia.
Qed.

Lemma NEXT_BLKP_eq (s : state) (bp sz : Z) :
  4 <= bp -> GET_SIZE s (bp - 4) = sz -> bp + sz < 4294967296 -> 0 <= sz ->
  NEXT_BLKP s bp = bp + sz.
Proof.
  intros H1 H2 H3 H4. unfold NEXT_BLKP. rewrite HDRP_eq by lia. rewrite H2.
  apply w32_small. lia.
Qed.

Lemma PREV_BLKP_eq (s : state) (bp psz : Z) :
  8 <= bp < 4294967296 -> GET_SIZE s (bp - 8) = psz -> 0 <= psz <= bp ->
  PREV_BLKP s bp = bp - psz.
Proof.
  intros H1 H2 H3. unfold PREV_BLKP, WSIZE. rewrite HDRP_eq by lia.
  rewrite (w32_small (bp - 4 - 4)) by lia.
  replace (bp - 4 - 4) with (bp - 8) by lia. rewrite H2.
  apply w32_small. lia.
Qed.

Lemma NEXT_FREEP_eq (s : state) (bp : Z) :
  0 <= bp -> bp + 8 < 4294967296 -> NEXT_FREEP s bp = GET s (bp + 8).
Proof. intros H1 H2. unfold NEXT_FREEP, DSIZE. rewrite w32_small by lia. reflexivity. Qed.

(** ** The free list as a chain *)

Lemma flist_frame (s s' : state) (pro : Z) (fl : list Z) :
  (forall c, In c fl -> GET s' c = GET s c /\ GET s' (c + 8) = GET s (c + 8)) ->
  forall prev head, flist s pro prev head fl -> flist s' pro prev head fl.
Proof.
  induction fl as [|b r IH]; intros F prev head H; simpl in *.
  - exact H.
  - destruct H as (H1 & H2 & H3).
    destruct (F b (or_introl eq_refl)) as [F1 F2].
    split; [exact H1|]. split; [rewrite F1; exact H2|].
    rewrite F2. apply IH; [|exact H3].
    intros c Hc. apply F. right. exact Hc.
Qed.

Lemma last_default (z : Z) (l : list Z) (d d' : Z) : last (z :: l) d = last (z :: l) d'.
Proof.
  revert z. induction l as [|y l IH]; intros z; [reflexivity|].
  change (last (y :: l) d = last (y :: l) d'). apply IH.
Qed.

Lemma flist_prev (s : state) (pro : Z) (b : Z) (l2 l1 : list Z) (prev head : Z) :
  flist s pro prev head (l1 ++ b :: l2) -> GET s b = last l1 prev.
Proof.
  revert prev head. induction l1 as [|c l1 IH]; intros prev head H.
  - simpl in *. tauto.
  - simpl app in H. simpl flist in H. destruct H as (H1 & H2 & H3).
    rewrite (IH c _ H3). destruct l1 as [|z l1]; [reflexivity|].
    change (last (c :: z :: l1) prev) with (last (z :: l1) prev). apply last_default.
Qed.

Lemma flist_suffix (s : state) (pro : Z) (b : Z) (l2 l1 : list Z) (prev head : Z) :
  flist s pro prev head (l1 ++ b :: l2) ->
  flist s pro (last l1 prev) b (b :: l2).
Proof.
  revert prev head. induction l1 as [|c l1 IH]; intros prev head H.
  - simpl in *. destruct H as (H1 & H2 & H3). subst head. auto.
  - simpl app in H. simpl flist in H. destruct H as (H1 & H2 & H3).
    specialize (IH c _ H3). destruct l1 as [|z l1]; [exact IH|].
    change (last (c :: z :: l1) prev) with (last (z :: l1) prev).
    rewrite (last_default z l1 prev c). exact IH.
Qed.

Lemma flist_head (s : state) (pro prev head : Z) (fl : list Z) :
  flist s pro prev head fl -> head = hd pro fl.
Proof. destruct fl; simpl; tauto. Qed.

Lemma flist_next (s : state) (pro : Z) (b : Z) (l2 l1 : list Z) (prev head : Z) :
  flist s pro prev head (l1 ++ b :: l2) -> GET s (b + 8) = hd pro l2.
Proof.
  intros H. apply flist_suffix in H. simpl in H. destruct H as (_ & _ & H).
  apply flist_head in H. exact H.
Qed.

(** ** Unlinking and inserting *)

Lemma remove_mid (b : Z) (l1 l2 : list Z) :
  NoDup (l1 ++ b :: l2) -> remove Z.eq_dec b (l1 ++ b :: l2) = l1 ++ l2.
Proof.
  intros N. rewrite remove_app. simpl.
  destruct (Z.eq_dec b b) as [_|C]; [|contradiction].
  apply NoDup_remove_2 in N.
  rewrite !notin_remove; [reflexivity| |]; intros Hin; apply N; apply in_or_app; auto.
Qed.

Lemma ptrs_ok_tail (c : Z) (cs : list Z) : ptrs_ok (c :: cs) -> ptrs_ok cs.
Proof.
  intros (N & S & R). split; [inversion N; assumption|]. split.
  - intros x y Hx Hy. apply S; right; assumption.
  - intros x Hx. apply R. right. exact Hx.
Qed.

Lemma ptrs_ok_drop (pro c : Z) (cs : list Z) : ptrs_ok (pro :: c :: cs) -> ptrs_ok (pro :: cs).
Proof.
  intros (N & S & R). split.
  - inversion N as [|? ? N1 N2]; subst. inversion N2; subst.
    constructor; [|assumption]. intros Hin. apply N1. right. exact Hin.
  - split.
    + intros x y Hx Hy. apply S; simpl in *; tauto.
    + intros x Hx. apply R. simpl in *. tauto.
Qed.

Lemma remove_block_unfold (s : state) (b : Z) :
  0 <= b -> b + 12 <= 4294967296 ->
  (GET s b <> 0 ->
   GET s b + 12 <= 4294967296 /\ dj b (GET s b + 8) /\ dj (b + 8) (GET s b + 8)) ->
  remove_block s b =
  if GET s b =? 0 then PUT (set_free_listp s (GET s (b + 8))) (GET s (b + 8)) (GET s b)
  else PUT (PUT s (GET s b + 8) (GET s (b + 8))) (GET s (b + 8)) (GET s b).
Proof.
  intros H1 H2 H3.
  unfold remove_block, PREV_FREEP, NEXT_FREEP, set_NEXT_FREEP, set_PREV_FREEP, DSIZE.
  rewrite (w32_small (b + 8)) by lia.
  destruct (GET s b =? 0) eqn:E; simpl negb; cbv iota.
  - reflexivity.
  - apply Z.eqb_neq in E. destruct (H3 E) as (R & D1 & D2).
    pose proof (GET_range s b) as G.
    rewrite (w32_small (GET s b + 8)) by lia.
    rewrite !GET_PUT_dj by assumption. reflexivity.
Qed.

Lemma fields_remove_block (s : state) (b : Z) :
  heap_lo (remove_block s b) = heap_lo s /\ heap_brk (remove_block s b) = heap_brk s
  /\ heap_max (remove_block s b) = heap_max s
  /\ heap_listp (remove_block s b) = heap_listp s.
Proof.
  unfold remove_block, set_NEXT_FREEP, set_PREV_FREEP.
  destruct (negb (PREV_FREEP s b =? 0)); repeat split.
Qed.

Lemma fields_insert_at_front (s : state) (b : Z) :
  heap_lo (insert_at_front s b) = heap_lo s /\ heap_brk (insert_at_front s b) = heap_brk s
  /\ heap_max (insert_at_front s b) = heap_max s
  /\ heap_listp (insert_at_front s b) = heap_listp s
  /\ free_listp (insert_at_front s b) = b.
Proof. repeat split. Qed.

(** Dropping the first member of a chain. *)
Lemma flist_unlink_head (s : state) (pro prev b : Z) (l2 : list Z) :
  flist s pro prev b (b :: l2) -> ptrs_ok (pro :: b :: l2) ->
  0 <= prev < 4294967296 ->
  flist (PUT s (GET s (b + 8)) prev) pro prev (GET s (b + 8)) l2.
Proof.
  intros (_ & Hp & H) (N & S & R) P.
  destruct l2 as [|d r]; simpl in *.
  - exact H.
  - destruct H as (E & H1 & H2). rewrite <- E in *.
    split; [reflexivity|]. split; [rewrite GET_PUT_same; apply w32_small; exact P|].
    rewrite GET_PUT_other by lia.
    apply (flist_frame s); [|exact H2].
    intros c Hc.
    assert (c <> d).
    { inversion N as [|? ? _ N1]; subst. inversion N1 as [|? ? _ N2]; subst.
      inversion N2 as [|? ? N3 _]; subst. intros ->. contradiction. }
    destruct (S c d) as [F|F]; [simpl; tauto | simpl; tauto | contradiction |].
    rewrite !GET_PUT_other by lia. auto.
Qed.

(** Dropping a member that has a predecessor. *)
Lemma flist_unlink_inner (s : state) (pro b : Z) (l2 : list Z) :
  forall (l1 : list Z) (prev head : Z),
    l1 <> [] ->
    flist s pro prev head (l1 ++ b :: l2) -> ptrs_ok (pro :: l1 ++ b :: l2) ->
    flist (PUT (PUT s (last l1 prev + 8) (hd pro l2)) (hd pro l2) (last l1 prev))
          pro prev head (l1 ++ l2).
Proof.
  induction l1 as [|c l1 IH]; intros prev head NE H OK; [contradiction|].
  destruct OK as (N & S & R).
  assert (Hn : In (hd pro l2) (pro :: l2)).
  { destruct l2; simpl; auto. }
  assert (Rn : 0 < hd pro l2 /\ hd pro l2 + 12 <= 4294967296).
  { apply R. simpl in *. destruct Hn as [Hn|Hn]; [left; exact Hn|].
    right. right. apply in_or_app. right. right. exact Hn. }
  destruct l1 as [|z l1].
  - (* [c] is the predecessor of [b] *)
    clear IH. simpl app in *. simpl last.
    simpl flist in H. destruct H as (E & Hc & E2 & Hb & H).
    pose proof (flist_head _ _ _ _ _ H) as Hnx.
    assert (Rc : 0 < c /\ c + 12 <= 4294967296) by (apply R; simpl; auto).
    assert (Dcn : c <> hd pro l2).
    { inversion N as [|? ? N0 N1]; subst. inversion N1 as [|? ? N2 N3]; subst.
      inversion N3 as [|? ? N4 N5]; subst.
      simpl in Hn. destruct Hn as [Hn|Hn].
      - rewrite <- Hn. intros ->. apply N0. simpl. auto.
      - intros Heq. rewrite <- Heq in Hn. apply N2. simpl. auto. }
    assert (Scn : c + 16 <= hd pro l2 \/ hd pro l2 + 16 <= c).
    { destruct (S c (hd pro l2)) as [F|F]; [simpl; auto| |contradiction|exact F].
      simpl in Hn. simpl. tauto. }
    simpl flist. split; [exact E|].
    split; [rewrite !GET_PUT_other by lia; exact Hc|].
    rewrite (GET_PUT_other _ _ _ (c + 8)) by lia.
    rewrite GET_PUT_same, w32_small by lia.
    destruct l2 as [|d r]; simpl in *.
    + reflexivity.
    + destruct H as (Ed & Hd & H).
      split; [reflexivity|].
      split; [rewrite GET_PUT_same; apply w32_small; lia|].
      rewrite !(GET_PUT_other _ _ _ (d + 8)) by lia.
      apply (flist_frame s); [|exact H].
      intros e He.
      assert (Ded : e <> d).
      { inversion N as [|? ? _ N1]; subst. inversion N1 as [|? ? _ N3]; subst.
        inversion N3 as [|? ? _ N5]; subst. inversion N5 as [|? ? N6 _]; subst.
        intros ->. contradiction. }
      assert (Dec : e <> c).
      { inversion N as [|? ? _ N1]; subst. inversion N1 as [|? ? N2 _]; subst.
        intros ->. apply N2. simpl. auto. }
      destruct (S e d) as [F|F]; [simpl; tauto|simpl; tauto|contradiction|].
      destruct (S e c) as [F'|F']; [simpl; tauto|simpl; tauto|contradiction|].
      rewrite !GET_PUT_other by lia. auto.
  - (* the predecessor lies further down *)
    change (last (c :: z :: l1) prev) with (last (z :: l1) prev).
    rewrite (last_default z l1 prev c).
    simpl app in H. simpl flist in H. destruct H as (E & Hc & H).
    assert (OK' : ptrs_ok (pro :: (z :: l1) ++ b :: l2)).
    { apply (ptrs_ok_drop pro c). split; [exact N|]. split; [exact S|exact R]. }
    specialize (IH c (GET s (c + 8)) ltac:(discriminate) H OK').
    assert (Hl : In (last (z :: l1) c) (z :: l1)).
    { assert (G : forall (l : list Z) y, In (last (y :: l) c) (y :: l)).
      { induction l as [|w l IHl]; intros y; [left; reflexivity|].
        change (last (y :: w :: l) c) with (last (w :: l) c). right. apply IHl. }
      apply G. }
    set (p := last (z :: l1) c) in *.
    assert (Dcp : c <> p).
    { inversion N as [|? ? _ N1]; subst. inversion N1 as [|? ? N2 _]; subst.
      intros Heq. apply N2. rewrite Heq.
      change (In p ((z :: l1) ++ b :: l2)). apply in_or_app. left. exact Hl. }
    assert (Dcn : c <> hd pro l2).
    { inversion N as [|? ? N0 N1]; subst. inversion N1 as [|? ? N2 _]; subst.
      simpl in Hn. destruct Hn as [Hn|Hn].
      - rewrite <- Hn. intros ->. apply N0. simpl. auto.
      - intros Heq. rewrite <- Heq in Hn. apply N2.
        change (In c ((z :: l1) ++ b :: l2)).
        apply in_or_app. right. right. exact Hn. }
    assert (Rc : 0 < c /\ c + 12 <= 4294967296) by (apply R; simpl; auto).
    assert (Scp : c + 16 <= p \/ p + 16 <= c).
    { destruct (S c p) as [F|F]; [simpl; auto| |contradiction|exact F].
      right. right. apply in_or_app. left. exact Hl. }
    assert (Scn : c + 16 <= hd pro l2 \/ hd pro l2 + 16 <= c).
    { destruct (S c (hd pro l2)) as [F|F]; [simpl; auto| |contradiction|exact F].
      simpl in Hn. destruct Hn as [Hn|Hn]; [left; exact Hn|].
      right. right. apply in_or_app. right. right. exact Hn. }
    simpl app. simpl flist. split; [exact E|].
    split; [rewrite !GET_PUT_other by lia; exact Hc|].
    rewrite !(GET_PUT_other _ _ _ (c + 8)) by lia. exact IH.
Qed.

(** [remove_block] on a well-formed list: the list loses the block, and
    memory changes only in link slots of the other members and of the
    prologue. *)
Lemma remove_block_flist (s : state) (pro b : Z) (fl : list Z) :
  flist s pro 0 (free_listp s) fl -> ptrs_ok (pro :: fl) -> In b fl ->
  flist (remove_block s b) pro 0 (free_listp (remove_block s b)) (remove Z.eq_dec b fl)
  /\ forall x, (forall c, In c (pro :: fl) -> c <> b -> dj x c /\ dj x (c + 8)) ->
               GET (remove_block s b) x = GET s x.
Proof.
  intros H OK Hin.
  destruct (in_split _ _ Hin) as (l1 & l2 & E). subst fl.
  pose proof OK as (N & S & R).
  assert (Nfl : NoDup (l1 ++ b :: l2)) by (inversion N; assumption).
  rewrite (remove_mid _ _ _ Nfl).
  pose proof (flist_prev _ _ _ _ _ _ _ H) as Hp.
  pose proof (flist_next _ _ _ _ _ _ _ H) as Hn.
  assert (Rb : 0 < b /\ b + 12 <= 4294967296).
  { apply R. right. exact Hin. }
  assert (Hnx : In (hd pro l2) (pro :: l1 ++ b :: l2)).
  { destruct l2; simpl; auto. right. apply in_or_app. right. right. left. reflexivity. }
  assert (Dnb : hd pro l2 <> b).
  { destruct l2 as [|d r]; simpl.
    - intros ->. inversion N as [|? ? N0 _]; subst. apply N0. exact Hin.
    - intros ->. apply NoDup_remove_2 in Nfl. apply Nfl.
      apply in_or_app. right. left. reflexivity. }
  destruct l1 as [|c l1].
  - (* [b] is the head *)
    simpl last in Hp. simpl app in *.
    rewrite remove_block_unfold; [|lia|lia|intros C; contradiction].
    rewrite Hp, Hn. simpl (0 =? 0).
    split.
    + autorewrite with fld.
      pose proof (flist_unlink_head s pro 0 b l2) as U.
      rewrite Hn in U.
      apply (flist_frame (PUT s (hd pro l2) 0)); [intros; split; reflexivity|].
      apply U; [|exact OK|lia].
      simpl in *. destruct H as (H1 & H2 & H3). auto.
    + intros x Fx. rewrite GET_PUT_dj; [reflexivity|].
      apply (Fx (hd pro l2) Hnx Dnb).
  - (* [b] has a predecessor *)
    assert (Hl : In (last (c :: l1) 0) (c :: l1)).
    { assert (G : forall (l : list Z) y, In (last (y :: l) 0) (y :: l)).
      { induction l as [|w l IHl]; intros y; [left; reflexivity|].
        change (last (y :: w :: l) 0) with (last (w :: l) 0). right. apply IHl. }
      apply G. }
    set (p := last (c :: l1) 0) in *.
    assert (Hpin : In p (pro :: (c :: l1) ++ b :: l2)).
    { right. apply in_or_app. left. exact Hl. }
    assert (Rp : 0 < p /\ p + 12 <= 4294967296) by (apply R; exact Hpin).
    assert (Dpb : p <> b).
    { intros ->. apply NoDup_remove_2 in Nfl. apply Nfl. apply in_or_app. left. exact Hl. }
    assert (Spb : p + 16 <= b \/ b + 16 <= p).
    { destruct (S p b) as [F|F]; [exact Hpin|right; exact Hin|contradiction|exact F]. }
    rewrite remove_block_unfold; [|lia|lia|].
    2:{ intros _. rewrite Hp. unfold dj. lia. }
    rewrite Hp, Hn.
    replace (p =? 0) with false by (symmetry; apply Z.eqb_neq; lia).
    split.
    + autorewrite with fld.
      apply (flist_unlink_inner s pro b l2 (c :: l1) 0 (free_listp s)
               ltac:(discriminate) H OK).
    + intros x Fx.
      destruct (Fx p Hpin Dpb) as [_ F1].
      destruct (Fx (hd pro l2) Hnx Dnb) as [F2 _].
      rewrite !GET_PUT_dj by assumption. reflexivity.
Qed.

Lemma free_listp_remove_block (s : state) (pro b : Z) (fl : list Z) :
  flist s pro 0 (free_listp s) fl -> ptrs_ok (pro :: fl) -> In b fl ->
  free_listp (remove_block s b) = hd pro (remove Z.eq_dec b fl).
Proof.
  intros H OK Hin. destruct (remove_block_flist s pro b fl H OK Hin) as [F _].
  apply (flist_head _ _ _ _ _ F).
Qed.

(** [insert_at_front] on a well-formed list. *)
Lemma insert_at_front_flist (s : state) (pro b : Z) (fl : list Z) :
  flist s pro 0 (free_listp s) fl -> ptrs_ok (pro :: b :: fl) ->
  flist (insert_at_front s b) pro 0 (free_listp (insert_at_front s b)) (b :: fl)
  /\ forall x, dj x b -> dj x (b + 8) -> dj x (hd pro fl) ->
               GET (insert_at_front s b) x = GET s x.
Proof.
  intros H (N & S & R).
  pose proof (flist_head _ _ _ _ _ H) as Hh.
  assert (Rb : 0 < b /\ b + 12 <= 4294967296) by (apply R; simpl; auto).
  assert (Hhin : In (hd pro fl) (pro :: fl)) by (destruct fl; simpl; auto).
  assert (Dhb : hd pro fl <> b).
  { inversion N as [|? ? N0 N1]; subst. inversion N1 as [|? ? N2 _]; subst.
    destruct Hhin as [Hx|Hx].
    - rewrite <- Hx. intros ->. apply N0. left. reflexivity.
    - intros Heq. rewrite Heq in Hx. contradiction. }
  assert (Shb : hd pro fl + 16 <= b \/ b + 16 <= hd pro fl).
  { destruct (S (hd pro fl) b) as [F|F]; [|simpl; auto|contradiction|exact F].
    simpl in *. tauto. }
  assert (Rh : 0 < hd pro fl /\ hd pro fl + 12 <= 4294967296).
  { apply R. simpl in *. tauto. }
  unfold insert_at_front, set_NEXT_FREEP, set_PREV_FREEP, DSIZE.
  rewrite (w32_small (b + 8)) by lia.
  autorewrite with fld. rewrite Hh.
  split.
  - set (s3 := PUT (PUT (PUT s (b + 8) (hd pro fl)) (hd pro fl) b) b 0).
    apply (flist_frame s3); [intros; split; reflexivity|]. subst s3.
    cbn [flist]. split; [reflexivity|].
    split; [rewrite GET_PUT_same; reflexivity|].
    rewrite (GET_PUT_other _ _ _ (b + 8)) by lia.
    rewrite (GET_PUT_other _ _ _ (b + 8)) by lia.
    rewrite GET_PUT_same, w32_small by lia.
    destruct fl as [|d r]; cbn [flist hd] in *.
    + reflexivity.
    + destruct H as (Ed & Hd & H).
      split; [reflexivity|].
      split.
      { rewrite (GET_PUT_other _ _ _ d) by lia. rewrite GET_PUT_same.
        apply w32_small. lia. }
      rewrite !(GET_PUT_other _ _ _ (d + 8)) by lia.
      apply (flist_frame s); [|exact H].
      intros e He.
      assert (Ded : e <> d).
      { inversion N as [|? ? _ N1]; subst. inversion N1 as [|? ? _ N3]; subst.
        inversion N3 as [|? ? N4 _]; subst. intros ->. contradiction. }
      assert (Deb : e <> b).
      { inversion N as [|? ? _ N1]; subst. inversion N1 as [|? ? N2 _]; subst.
        intros ->. apply N2. right. exact He. }
      destruct (S e d) as [F|F]; [simpl; tauto|simpl; tauto|contradiction|].
      destruct (S e b) as [F'|F']; [simpl; tauto|simpl; tauto|contradiction|].
      rewrite !GET_PUT_other by lia. auto.
  - intros x D1 D2 D3. unfold dj in *. rewrite GET_set_free_listp.
    rewrite !GET_PUT_other by lia. reflexivity.
Qed.

(** ** Geometry of the heap *)

Lemma core_geom (s : state) (bs : list (Z * bool)) : heap_core s bs -> geom s bs.
Proof. intros C. destruct C. unfold geom. auto 10. Qed.

Lemma core_shape (s : state) (bs : list (Z * bool)) : heap_core s bs -> heap_shape s bs.
Proof.
  intros C. split; [apply core_geom; exact C|]. destruct C. auto 10.
Qed.

Lemma geom_block (s : state) (bs : list (Z * bool)) (bp sz : Z) (al : bool) :
  geom s bs -> In (bp, sz, al) (layout (first_hdr s) bs) ->
  24 <= sz /\ sz mod 8 = 0 /\ heap_lo s + 48 <= bp /\ bp + sz <= heap_brk s
  /\ bp mod 8 = 0 /\ 0 < heap_lo s /\ heap_brk s < 4294967296.
Proof.
  intros (G1 & G2 & G3 & G4 & G5 & G6) Hin.
  destruct (layout_bounds _ _ _ _ _ G6 Hin) as (A & B & C & D & E).
  unfold first_hdr in *.
  repeat split; try lia.
  replace bp with ((bp - (heap_lo s + 44) - 4) + (heap_lo s + 6 * 8)) by lia.
  rewrite Z.add_mod, E by lia. rewrite Z.mod_add by lia. rewrite G2. reflexivity.
Qed.

Lemma heap_ptrs_ok (s : state) (bs : list (Z * bool)) (cs : list Z) :
  geom s bs -> NoDup cs ->
  (forall c, In c cs -> exists sz al, In (c, sz, al) (layout (first_hdr s) bs)) ->
  ptrs_ok (prologue s :: cs).
Proof.
  intros G N B.
  assert (Bc : forall c, In c cs ->
             heap_lo s + 48 <= c /\ c + 24 <= 4294967296 /\ 0 < heap_lo s).
  { intros c Hc. destruct (B c Hc) as (sz & al & Hin).
    pose proof (geom_block _ _ _ _ _ G Hin). lia. }
  pose proof G as (G1 & G2 & G3 & G4 & G5 & G6).
  unfold prologue. split; [|split].
  - constructor; [|exact N]. intros Hin. apply Bc in Hin. lia.
  - intros x y [Hx|Hx] [Hy|Hy].
    + left. congruence.
    + apply Bc in Hy. lia.
    + apply Bc in Hx. lia.
    + destruct (B x Hx) as (sx & ax & Ix). destruct (B y Hy) as (sy & ay & Iy).
      pose proof (geom_block _ _ _ _ _ G Ix). pose proof (geom_block _ _ _ _ _ G Iy).
      destruct (layout_sep _ _ _ _ _ _ _ _ G6 Ix Iy) as [E|E]; lia.
  - intros x [Hx|Hx]; [|apply Bc in Hx; lia].
    assert (0 <= total bs) by (apply total_nonneg; exact G6). lia.
Qed.

(** ** Quiet words *)

Lemma quiet_tag (s : state) (bs : list (Z * bool)) (bp sz : Z) (al : bool) :
  geom s bs -> In (bp, sz, al) (layout (first_hdr s) bs) ->
  quiet s bs (bp - 4) /\ quiet s bs (bp + sz - 8).
Proof.
  intros G Hin. pose proof (geom_block _ _ _ _ _ G Hin) as B.
  pose proof G as (_ & _ & _ & _ & _ & G6).
  unfold quiet, dj, prologue.
  assert (F : forall c szc, In (c, szc, false) (layout (first_hdr s) bs) ->
            (c = bp /\ szc = sz) \/ c + szc <= bp \/ bp + sz <= c).
  { intros c szc Hc. destruct (layout_sep _ _ _ _ _ _ _ _ G6 Hc Hin); lia. }
  split; (split; [lia|]; split; [lia|]);
    intros c szc Hc; pose proof (geom_block _ _ _ _ _ G Hc);
    destruct (F c szc Hc); lia.
Qed.

Lemma quiet_outside (s : state) (bs : list (Z * bool)) (x : Z) :
  geom s bs ->
  x + 4 <= prologue s \/ (prologue s + 12 <= x /\ x + 4 <= heap_lo s + 48)
  \/ heap_brk s - 4 <= x ->
  quiet s bs x.
Proof.
  intros G H. unfold quiet, dj, prologue in *.
  pose proof G as (G1 & G2 & G3 & G4 & G5 & G6).
  assert (0 <= total bs) by (apply total_nonneg; exact G6).
  split; [lia|]. split; [lia|].
  intros c szc Hc. pose proof (geom_block _ _ _ _ _ G Hc). lia.
Qed.

(** Inside a block, past the two link slots when the block is free. *)
Lemma quiet_inside (s : state) (bs : list (Z * bool)) (bp sz : Z) (al : bool) (x : Z) :
  geom s bs -> In (bp, sz, al) (layout (first_hdr s) bs) ->
  bp - 4 <= x -> x + 4 <= bp + sz - 4 -> (al = false -> bp + 12 <= x) ->
  quiet s bs x.
Proof.
  intros G Hin H1 H2 H3. pose proof (geom_block _ _ _ _ _ G Hin) as B.
  pose proof G as (_ & _ & _ & _ & _ & G6).
  unfold quiet, dj, prologue.
  split; [lia|]. split; [lia|].
  intros c szc Hc. pose proof (geom_block _ _ _ _ _ G Hc).
  destruct (layout_sep _ _ _ _ _ _ _ _ G6 Hc Hin) as [(E1 & E2 & E3)|E]; [|lia].
  subst. specialize (H3 eq_refl). lia.
Qed.

Lemma geom_PUT (s : state) (bs : list (Z * bool)) (x v : Z) :
  geom (PUT s x v) bs <-> geom s bs.
Proof. reflexivity. Qed.

Lemma quiet_same (s s' : state) (bs : list (Z * bool)) (x : Z) :
  heap_lo s' = heap_lo s -> quiet s' bs x <-> quiet s bs x.
Proof. intros E. unfold quiet, prologue, first_hdr. rewrite E. reflexivity. Qed.

(** ** Tags and lists under stores *)

Lemma tagged_frame (s s' : state) (L : list (Z * Z * bool)) :
  tagged s L ->
  (forall bp sz al, In (bp, sz, al) L ->
     GET s' (bp - 4) = GET s (bp - 4) /\ GET s' (bp + sz - 8) = GET s (bp + sz - 8)) ->
  tagged s' L.
Proof.
  intros T F bp sz al Hin. destruct (T _ _ _ Hin) as [T1 T2].
  destruct (F _ _ _ Hin) as [F1 F2]. unfold blk_ok. rewrite F1, F2. auto.
Qed.

Lemma tagged_app (s : state) (L1 L2 : list (Z * Z * bool)) :
  tagged s (L1 ++ L2) <-> tagged s L1 /\ tagged s L2.
Proof.
  unfold tagged. split.
  - intros H. split; intros bp sz al Hin; apply H; apply in_or_app; auto.
  - intros [H1 H2] bp sz al Hin. apply in_app_or in Hin. destruct Hin; auto.
Qed.

Lemma free_in_same (s s' : state) (bs : list (Z * bool)) (b : Z) :
  heap_lo s' = heap_lo s -> free_in s' bs b <-> free_in s bs b.
Proof. intros E. unfold free_in, first_hdr. rewrite E. reflexivity. Qed.

Lemma heap_list_ptrs_ok (s : state) (bs : list (Z * bool)) (fl pend : list Z) :
  geom s bs -> heap_list s bs fl pend -> ptrs_ok (prologue s :: fl).
Proof.
  intros G L. apply (heap_ptrs_ok s bs); [exact G|apply (hl_nodup _ _ _ _ L)|].
  intros c Hc. destruct (hl_sound _ _ _ _ L c Hc) as [[sz Hin] _]. eauto.
Qed.

(** A store at a quiet word leaves the free list alone. *)
Lemma heap_list_PUT (s : state) (bs : list (Z * bool)) (fl pend : list Z) (x v : Z) :
  heap_list s bs fl pend -> quiet s bs x -> heap_list (PUT s x v) bs fl pend.
Proof.
  intros L Q. destruct L as [L1 L2 L3 L4]. split; try assumption.
  autorewrite with fld. apply (flist_frame s); [|exact L1].
  intros c Hc. destruct (L3 c Hc) as [[sz Hin] _].
  destruct Q as (_ & _ & Q). destruct (Q c sz Hin) as [Q1 Q2].
  unfold dj in *. rewrite !GET_PUT_other by lia. auto.
Qed.

(** [remove_block] inside the heap. *)
Lemma remove_block_heap (s : state) (bs : list (Z * bool)) (fl pend : list Z) (b : Z) :
  geom s bs -> heap_list s bs fl pend -> In b fl ->
  heap_list (remove_block s b) bs (remove Z.eq_dec b fl) (b :: pend)
  /\ (forall x, quiet s bs x -> GET (remove_block s b) x = GET s x)
  /\ heap_lo (remove_block s b) = heap_lo s
  /\ heap_brk (remove_block s b) = heap_brk s
  /\ heap_max (remove_block s b) = heap_max s
  /\ heap_listp (remove_block s b) = heap_listp s.
Proof.
  intros G L Hin.
  pose proof (heap_list_ptrs_ok _ _ _ _ G L) as OK.
  destruct (fields_remove_block s b) as (F1 & F2 & F3 & F4).
  destruct (remove_block_flist s (prologue s) b fl (hl_flist _ _ _ _ L) OK Hin)
    as [R1 R2].
  split; [|split; [|auto]].
  - split.
    + unfold prologue in *. rewrite F1. exact R1.
    + pose proof (hl_nodup _ _ _ _ L) as N.
      destruct (in_split _ _ Hin) as (l1 & l2 & E). rewrite E in *.
      rewrite (remove_mid _ _ _ N). apply NoDup_remove_1 in N. exact N.
    + intros c Hc. apply in_remove in Hc. destruct Hc as [Hc Hne].
      destruct (hl_sound _ _ _ _ L c Hc) as [S1 S2].
      split; [apply (free_in_same s); assumption|].
      intros [E|E]; [congruence|contradiction].
    + intros c Hc. apply (free_in_same s) in Hc; [|exact F1].
      destruct (Z.eq_dec c b) as [->|Hne]; [right; left; reflexivity|].
      destruct (hl_complete _ _ _ _ L c Hc) as [H|H].
      * left. apply in_in_remove; assumption.
      * right. right. exact H.
  - intros x Q. apply R2. intros c [Hc|Hc] Hne.
    + subst c. destruct Q as (Q1 & Q2 & _). auto.
    + destruct (hl_sound _ _ _ _ L c Hc) as [[sz Hs] _].
      destruct Q as (_ & _ & Q). apply (Q c sz Hs).
Qed.

(** [insert_at_front] inside the heap: the pending block joins the list. *)
Lemma insert_at_front_heap (s : state) (bs : list (Z * bool)) (fl : list Z) (b : Z) :
  geom s bs -> heap_list s bs fl [b] -> free_in s bs b ->
  heap_list (insert_at_front s b) bs (b :: fl) []
  /\ (forall x, quiet s bs x -> GET (insert_at_front s b) x = GET s x)
  /\ heap_lo (insert_at_front s b) = heap_lo s
  /\ heap_brk (insert_at_front s b) = heap_brk s
  /\ heap_max (insert_at_front s b) = heap_max s
  /\ heap_listp (insert_at_front s b) = heap_listp s.
Proof.
  intros G L Fb.
  assert (Nb : ~ In b fl).
  { intros Hin. destruct (hl_sound _ _ _ _ L b Hin) as [_ C]. apply C. left. reflexivity. }
  assert (OK : ptrs_ok (prologue s :: b :: fl)).
  { apply (heap_ptrs_ok s bs); [exact G| |].
    - constructor; [exact Nb|apply (hl_nodup _ _ _ _ L)].
    - intros c [Hc|Hc].
      + subst c. destruct Fb as [sz Hin]. eauto.
      + destruct (hl_sound _ _ _ _ L c Hc) as [[sz Hin] _]. eauto. }
  destruct (insert_at_front_flist s (prologue s) b fl (hl_flist _ _ _ _ L) OK) as [R1 R2].
  split; [|split; [|repeat split]].
  - split.
    + exact R1.
    + destruct OK as (N & _ & _). inversion N; assumption.
    + intros c [Hc|Hc]; (split; [|intros []]).
      * subst c. exact Fb.
      * apply (hl_sound _ _ _ _ L c Hc).
    + intros c Hc. destruct (hl_complete _ _ _ _ L c Hc) as [H|[H|[]]].
      * left. right. exact H.
      * left. left. exact H.
  - intros x Q. destruct Fb as [sz Hin].
    pose proof Q as (Q1 & Q2 & Q3). destruct (Q3 b sz Hin) as [D1 D2].
    apply R2; [exact D1|exact D2|].
    destruct fl as [|d r]; simpl; [exact Q1|].
    destruct (hl_sound _ _ _ _ L d (or_introl eq_refl)) as [[szd Hd] _].
    apply (Q3 d szd Hd).
Qed.

(** Rewriting the tags of a stretch of the row: the heap stays well
    tagged when nothing but link slots changes outside the stretch. *)
Lemma rebuild (s s' : state) (rpre mid mid' post : list (Z * bool)) :
  heap_shape s (rev rpre ++ mid ++ post) ->
  heap_lo s' = heap_lo s -> heap_max s' = heap_max s -> heap_listp s' = heap_listp s ->
  heap_brk s' = heap_brk s + (total mid' - total mid) ->
  heap_brk s' <= heap_max s' ->
  post = [] \/ total mid' = total mid ->
  sized mid' ->
  (forall x, quiet s (rev rpre ++ mid ++ post) x ->
             x + 4 <= first_hdr s + total rpre
             \/ (first_hdr s + total rpre + total mid <= x /\ post <> []) ->
             GET s' x = GET s x) ->
  tagged s' (layout (first_hdr s + total rpre) mid') ->
  GET s' (heap_brk s' - 4) = 1 ->
  heap_core s' (rev rpre ++ mid' ++ post).
Proof.
  intros (G & Clp & Cpro & Cpad & Cgap & Ctags) E1 E2 E3 E4 E5 Hp Sm F T Ep.
  pose proof G as (G1 & G2 & G3 & G4 & G5 & G6).
  apply sized_app in G6. destruct G6 as [S1 S23]. apply sized_app in S23.
  destruct S23 as [S2 S3]. apply -> sized_rev in S1.
  pose proof (total_nonneg _ S1). pose proof (total_nonneg _ S2).
  pose proof (total_nonneg _ S3). pose proof (total_nonneg _ Sm).
  rewrite !total_app, total_rev in G4.
  assert (Fh : first_hdr s' = first_hdr s) by (unfold first_hdr; congruence).
  split.
  - rewrite E1. exact G1.
  - rewrite E1. exact G2.
  - rewrite E2. exact G3.
  - rewrite !total_app, total_rev, E1, E4. lia.
  - exact E5.
  - rewrite E3, E1. exact Clp.
  - rewrite E1, F; [exact Cpro| |].
    + apply quiet_outside; [exact G|]. unfold prologue. lia.
    + unfold first_hdr. lia.
  - rewrite E1, F; [exact Cpad| |].
    + apply quiet_outside; [exact G|]. unfold prologue. lia.
    + unfold first_hdr. lia.
  - unfold GET_SIZE. rewrite E1, F; [exact Cgap| |].
    + apply quiet_outside; [exact G|]. unfold prologue. lia.
    + unfold first_hdr. lia.
  - apply sized_app. split; [apply sized_rev; exact S1|].
    apply sized_app. split; assumption.
  - rewrite Fh. intros bp sz al Hin. apply layout_zip in Hin.
    destruct Hin as [Hin|[Hin|Hin]].
    + assert (Hin' : In (bp, sz, al) (layout (first_hdr s) (rev rpre ++ mid ++ post))).
      { apply layout_zip. left. exact Hin. }
      destruct (quiet_tag _ _ _ _ _ G Hin') as [Q1 Q2].
      pose proof (layout_bounds _ _ _ _ _ (proj2 (sized_rev _) S1) Hin) as B.
      rewrite total_rev in B.
      destruct (Ctags _ _ _ Hin') as [T1 T2].
      unfold blk_ok. rewrite !F by (auto; lia). auto.
    + apply T. exact Hin.
    + destruct post as [|p0 post0]; [destruct Hin|].
      destruct Hp as [Hp|Hp]; [discriminate|]. rewrite Hp in Hin.
      assert (Hin' : In (bp, sz, al) (layout (first_hdr s) (rev rpre ++ mid ++ p0 :: post0))).
      { apply layout_zip. right. right. exact Hin. }
      destruct (quiet_tag _ _ _ _ _ G Hin') as [Q1 Q2].
      pose proof (layout_bounds _ _ _ _ _ S3 Hin) as B.
      destruct (Ctags _ _ _ Hin') as [T1 T2].
      unfold blk_ok.
      rewrite !F; auto; right; (split; [lia|discriminate]).
  - exact Ep.
Qed.

(** The same when the stretch keeps its length and the break stays. *)
Lemma rebuild_same (s s' : state) (rpre mid mid' post : list (Z * bool)) :
  heap_core s (rev rpre ++ mid ++ post) ->
  heap_lo s' = heap_lo s -> heap_max s' = heap_max s -> heap_listp s' = heap_listp s ->
  heap_brk s' = heap_brk s ->
  total mid' = total mid ->
  sized mid' ->
  (forall x, quiet s (rev rpre ++ mid ++ post) x ->
             x + 4 <= first_hdr s + total rpre
             \/ first_hdr s + total rpre + total mid <= x ->
             GET s' x = GET s x) ->
  tagged s' (layout (first_hdr s + total rpre) mid') ->
  heap_core s' (rev rpre ++ mid' ++ post).
Proof.
  intros C E1 E2 E3 E4 Et Sm F T.
  pose proof (core_geom _ _ C) as G.
  pose proof G as (G1 & G2 & G3 & G4 & G5 & G6).
  apply sized_app in G6. destruct G6 as [S1 S23]. apply sized_app in S23.
  destruct S23 as [S2 S3]. apply -> sized_rev in S1.
  pose proof (total_nonneg _ S1). pose proof (total_nonneg _ S2).
  pose proof (total_nonneg _ S3).
  rewrite !total_app, total_rev in G4.
  apply (rebuild s s' rpre mid mid' post); auto; try lia.
  - apply core_shape. exact C.
  - intros x Q [Hx|[Hx _]]; apply F; auto.
  - rewrite E4, F; [apply (core_epilogue _ _ C)| |].
    + apply quiet_outside; [exact G|]. lia.
    + unfold first_hdr. lia.
Qed.

(** ** The neighbourhood of a block *)

Lemma nb_prev (h : Z) (psz : Z) (pal : bool) (rp mid : list (Z * bool)) :
  In (h + total rp + 4, psz, pal) (layout h (rev ((psz, pal) :: rp) ++ mid)).
Proof.
  rewrite layout_app. apply in_or_app. left.
  apply layout_rev_cons. right. reflexivity.
Qed.

Lemma nb_next (h : Z) (rpre : list (Z * bool)) (sz : Z) (al : bool)
      (nsz : Z) (nal : bool) (po : list (Z * bool)) :
  In (h + total rpre + sz + 4, nsz, nal)
     (layout h (rev rpre ++ (sz, al) :: (nsz, nal) :: po)).
Proof.
  rewrite layout_app, total_rev. apply in_or_app. right. right. left. reflexivity.
Qed.

Lemma b2z_eqb0 (al : bool) : (b2z al =? 0) = negb al.
Proof. destruct al; reflexivity. Qed.

Lemma hd_alloc_cons (sz : Z) (al : bool) (r : list (Z * bool)) :
  hd_alloc ((sz, al) :: r) = al.
Proof. destruct al; reflexivity. Qed.

(** What the coalescer reads: the size of its block and the allocated
    bits of the two neighbours. *)
Lemma coalesce_reads (s : state) (rpre post : list (Z * bool)) (sz : Z) (bp : Z) :
  heap_core s (rev rpre ++ (sz, false) :: post) ->
  bp = first_hdr s + total rpre + 4 ->
  HDRP bp = bp - 4 /\ GET_SIZE s (bp - 4) = sz
  /\ NEXT_BLKP s bp = bp + sz
  /\ PREV_BLKP s bp = bp - total (firstn 1 rpre)
  /\ negb (GET_ALLOC s (FTRP s (PREV_BLKP s bp)) =? 0) || (PREV_BLKP s bp =? bp)
     = hd_alloc rpre
  /\ negb (GET_ALLOC s (HDRP (NEXT_BLKP s bp)) =? 0) = hd_alloc post.
Proof.
  intros C Hbp.
  pose proof (core_geom _ _ C) as G.
  assert (Hin : In (bp, sz, false) (layout (first_hdr s) (rev rpre ++ (sz, false) :: post))).
  { rewrite Hbp. apply layout_mid. }
  pose proof (geom_block _ _ _ _ _ G Hin) as B.
  destruct (core_tags _ _ C _ _ _ Hin) as [T1 T2]. simpl b2z in T1, T2.
  assert (Hh : HDRP bp = bp - 4) by (apply HDRP_eq; lia).
  assert (Hs : GET_SIZE s (bp - 4) = sz).
  { apply (GET_SIZE_tag s _ sz false); [exact T1|lia]. }
  assert (Hn : NEXT_BLKP s bp = bp + sz) by (apply NEXT_BLKP_eq; lia).
  split; [exact Hh|]. split; [exact Hs|]. split; [exact Hn|].
  assert (Hprev : PREV_BLKP s bp = bp - total (firstn 1 rpre)
          /\ negb (GET_ALLOC s (FTRP s (PREV_BLKP s bp)) =? 0) || (PREV_BLKP s bp =? bp)
             = hd_alloc rpre).
  { destruct rpre as [|[psz pal] rp].
    - assert (E : PREV_BLKP s bp = bp).
      { rewrite (PREV_BLKP_eq s bp 0); [lia|lia| |lia].
        replace (bp - 8) with (heap_lo s + 40)
          by (rewrite Hbp; unfold first_hdr; simpl; lia).
        apply (core_gap _ _ C). }
      split; [simpl; lia|].
      rewrite E, Z.eqb_refl. apply orb_true_r.
    - assert (Hp : In (bp - psz, psz, pal)
                      (layout (first_hdr s) (rev ((psz, pal) :: rp) ++ (sz, false) :: post))).
      { replace (bp - psz) with (first_hdr s + total rp + 4)
          by (rewrite Hbp; simpl; lia).
        apply nb_prev. }
      pose proof (geom_block _ _ _ _ _ G Hp) as Bp.
      destruct (core_tags _ _ C _ _ _ Hp) as [P1 P2].
      replace (bp - psz + psz - 8) with (bp - 8) in P2 by lia.
      assert (E : PREV_BLKP s bp = bp - psz).
      { apply PREV_BLKP_eq; [lia| |lia].
        apply (GET_SIZE_tag s _ psz pal); [exact P2|lia]. }
      split; [simpl; rewrite E; lia|].
      rewrite E.
      rewrite (FTRP_eq s (bp - psz) psz); [|lia| |lia|lia].
      2:{ apply (GET_SIZE_tag s _ psz pal); [exact P1|lia]. }
      replace (bp - psz + psz - 8) with (bp - 8) by lia.
      rewrite (GET_ALLOC_tag s _ psz pal P2) by lia.
      rewrite b2z_eqb0, negb_involutive, hd_alloc_cons.
      replace (bp - psz =? bp) with false by (symmetry; apply Z.eqb_neq; lia).
      apply orb_false_r. }
  destruct Hprev as [Hp1 Hp2]. split; [exact Hp1|]. split; [exact Hp2|].
  rewrite Hn. rewrite HDRP_eq by lia.
  destruct post as [|[nsz nal] po].
  - assert (E : bp + sz - 4 = heap_brk s - 4).
    { destruct G as (_ & _ & _ & G4 & _ & _). rewrite G4, total_app, total_rev.
      rewrite Hbp. unfold first_hdr. simpl. lia. }
    rewrite E. unfold GET_ALLOC. rewrite (core_epilogue _ _ C). reflexivity.
  - assert (Hnx : In (bp + sz, nsz, nal)
                     (layout (first_hdr s) (rev rpre ++ (sz, false) :: (nsz, nal) :: po))).
    { replace (bp + sz) with (first_hdr s + total rpre + sz + 4) by lia.
      apply nb_next. }
    pose proof (geom_block _ _ _ _ _ G Hnx) as Bn.
    destruct (core_tags _ _ C _ _ _ Hnx) as [N1 N2].
    rewrite (GET_ALLOC_tag s _ nsz nal N1) by lia.
    rewrite b2z_eqb0, negb_involutive, hd_alloc_cons. reflexivity.
Qed.

(** ** Words the allocator leaves alone *)

Lemma keeps_refl (s : state) (bs : list (Z * bool)) : keeps s s bs.
Proof. intros q szq x _ _ _. reflexivity. Qed.

Lemma keeps_quiet (s s' : state) (bs : list (Z * bool)) :
  geom s bs -> (forall x, quiet s bs x -> GET s' x = GET s x) -> keeps s s' bs.
Proof.
  intros G F q szq x Hin H1 H2. apply F.
  apply (quiet_inside s bs q szq true x G Hin H1 H2). discriminate.
Qed.

Lemma keeps_zip (s s' : state) (rpre mid mid' post : list (Z * bool)) :
  geom s (rev rpre ++ mid ++ post) ->
  (forall x, quiet s (rev rpre ++ mid ++ post) x ->
             x + 4 <= first_hdr s + total rpre
             \/ first_hdr s + total rpre + total mid <= x ->
             GET s' x = GET s x) ->
  total mid' = total mid ->
  (forall q szq, ~ In (q, szq, true) (layout (first_hdr s + total rpre) mid')) ->
  keeps s s' (rev rpre ++ mid' ++ post).
Proof.
  intros G F Et Hmid q szq x Hin H1 H2.
  pose proof G as (_ & _ & _ & _ & _ & G6).
  apply sized_app in G6. destruct G6 as [S1 S23]. apply sized_app in S23.
  destruct S23 as [S2 S3].
  apply layout_zip in Hin. destruct Hin as [Hin|[Hin|Hin]].
  - pose proof (layout_bounds _ _ _ _ _ S1 Hin) as B. rewrite total_rev in B.
    apply F; [|lia].
    apply (quiet_inside s _ q szq true x G); [|assumption|assumption|discriminate].
    apply layout_zip. left. exact Hin.
  - destruct (Hmid _ _ Hin).
  - rewrite Et in Hin.
    pose proof (layout_bounds _ _ _ _ _ S3 Hin) as B.
    apply F; [|lia].
    apply (quiet_inside s _ q szq true x G); [|assumption|assumption|discriminate].
    apply layout_zip. right. right. exact Hin.
Qed.

Lemma keeps_trans (s s1 s2 : state) (bs bs1 : list (Z * bool)) :
  keeps s s1 bs -> keeps s1 s2 bs1 -> first_hdr s1 = first_hdr s ->
  (forall q szq, In (q, szq, true) (layout (first_hdr s) bs) ->
                 In (q, szq, true) (layout (first_hdr s) bs1)) ->
  keeps s s2 bs.
Proof.
  intros K1 K2 Fh Sub q szq x Hin H1 H2.
  rewrite (K2 q szq x); [apply (K1 q szq x); assumption| |assumption|assumption].
  rewrite Fh. apply Sub. exact Hin.
Qed.

Lemma keeps_sub (s s' : state) (bs bs0 : list (Z * bool)) :
  keeps s s' bs ->
  (forall q szq, In (q, szq, true) (layout (first_hdr s) bs0) ->
                 In (q, szq, true) (layout (first_hdr s) bs)) ->
  keeps s s' bs0.
Proof. intros K Sub q szq x Hin. apply K. apply Sub. exact Hin. Qed.

Lemma alloc_restretch (h : Z) (rpre mid mid' post : list (Z * bool)) (q szq : Z) :
  total mid' = total mid ->
  (forall c szc, ~ In (c, szc, true) (layout (h + total rpre) mid)) ->
  In (q, szq, true) (layout h (rev rpre ++ mid ++ post)) ->
  In (q, szq, true) (layout h (rev rpre ++ mid' ++ post)).
Proof.
  intros Et Hmid Hin. apply layout_zip. apply layout_zip in Hin.
  destruct Hin as [Hin|[Hin|Hin]]; [left; exact Hin|destruct (Hmid _ _ Hin)|].
  right. right. rewrite Et. exact Hin.
Qed.

(** Retagging a stretch of free blocks and linking the result keeps
    the allocated blocks. *)
Lemma keeps_stretch (s s3 s4 : state) (rp mid post : list (Z * bool)) :
  geom s (rev rp ++ mid ++ post) ->
  geom s3 (rev rp ++ [(total mid, false)] ++ post) ->
  first_hdr s3 = first_hdr s ->
  (forall x, quiet s (rev rp ++ mid ++ post) x ->
             x + 4 <= first_hdr s + total rp
             \/ first_hdr s + total rp + total mid <= x ->
             GET s3 x = GET s x) ->
  (forall x, quiet s3 (rev rp ++ [(total mid, false)] ++ post) x ->
             GET s4 x = GET s3 x) ->
  (forall q szq, ~ In (q, szq, true) (layout (first_hdr s + total rp) mid)) ->
  keeps s s4 (rev rp ++ mid ++ post).
Proof.
  intros G G3 Fh F3 F4 Hmid.
  apply (keeps_trans s s3 s4 _ (rev rp ++ [(total mid, false)] ++ post)).
  - apply (keeps_zip s s3 rp mid mid post); auto.
  - apply keeps_quiet; assumption.
  - exact Fh.
  - intros q szq. apply alloc_restretch; [simpl; lia|exact Hmid].
Qed.

Ltac gp :=
  repeat first [ rewrite GET_PUT_eq by lia
               | rewrite GET_PUT_other by lia
               | rewrite GET_set_free_listp ].

(** ** The coalescer, case by case *)

(** Both neighbours allocated: the block only joins the list. *)
Lemma insert_pending (s : state) (rpre post : list (Z * bool)) (sz : Z) (fl : list Z) :
  let bs := rev rpre ++ (sz, false) :: post in
  let bp := first_hdr s + total rpre + 4 in
  heap_core s bs -> heap_list s bs fl [bp] ->
  heap_core (insert_at_front s bp) bs /\ heap_list (insert_at_front s bp) bs (bp :: fl) []
  /\ forall x, quiet s bs x -> GET (insert_at_front s bp) x = GET s x.
Proof.
  intros bs bp C L.
  pose proof (core_geom _ _ C) as G.
  assert (Hin : In (bp, sz, false) (layout (first_hdr s) bs)) by apply layout_mid.
  assert (Fb : free_in s bs bp) by (exists sz; exact Hin).
  destruct (insert_at_front_heap s bs fl bp G L Fb) as (L' & F & E1 & E2 & E3 & E4).
  split; [|split; [exact L'|exact F]].
  apply (rebuild_same s _ rpre [(sz, false)] [(sz, false)] post); auto.
  - apply sized_cons. pose proof (geom_block _ _ _ _ _ G Hin). split; [lia|apply sized_nil].
  - intros bp0 sz0 al0 [E|[]]. inversion E; subst.
    destruct (quiet_tag _ _ _ _ _ G Hin) as [Q1 Q2].
    destruct (core_tags _ _ C _ _ _ Hin) as [T1 T2].
    unfold blk_ok. fold bp. rewrite !F by assumption. auto.
Qed.

(** Moving the ghost row from [mid] to [mid']: members of the list lie
    outside the stretch, and the free blocks of the new stretch are
    pending. *)
Lemma heap_list_reghost (s : state) (rpre mid mid' post : list (Z * bool))
      (fl pend pend' : list Z) :
  heap_list s (rev rpre ++ mid ++ post) fl pend ->
  sized (rev rpre ++ mid ++ post) -> sized mid' -> total mid' = total mid ->
  (forall c, In c pend ->
     first_hdr s + total rpre + 4 <= c < first_hdr s + total rpre + total mid + 4) ->
  (forall c, In c fl ->
     c < first_hdr s + total rpre + 4 \/ first_hdr s + total rpre + total mid + 4 <= c) ->
  (forall c sz, In (c, sz, false) (layout (first_hdr s + total rpre) mid') -> In c pend') ->
  (forall c, In c pend' ->
     first_hdr s + total rpre + 4 <= c < first_hdr s + total rpre + total mid + 4) ->
  heap_list s (rev rpre ++ mid' ++ post) fl pend'.
Proof.
  intros L S Sm' Et Hpend Hfl Hmid' Hpend'.
  apply sized_app in S. destruct S as [S1 S23]. apply sized_app in S23.
  destruct S23 as [S2 S3].
  destruct L as [L1 L2 L3 L4]. split; [exact L1|exact L2| |].
  - intros c Hc. destruct (L3 c Hc) as [[szc Hin] _].
    specialize (Hfl c Hc). split.
    + exists szc. apply layout_zip. apply layout_zip in Hin.
      destruct Hin as [Hin|[Hin|Hin]]; [left; exact Hin| |].
      * pose proof (layout_bounds _ _ _ _ _ S2 Hin). lia.
      * right. right. rewrite Et. exact Hin.
    + intros Hp. specialize (Hpend' c Hp). lia.
  - intros c [szc Hin]. apply layout_zip in Hin.
    destruct Hin as [Hin|[Hin|Hin]].
    + assert (F : free_in s (rev rpre ++ mid ++ post) c).
      { exists szc. apply layout_zip. left. exact Hin. }
      destruct (L4 c F) as [H|H]; [left; exact H|].
      specialize (Hpend c H). pose proof (layout_bounds _ _ _ _ _ S1 Hin) as B.
      rewrite total_rev in B. lia.
    + right. apply (Hmid' c szc Hin).
    + assert (F : free_in s (rev rpre ++ mid ++ post) c).
      { exists szc. apply layout_zip. right. right. rewrite <- Et. exact Hin. }
      destruct (L4 c F) as [H|H]; [left; exact H|].
      specialize (Hpend c H). pose proof (layout_bounds _ _ _ _ _ S3 Hin) as B. lia.
Qed.

Lemma heap_list_same (s s' : state) (bs : list (Z * bool)) (fl pend : list Z) :
  heap_list s bs fl pend ->
  heap_lo s' = heap_lo s -> free_listp s' = free_listp s ->
  (forall c, In c fl -> GET s' c = GET s c /\ GET s' (c + 8) = GET s (c + 8)) ->
  heap_list s' bs fl pend.
Proof.
  intros [L1 L2 L3 L4] E1 E2 F. split.
  - unfold prologue. rewrite E1, E2. apply (flist_frame s); assumption.
  - exact L2.
  - intros c Hc. destruct (L3 c Hc) as [A B]. split; [|exact B].
    apply (free_in_same s); assumption.
  - intros c Hc. apply L4. apply (free_in_same s) in Hc; assumption.
Qed.

(** Retagging a stretch of unlinked free blocks as one free block. *)
Lemma merge_stretch (s s1 : state) (rp mid post : list (Z * bool)) (fl pend : list Z) :
  let bs := rev rp ++ mid ++ post in
  let hm := first_hdr s + total rp in
  let size := total mid in
  heap_core s bs ->
  heap_list s1 bs fl pend ->
  heap_lo s1 = heap_lo s -> heap_brk s1 = heap_brk s -> heap_max s1 = heap_max s ->
  heap_listp s1 = heap_listp s ->
  (forall x, quiet s bs x -> GET s1 x = GET s x) ->
  mid <> [] ->
  quiet s bs hm -> quiet s bs (hm + size - 4) ->
  (forall c, In c pend -> hm + 4 <= c < hm + size + 4) ->
  (forall c sz, In (c, sz, false) (layout hm mid) -> In c pend) ->
  let s3 := PUT (PUT s1 hm size) (hm + size - 4) size in
  heap_core s3 (rev rp ++ (size, false) :: post)
  /\ heap_list s3 (rev rp ++ (size, false) :: post) fl [hm + 4]
  /\ forall x, quiet s bs x -> x + 4 <= hm \/ hm + size <= x -> GET s3 x = GET s x.
Proof.
  intros bs hm size C L E1 E2 E3 E4 F NE Q1 Q2 Hpend Hmid s3.
  pose proof (core_geom _ _ C) as G.
  pose proof G as (G1 & G2 & G3 & G4 & G5 & G6).
  pose proof G6 as S. apply sized_app in S. destruct S as [S1 S23].
  apply sized_app in S23. destruct S23 as [S2 S3]. apply -> sized_rev in S1.
  pose proof (total_nonneg _ S1). pose proof (total_nonneg _ S3).
  assert (Hsize : 24 <= size /\ size mod 8 = 0).
  { split; [|apply total_mod8; exact S2].
    destruct mid as [|[sz0 al0] mid0]; [contradiction|].
    apply sized_cons in S2. destruct S2 as [[A _] S2].
    pose proof (total_nonneg _ S2). unfold size. simpl. lia. }
  assert (Hrange : heap_lo s + 44 <= hm /\ hm + size <= heap_brk s - 4
                   /\ heap_brk s < 4294967296).
  { unfold bs in G4. rewrite !total_app, total_rev in G4.
    unfold hm, size, first_hdr. lia. }
  assert (Sm' : sized [(size, false)]).
  { apply sized_cons. split; [exact Hsize|apply sized_nil]. }
  split; [|split].
  3: { intros x Q Hx. unfold s3. rewrite !GET_PUT_other by lia. apply F. exact Q. }
  - change (rev rp ++ (size, false) :: post) with (rev rp ++ [(size, false)] ++ post).
    apply (rebuild_same s s3 rp mid [(size, false)] post); auto.
    + simpl. unfold size. lia.
    + intros x Q Hx. fold hm in Hx. fold size in Hx. unfold s3.
      rewrite !GET_PUT_other by lia. apply F. exact Q.
    + fold hm. intros bp0 sz0 al0 [E|[]]. inversion E; subst.
      unfold blk_ok, s3. simpl b2z.
      split.
      * rewrite GET_PUT_other by lia. rewrite GET_PUT_eq by lia.
        rewrite w32_small by lia. lia.
      * rewrite GET_PUT_eq by lia. rewrite w32_small by lia. lia.
  - assert (L3 : heap_list s3 bs fl pend).
    { unfold s3. apply heap_list_PUT; [apply heap_list_PUT; [exact L|]|].
      - apply (quiet_same s); assumption.
      - apply (quiet_same s); [|assumption]. autorewrite with fld. exact E1. }
    assert (Fh : first_hdr s3 = first_hdr s) by (unfold first_hdr, s3; simpl; congruence).
    change (rev rp ++ (size, false) :: post) with (rev rp ++ [(size, false)] ++ post).
    apply (heap_list_reghost s3 rp mid [(size, false)] post fl pend [hm + 4]);
      try rewrite Fh; fold hm; fold size; auto.
    + simpl. lia.
    + intros c Hc. destruct (hl_sound _ _ _ _ L3 c Hc) as [[szc Hin] Np].
      rewrite Fh in Hin. apply layout_zip in Hin.
      destruct Hin as [Hin|[Hin|Hin]].
      * pose proof (layout_bounds _ _ _ _ _ (proj2 (sized_rev _) S1) Hin) as B.
        rewrite total_rev in B. fold hm in B. lia.
      * exfalso. apply Np. apply (Hmid c szc). exact Hin.
      * pose proof (layout_bounds _ _ _ _ _ S3 Hin) as B. fold hm in B. fold size in B. lia.
    + intros c szc [E|[]]. inversion E; subst. left. reflexivity.
    + intros c [E|[]]. subst c. lia.
Qed.

Lemma PACK_bit (size a : Z) : size mod 8 = 0 -> 0 <= a <= 1 -> PACK size a = size + a.
Proof.
  intros M A. assert (E : a = b2z false \/ a = b2z true) by (simpl; lia).
  destruct E as [-> | ->]; apply PACK_add; exact M.
Qed.

Lemma GET_SIZE_PUT_PACK (s : state) (x size a : Z) :
  size mod 8 = 0 -> 0 <= a <= 1 -> 0 <= size -> size + a < 4294967296 ->
  GET_SIZE (PUT s x (PACK size a)) x = size.
Proof.
  intros M A R1 R2. rewrite PACK_bit by assumption.
  assert (E : a = b2z false \/ a = b2z true) by (simpl; lia).
  destruct E as [-> | ->].
  - apply (GET_SIZE_tag _ _ size false); [|exact M].
    rewrite GET_PUT_same. apply w32_small. simpl in *. lia.
  - apply (GET_SIZE_tag _ _ size true); [|exact M].
    rewrite GET_PUT_same. apply w32_small. simpl in *. lia.
Qed.

Lemma FTRP_PUT (s : state) (bp size a : Z) :
  size mod 8 = 0 -> 0 <= a <= 1 -> 8 <= size -> 4 <= bp -> bp + size < 4294967296 ->
  FTRP (PUT s (bp - 4) (PACK size a)) bp = bp + size - 8.
Proof.
  intros M A R1 R2 R3. apply FTRP_eq; try lia.
  apply GET_SIZE_PUT_PACK; lia.
Qed.

Lemma NEXT_BLKP_PUT (s : state) (bp size a : Z) :
  size mod 8 = 0 -> 0 <= a <= 1 -> 8 <= size -> 4 <= bp -> bp + size < 4294967296 ->
  NEXT_BLKP (PUT s (bp - 4) (PACK size a)) bp = bp + size.
Proof.
  intros M A R1 R2 R3. apply NEXT_BLKP_eq; try lia.
  apply GET_SIZE_PUT_PACK; lia.
Qed.

Lemma PUT_ext (s s' : state) (a a' v v' : Z) :
  s = s' -> a = a' -> v = v' -> PUT s a v = PUT s' a' v'.
Proof. intros -> -> ->. reflexivity. Qed.

Lemma pair_ext {A B : Type} (a a' : A) (b b' : B) : a = a' -> b = b' -> (a, b) = (a', b').
Proof. intros -> ->. reflexivity. Qed.

Lemma insert_ext (s s' : state) (b b' : Z) :
  s = s' -> b = b' -> insert_at_front s b = insert_at_front s' b'.
Proof. intros -> ->. reflexivity. Qed.

Lemma mod8_add (a b : Z) : a mod 8 = 0 -> b mod 8 = 0 -> (a + b) mod 8 = 0.
Proof. intros A B. rewrite Z.add_mod, A, B by lia. reflexivity. Qed.

(** Next block free, previous block allocated. *)
Lemma coalesce_AF (s : state) (rpre po : list (Z * bool)) (sz nsz : Z) (fl : list Z) :
  let bs := rev rpre ++ (sz, false) :: (nsz, false) :: po in
  let bp := first_hdr s + total rpre + 4 in
  let bs' := rev rpre ++ (sz + nsz, false) :: po in
  heap_core s bs -> heap_list s bs fl [bp] -> hd_alloc rpre = true ->
  fst (coalesce s bp) = bp
  /\ heap_core (snd (coalesce s bp)) bs'
  /\ heap_list (snd (coalesce s bp)) bs' (bp :: remove Z.eq_dec (bp + sz) fl) []
  /\ keeps s (snd (coalesce s bp)) bs.
Proof.
  intros bs bp bs' C L Hpa.
  pose proof (core_geom _ _ C) as G.
  destruct (coalesce_reads s rpre ((nsz, false) :: po) sz bp C eq_refl)
    as (Hh & Hs & Hn & Hpv & Hp & Hnx).
  assert (Hin : In (bp, sz, false) (layout (first_hdr s) bs)) by apply layout_mid.
  assert (Hnb : In (bp + sz, nsz, false) (layout (first_hdr s) bs)).
  { replace (bp + sz) with (first_hdr s + total rpre + sz + 4) by (unfold bp; lia).
    apply nb_next. }
  pose proof (geom_block _ _ _ _ _ G Hin) as B.
  pose proof (geom_block _ _ _ _ _ G Hnb) as Bn.
  destruct (core_tags _ _ C _ _ _ Hnb) as [N1 N2].
  assert (Hns : GET_SIZE s (bp + sz - 4) = nsz).
  { apply (GET_SIZE_tag s _ nsz false); [exact N1|lia]. }
  assert (M : (sz + nsz) mod 8 = 0) by (apply mod8_add; lia).
  set (hm := first_hdr s + total rpre).
  set (mid := [(sz, false); (nsz, false)]).
  set (s1 := remove_block s (bp + sz)).
  assert (E : coalesce s bp
              = (bp, insert_at_front
                       (PUT (PUT s1 hm (total mid)) (hm + total mid - 4) (total mid))
                       (hm + 4))).
  { unfold coalesce. rewrite Hp, Hnx, Hpa. cbn [hd_alloc andb negb].
    rewrite Hn, Hh, Hs. rewrite (HDRP_eq (bp + sz)) by lia. rewrite Hns.
    rewrite (w32_small (sz + nsz)) by lia.
    rewrite FTRP_PUT by lia. rewrite PACK_bit by lia.
    fold s1. unfold mid, hm, bp. simpl total.
    apply pair_ext; [lia|]. apply insert_ext; [|lia].
    apply PUT_ext; [apply PUT_ext; [reflexivity|lia|lia]|lia|lia]. }
  rewrite E. cbn [fst snd].
  assert (Hfl : In (bp + sz) fl).
  { destruct (hl_complete _ _ _ _ L (bp + sz)) as [H|[H|[]]]; [exists nsz; exact Hnb|exact H|].
    lia. }
  destruct (remove_block_heap s bs fl [bp] (bp + sz) G L Hfl)
    as (L1 & F1 & E1 & E2 & E3 & E4).
  fold s1 in L1, F1, E1, E2, E3, E4.
  destruct (quiet_tag _ _ _ _ _ G Hin) as [Qh _].
  destruct (quiet_tag _ _ _ _ _ G Hnb) as [_ Qf].
  destruct (merge_stretch s s1 rpre mid po (remove Z.eq_dec (bp + sz) fl) [bp + sz; bp])
    as (C3 & L3 & F3); auto.
  - discriminate.
  - replace (first_hdr s + total rpre) with (bp - 4) by (unfold bp; lia). exact Qh.
  - replace (first_hdr s + total rpre + total mid - 4) with (bp + sz + nsz - 8)
      by (unfold bp, mid; simpl; lia). exact Qf.
  - intros c [H|[H|[]]]; subst c; unfold mid, bp; simpl; lia.
  - intros c szc [H|[H|[]]]; inversion H; subst; unfold bp; simpl; auto.
    left. lia.
  - fold hm in C3, L3, F3.
    assert (K : keeps s (insert_at_front
                           (PUT (PUT s1 hm (total mid)) (hm + total mid - 4) (total mid))
                           (hm + 4)) bs).
    { set (s3 := PUT (PUT s1 hm (total mid)) (hm + total mid - 4) (total mid)) in *.
      assert (Fh : first_hdr s3 = first_hdr s)
        by (unfold first_hdr, s3; autorewrite with fld; congruence).
      match type of L3 with
      | heap_list _ _ ?f _ => pose proof (insert_pending s3 rpre po (total mid) f) as IP
      end.
      cbv zeta in IP. rewrite Fh in IP. fold hm in IP.
      destruct (IP C3 L3) as (_ & _ & F4).
      apply (keeps_stretch s s3 _ rpre mid po); auto.
      - apply (core_geom _ _ C3).
      - intros q szq Hq. simpl in Hq.
        repeat (destruct Hq as [Hq|Hq]; [discriminate Hq|]). exact Hq. }
    replace (total mid) with (sz + nsz) in * by (unfold mid; simpl; lia).
    split; [unfold bp, hm; lia|].
    set (s3 := PUT (PUT s1 hm (sz + nsz)) (hm + (sz + nsz) - 4) (sz + nsz)) in *.
    assert (Fh : first_hdr s3 = first_hdr s) by (unfold first_hdr, s3; autorewrite with fld; congruence).
    pose proof (insert_pending s3 rpre po (sz + nsz) (remove Z.eq_dec (bp + sz) fl)) as IP.
    cbv zeta in IP. rewrite Fh in IP. fold hm in IP. fold bp in IP.
    replace (hm + 4) with bp by (unfold bp, hm; lia).
    destruct (IP C3 L3) as (C4 & L4 & _).
    split; [exact C4|]. split; [exact L4|exact K].
Qed.

Lemma zip_shift {A : Type} (p : A) (rp l : list A) : rev (p :: rp) ++ l = rev rp ++ p :: l.
Proof. simpl. rewrite <- app_assoc. reflexivity. Qed.

Lemma geom_same (s s' : state) (bs : list (Z * bool)) :
  heap_lo s' = heap_lo s -> heap_brk s' = heap_brk s -> heap_max s' = heap_max s ->
  geom s bs -> geom s' bs.
Proof. intros E1 E2 E3 G. unfold geom in *. rewrite E1, E2, E3. exact G. Qed.

(** Previous block free, next block allocated. *)
Lemma coalesce_FA (s : state) (rp post : list (Z * bool)) (psz sz : Z) (fl : list Z) :
  let bs := rev ((psz, false) :: rp) ++ (sz, false) :: post in
  let bp := first_hdr s + total ((psz, false) :: rp) + 4 in
  let pb := first_hdr s + total rp + 4 in
  let bs' := rev rp ++ (psz + sz, false) :: post in
  heap_core s bs -> heap_list s bs fl [bp] -> hd_alloc post = true ->
  fst (coalesce s bp) = pb
  /\ heap_core (snd (coalesce s bp)) bs'
  /\ heap_list (snd (coalesce s bp)) bs' (pb :: remove Z.eq_dec pb fl) []
  /\ keeps s (snd (coalesce s bp)) bs.
Proof.
  intros bs bp pb bs' C L Hna.
  pose proof (core_geom _ _ C) as G.
  destruct (coalesce_reads s ((psz, false) :: rp) post sz bp C eq_refl)
    as (Hh & Hs & Hn & Hpv & Hp & Hnx).
  assert (Hin : In (bp, sz, false) (layout (first_hdr s) bs)) by apply layout_mid.
  assert (Hpb : In (pb, psz, false) (layout (first_hdr s) bs)) by apply nb_prev.
  pose proof (geom_block _ _ _ _ _ G Hin) as B.
  pose proof (geom_block _ _ _ _ _ G Hpb) as Bp.
  destruct (core_tags _ _ C _ _ _ Hpb) as [P1 P2].
  assert (Ebp : bp = pb + psz) by (unfold bp, pb; simpl; lia).
  assert (Hps : GET_SIZE s (pb - 4) = psz).
  { apply (GET_SIZE_tag s _ psz false); [exact P1|lia]. }
  assert (M : (sz + psz) mod 8 = 0) by (apply mod8_add; lia).
  simpl firstn in Hpv. simpl total in Hpv.
  replace (bp - (psz + 0)) with pb in Hpv by lia.
  set (hm := first_hdr s + total rp).
  set (mid := [(psz, false); (sz, false)]).
  set (s1 := remove_block s pb).
  assert (E : coalesce s bp
              = (pb, insert_at_front
                       (PUT (PUT s1 hm (total mid)) (hm + total mid - 4) (total mid))
                       (hm + 4))).
  { unfold coalesce. rewrite Hp, Hnx, Hna. cbn [hd_alloc andb negb].
    rewrite Hpv, Hh, Hs. rewrite (HDRP_eq pb) by lia. rewrite Hps.
    rewrite (w32_small (sz + psz)) by lia.
    rewrite FTRP_PUT by lia. rewrite PACK_bit by lia.
    fold s1. unfold mid, hm, pb. simpl total.
    apply pair_ext; [lia|]. apply insert_ext; [|lia].
    apply PUT_ext; [apply PUT_ext; [reflexivity|lia|lia]|lia|lia]. }
  rewrite E. cbn [fst snd].
  assert (Ebs : bs = rev rp ++ mid ++ post) by (unfold bs, mid; apply zip_shift).
  rewrite Ebs in *.
  assert (Hfl : In pb fl).
  { destruct (hl_complete _ _ _ _ L pb) as [H|[H|[]]]; [exists psz; exact Hpb|exact H|].
    lia. }
  destruct (remove_block_heap s _ fl [bp] pb G L Hfl)
    as (L1 & F1 & E1 & E2 & E3 & E4).
  fold s1 in L1, F1, E1, E2, E3, E4.
  destruct (quiet_tag _ _ _ _ _ G Hpb) as [Qh _].
  destruct (quiet_tag _ _ _ _ _ G Hin) as [_ Qf].
  destruct (merge_stretch s s1 rp mid post (remove Z.eq_dec pb fl) [pb; bp])
    as (C3 & L3 & F3); auto.
  - discriminate.
  - replace (first_hdr s + total rp) with (pb - 4) by (unfold pb; lia). exact Qh.
  - replace (first_hdr s + total rp + total mid - 4) with (bp + sz - 8)
      by (unfold mid; simpl; lia). exact Qf.
  - intros c [H|[H|[]]]; subst c; unfold mid; simpl; lia.
  - intros c szc [H|[H|[]]]; inversion H; subst; simpl; auto.
    right. left. lia.
  - fold hm in C3, L3, F3.
    assert (K : keeps s (insert_at_front
                           (PUT (PUT s1 hm (total mid)) (hm + total mid - 4) (total mid))
                           (hm + 4)) (rev rp ++ mid ++ post)).
    { set (s3 := PUT (PUT s1 hm (total mid)) (hm + total mid - 4) (total mid)) in *.
      assert (Fh : first_hdr s3 = first_hdr s)
        by (unfold first_hdr, s3; autorewrite with fld; congruence).
      match type of L3 with
      | heap_list _ _ ?f _ => pose proof (insert_pending s3 rp post (total mid) f) as IP
      end.
      cbv zeta in IP. rewrite Fh in IP. fold hm in IP.
      destruct (IP C3 L3) as (_ & _ & F4).
      apply (keeps_stretch s s3 _ rp mid post); auto.
      - apply (core_geom _ _ C3).
      - intros q szq Hq. simpl in Hq.
        repeat (destruct Hq as [Hq|Hq]; [discriminate Hq|]). exact Hq. }
    replace (total mid) with (psz + sz) in * by (unfold mid; simpl; lia).
    split; [unfold pb, hm; lia|].
    set (s3 := PUT (PUT s1 hm (psz + sz)) (hm + (psz + sz) - 4) (psz + sz)) in *.
    assert (Fh : first_hdr s3 = first_hdr s) by (unfold first_hdr, s3; autorewrite with fld; congruence).
    pose proof (insert_pending s3 rp post (psz + sz) (remove Z.eq_dec pb fl)) as IP.
    cbv zeta in IP. rewrite Fh in IP. fold hm in IP.
    replace (hm + 4) with pb in * by (unfold pb, hm; lia).
    destruct (IP C3 L3) as (C4 & L4 & _).
    split; [exact C4|]. split; [exact L4|exact K].
Qed.

(** Both neighbours free. *)
Lemma coalesce_FF (s : state) (rp po : list (Z * bool)) (psz sz nsz : Z) (fl : list Z) :
  let bs := rev ((psz, false) :: rp) ++ (sz, false) :: (nsz, false) :: po in
  let bp := first_hdr s + total ((psz, false) :: rp) + 4 in
  let pb := first_hdr s + total rp + 4 in
  let bs' := rev rp ++ (psz + sz + nsz, false) :: po in
  heap_core s bs -> heap_list s bs fl [bp] ->
  fst (coalesce s bp) = pb
  /\ heap_core (snd (coalesce s bp)) bs'
  /\ heap_list (snd (coalesce s bp)) bs'
       (pb :: remove Z.eq_dec (bp + sz) (remove Z.eq_dec pb fl)) []
  /\ keeps s (snd (coalesce s bp)) bs.
Proof.
  intros bs bp pb bs' C L.
  pose proof (core_geom _ _ C) as G.
  destruct (coalesce_reads s ((psz, false) :: rp) ((nsz, false) :: po) sz bp C eq_refl)
    as (Hh & Hs & Hn & Hpv & Hp & Hnx).
  assert (Hin : In (bp, sz, false) (layout (first_hdr s) bs)) by apply layout_mid.
  assert (Hpb : In (pb, psz, false) (layout (first_hdr s) bs)) by apply nb_prev.
  assert (Hnb : In (bp + sz, nsz, false) (layout (first_hdr s) bs)).
  { replace (bp + sz) with (first_hdr s + total ((psz, false) :: rp) + sz + 4)
      by (unfold bp; lia).
    apply nb_next. }
  pose proof (geom_block _ _ _ _ _ G Hin) as B.
  pose proof (geom_block _ _ _ _ _ G Hpb) as Bp.
  pose proof (geom_block _ _ _ _ _ G Hnb) as Bn.
  destruct (core_tags _ _ C _ _ _ Hpb) as [P1 P2].
  destruct (core_tags _ _ C _ _ _ Hnb) as [N1 N2].
  destruct (core_tags _ _ C _ _ _ Hin) as [T1 T2].
  assert (Ebp : bp = pb + psz) by (unfold bp, pb; simpl; lia).
  assert (Hps : GET_SIZE s (pb - 4) = psz).
  { apply (GET_SIZE_tag s _ psz false); [exact P1|lia]. }
  assert (Hns : GET_SIZE s (bp + sz - 4) = nsz).
  { apply (GET_SIZE_tag s _ nsz false); [exact N1|lia]. }
  assert (M1 : (psz + nsz) mod 8 = 0) by (apply mod8_add; lia).
  assert (M : (sz + (psz + nsz)) mod 8 = 0) by (apply mod8_add; lia).
  simpl firstn in Hpv. simpl total in Hpv.
  replace (bp - (psz + 0)) with pb in Hpv by lia.
  set (hm := first_hdr s + total rp).
  set (mid := [(psz, false); (sz, false); (nsz, false)]).
  set (s1 := remove_block s pb).
  set (s2 := remove_block s1 (bp + sz)).
  assert (Ebs : bs = rev rp ++ mid ++ po) by (unfold bs, mid; apply zip_shift).
  assert (Hfl : In pb fl).
  { destruct (hl_complete _ _ _ _ L pb) as [H|[H|[]]]; [exists psz; exact Hpb|exact H|].
    lia. }
  destruct (remove_block_heap s _ fl [bp] pb G L Hfl)
    as (L1 & F1 & E1 & E2 & E3 & E4).
  fold s1 in L1, F1, E1, E2, E3, E4.
  assert (G1 : geom s1 bs) by (apply (geom_same s); assumption).
  assert (Hfl1 : In (bp + sz) (remove Z.eq_dec pb fl)).
  { apply in_in_remove; [lia|].
    destruct (hl_complete _ _ _ _ L (bp + sz)) as [H|[H|[]]];
      [exists nsz; exact Hnb|exact H|lia]. }
  destruct (remove_block_heap s1 _ _ _ (bp + sz) G1 L1 Hfl1)
    as (L2 & F2 & E1' & E2' & E3' & E4').
  fold s2 in L2, F2, E1', E2', E3', E4'.
  assert (F : forall x, quiet s bs x -> GET s2 x = GET s x).
  { intros x Q. rewrite F2, F1; auto. apply (quiet_same s); assumption. }
  destruct (quiet_tag _ _ _ _ _ G Hpb) as [Qh Qpf].
  destruct (quiet_tag _ _ _ _ _ G Hnb) as [_ Qf].
  destruct (quiet_tag _ _ _ _ _ G Hin) as [Qbh _].
  assert (E : coalesce s bp
              = (pb, insert_at_front
                       (PUT (PUT s2 hm (total mid)) (hm + total mid - 4) (total mid))
                       (hm + 4))).
  { unfold coalesce. rewrite Hp, Hnx. cbn [hd_alloc andb negb].
    rewrite Hpv, Hn, Hh, Hs. rewrite (HDRP_eq pb) by lia. rewrite Hps.
    rewrite (HDRP_eq (bp + sz)) by lia. rewrite Hns.
    rewrite (w32_small (psz + nsz)) by lia.
    rewrite (w32_small (sz + (psz + nsz))) by lia.
    fold s1.
    assert (Hn1 : NEXT_BLKP s1 bp = bp + sz).
    { apply NEXT_BLKP_eq; try lia. unfold GET_SIZE. rewrite F1 by exact Qbh.
      exact Hs. }
    rewrite Hn1. fold s2.
    assert (Hp2 : PREV_BLKP s2 bp = pb).
    { rewrite (PREV_BLKP_eq s2 bp psz); [lia|lia| |lia].
      unfold GET_SIZE. rewrite F.
      - apply (GET_SIZE_tag s _ psz false); [|lia].
        replace (bp - 8) with (pb + psz - 8) by lia. exact P2.
      - replace (bp - 8) with (pb + psz - 8) by lia. exact Qpf. }
    rewrite Hp2. rewrite (HDRP_eq pb) by lia.
    rewrite FTRP_PUT by lia. rewrite PACK_bit by lia.
    unfold mid, hm, pb. simpl total.
    apply pair_ext; [lia|]. apply insert_ext; [|lia].
    apply PUT_ext; [apply PUT_ext; [reflexivity|lia|lia]|lia|lia]. }
  rewrite E. cbn [fst snd].
  rewrite Ebs in *.
  destruct (merge_stretch s s2 rp mid po
              (remove Z.eq_dec (bp + sz) (remove Z.eq_dec pb fl)) [bp + sz; pb; bp])
    as (C3 & L3 & F3); auto; try congruence.
  - discriminate.
  - replace (first_hdr s + total rp) with (pb - 4) by (unfold pb; lia). exact Qh.
  - replace (first_hdr s + total rp + total mid - 4) with (bp + sz + nsz - 8)
      by (unfold mid; simpl; lia). exact Qf.
  - intros c [H|[H|[H|[]]]]; subst c; unfold mid; simpl; lia.
  - intros c szc [H|[H|[H|[]]]]; inversion H; subst; simpl.
    + right. left. lia.
    + right. right. left. lia.
    + left. lia.
  - fold hm in C3, L3, F3.
    assert (K : keeps s (insert_at_front
                           (PUT (PUT s2 hm (total mid)) (hm + total mid - 4) (total mid))
                           (hm + 4)) (rev rp ++ mid ++ po)).
    { set (s3 := PUT (PUT s2 hm (total mid)) (hm + total mid - 4) (total mid)) in *.
      assert (Fh : first_hdr s3 = first_hdr s)
        by (unfold first_hdr, s3; autorewrite with fld; congruence).
      match type of L3 with
      | heap_list _ _ ?f _ => pose proof (insert_pending s3 rp po (total mid) f) as IP
      end.
      cbv zeta in IP. rewrite Fh in IP. fold hm in IP.
      destruct (IP C3 L3) as (_ & _ & F4).
      apply (keeps_stretch s s3 _ rp mid po); auto.
      - apply (core_geom _ _ C3).
      - intros q szq Hq. simpl in Hq.
        repeat (destruct Hq as [Hq|Hq]; [discriminate Hq|]). exact Hq. }
    replace (total mid) with (psz + sz + nsz) in * by (unfold mid; simpl; lia).
    split; [unfold pb, hm; lia|].
    set (s3 := PUT (PUT s2 hm (psz + sz + nsz)) (hm + (psz + sz + nsz) - 4)
                   (psz + sz + nsz)) in *.
    assert (Fh : first_hdr s3 = first_hdr s) by (unfold first_hdr, s3; autorewrite with fld; congruence).
    pose proof (insert_pending s3 rp po (psz + sz + nsz)
                  (remove Z.eq_dec (bp + sz) (remove Z.eq_dec pb fl))) as IP.
    cbv zeta in IP. rewrite Fh in IP. fold hm in IP.
    replace (hm + 4) with pb in * by (unfold pb, hm; lia).
    destruct (IP C3 L3) as (C4 & L4 & _).
    split; [exact C4|]. split; [exact L4|exact K].
Qed.

Lemma sf_refl (s : state) : same_frame s s.
Proof. unfold same_frame. auto. Qed.

Lemma sf_trans (s1 s2 s3 : state) : same_frame s1 s2 -> same_frame s2 s3 -> same_frame s1 s3.
Proof. unfold same_frame. intros (A & B & C & D) (A' & B' & C' & D'). repeat split; congruence. Qed.

Lemma sf_PUT (s : state) (a v : Z) : same_frame s (PUT s a v).
Proof. unfold same_frame. auto. Qed.

Lemma sf_insert (s : state) (b : Z) : same_frame s (insert_at_front s b).
Proof. unfold same_frame. auto. Qed.

Lemma sf_remove (s : state) (b : Z) : same_frame s (remove_block s b).
Proof. unfold same_frame. apply fields_remove_block. Qed.

Lemma sf_coalesce (s : state) (bp : Z) : same_frame s (snd (coalesce s bp)).
Proof.
  unfold coalesce. cbv zeta.
  repeat match goal with
         | |- context [if ?c then _ else _] => destruct c
         end;
    cbn [snd];
    repeat first [ apply sf_refl
                 | eapply sf_trans; [|apply sf_insert]
                 | eapply sf_trans; [|apply sf_PUT]
                 | eapply sf_trans; [|apply sf_remove] ].
Qed.

Lemma coalesce_AA (s : state) (rpre post : list (Z * bool)) (sz : Z) (fl : list Z) :
  let bs := rev rpre ++ (sz, false) :: post in
  let bp := first_hdr s + total rpre + 4 in
  heap_core s bs -> heap_list s bs fl [bp] ->
  hd_alloc rpre = true -> hd_alloc post = true ->
  fst (coalesce s bp) = bp
  /\ heap_core (snd (coalesce s bp)) bs
  /\ heap_list (snd (coalesce s bp)) bs (bp :: fl) []
  /\ keeps s (snd (coalesce s bp)) bs.
Proof.
  intros bs bp C L H1 H2.
  destruct (coalesce_reads s rpre post sz bp C eq_refl)
    as (Hh & Hs & Hn & Hpv & Hp & Hnx).
  assert (E : coalesce s bp = (bp, insert_at_front s bp)).
  { unfold coalesce. rewrite Hp, Hnx, H1, H2. reflexivity. }
  rewrite E. cbn [fst snd]. split; [reflexivity|].
  destruct (insert_pending s rpre post sz fl C L) as (C' & L' & F').
  split; [exact C'|]. split; [exact L'|].
  apply keeps_quiet; [apply core_geom; exact C|exact F'].
Qed.

(** The coalescer on a well-formed heap with one pending free block. *)
Lemma coalesce_spec (s : state) (rpre post : list (Z * bool)) (sz : Z) (fl : list Z) :
  let bs := rev rpre ++ (sz, false) :: post in
  let bp := first_hdr s + total rpre + 4 in
  heap_core s bs -> heap_list s bs fl [bp] ->
  fst (coalesce s bp) = merged_bp (first_hdr s) rpre sz post
  /\ heap_core (snd (coalesce s bp)) (merged_row rpre sz post)
  /\ heap_list (snd (coalesce s bp)) (merged_row rpre sz post)
       (merged_bp (first_hdr s) rpre sz post
          :: remove_all (unlinked (first_hdr s) rpre sz post) fl) []
  /\ keeps s (snd (coalesce s bp)) bs.
Proof.
  intros bs bp C L.
  destruct rpre as [|[psz [|]] rp]; destruct post as [|[nsz [|]] po];
    unfold merged_bp, merged_row, unlinked, remove_all; cbn [merged app fold_left];
    try (apply coalesce_AA; auto; fail).
  - replace (first_hdr s + total [] + sz + 4)
      with (first_hdr s + total [] + 4 + sz) by lia.
    apply (coalesce_AF s [] po sz nsz fl C L eq_refl).
  - replace (first_hdr s + total ((psz, true) :: rp) + sz + 4)
      with (first_hdr s + total ((psz, true) :: rp) + 4 + sz) by lia.
    apply (coalesce_AF s ((psz, true) :: rp) po sz nsz fl C L eq_refl).
  - replace (first_hdr s + total ((psz, false) :: rp) - psz + 4)
      with (first_hdr s + total rp + 4) by (simpl; lia).
    apply (coalesce_FA s rp [] psz sz fl C L eq_refl).
  - replace (first_hdr s + total ((psz, false) :: rp) - psz + 4)
      with (first_hdr s + total rp + 4) by (simpl; lia).
    apply (coalesce_FA s rp ((nsz, true) :: po) psz sz fl C L eq_refl).
  - replace (first_hdr s + total ((psz, false) :: rp) - psz + 4)
      with (first_hdr s + total rp + 4) by (simpl; lia).
    replace (first_hdr s + total ((psz, false) :: rp) + sz + 4)
      with (first_hdr s + total ((psz, false) :: rp) + 4 + sz) by lia.
    apply (coalesce_FF s rp po psz sz nsz fl C L).
Qed.

(** Coalescing restores the absence of free neighbours. *)
Lemma noadj_merged (rpre post : list (Z * bool)) (sz : Z) :
  noadj (rev rpre ++ (sz, true) :: post) -> noadj (merged_row rpre sz post).
Proof.
  intros H. apply noadj_zip in H. destruct H as (H1 & H2 & _).
  cbn [noadj] in H2. destruct H2 as [_ H2].
  assert (P : forall psz rp, rpre = (psz, false) :: rp ->
                             noadj (rev rp) /\ hd_alloc rp = true).
  { intros psz rp E. subst rpre. apply noadj_rev_cons in H1.
    destruct H1 as [A [B|B]]; [auto|discriminate]. }
  assert (N : forall nsz po, post = (nsz, false) :: po ->
                             noadj po /\ hd_alloc po = true).
  { intros nsz po E. subst post. cbn [noadj] in H2.
    destruct H2 as [[B|B] A]; [discriminate|auto]. }
  unfold merged_row.
  destruct rpre as [|[psz [|]] rp]; destruct post as [|[nsz [|]] po];
    cbn [merged]; apply noadj_zip; cbn [noadj hd_alloc];
    try (destruct (P _ _ eq_refl) as [P1 P2]);
    try (destruct (N _ _ eq_refl) as [N1 N2]);
    cbn [noadj hd_alloc] in *; tauto.
Qed.

Lemma total_merged (rpre post : list (Z * bool)) (sz : Z) :
  total (merged_row rpre sz post) = total rpre + sz + total post.
Proof.
  unfold merged_row.
  destruct rpre as [|[psz [|]] rp]; destruct post as [|[nsz [|]] po];
    cbn [merged]; rewrite total_app, total_rev; simpl; lia.
Qed.

(** ** Allocated blocks survive coalescing *)

Lemma layout_cons_in (h sz : Z) (al : bool) (r : list (Z * bool)) (x : Z * Z * bool) :
  In x (layout h ((sz, al) :: r)) <-> x = (h + 4, sz, al) \/ In x (layout (h + sz) r).
Proof.
  cbn [layout In]. split; (intros [E|E]; [left; symmetry; exact E|right; exact E]).
Qed.

Lemma alloc_zip (h : Z) (rpre post : list (Z * bool)) (sz : Z) (al : bool) (q szq : Z) :
  In (q, szq, true) (layout h (rev rpre ++ (sz, al) :: post)) <->
  In (q, szq, true) (layout h (rev rpre))
  \/ (q = h + total rpre + 4 /\ szq = sz /\ al = true)
  \/ In (q, szq, true) (layout (h + total rpre + sz) post).
Proof.
  change ((sz, al) :: post) with ([(sz, al)] ++ post).
  rewrite layout_zip. cbn [layout In total].
  replace (h + total rpre + (sz + 0)) with (h + total rpre + sz) by lia.
  split.
  - intros [H|[[H|[]]|H]]; auto. inversion H; subst. auto.
  - intros [H|[(A & B & C)|H]]; auto. subst. auto.
Qed.

Ltac solve_in :=
  first
    [ assumption
    | reflexivity
    | match goal with
      | H : In ?x (layout ?a ?l) |- In ?x (layout ?a' ?l) =>
          replace a' with a by (cbn [total]; lia); exact H
      end
    | match goal with
      | |- _ /\ _ => split; [first [reflexivity | cbn [total]; lia] | solve_in]
      end
    | match goal with
      | |- (_, _, _) = (_, _, _) => repeat apply pair_ext; first [reflexivity | cbn [total]; lia]
      end
    | left; solve_in
    | right; solve_in ].

Lemma alloc_merged (h : Z) (rpre post : list (Z * bool)) (sz : Z) (q szq : Z) :
  In (q, szq, true) (layout h (merged_row rpre sz post)) <->
  In (q, szq, true) (layout h (rev rpre))
  \/ In (q, szq, true) (layout (h + total rpre + sz) post).
Proof.
  unfold merged_row.
  destruct rpre as [|[psz [|]] rp]; destruct post as [|[nsz [|]] po];
    cbn [merged]; rewrite alloc_zip.
  all: repeat rewrite layout_rev_cons; repeat rewrite layout_cons_in;
    cbn [fst snd layout In].
  all: split; intros H; decompose [or and] H; clear H; try discriminate;
    try match goal with
        | E : (_, _, _) = (_, _, _) |- _ => inversion E; subst
        end;
    try contradiction; solve_in.
Qed.

(** ** Freeing a block *)

Lemma sf_first_hdr (s s' : state) : same_frame s s' -> first_hdr s' = first_hdr s.
Proof. intros (E & _). unfold first_hdr. rewrite E. reflexivity. Qed.

Lemma sf_sym (s s' : state) : same_frame s s' -> same_frame s' s.
Proof. unfold same_frame. intros (A & B & C & D). auto. Qed.

Lemma free_spec (s : state) (rpre post : list (Z * bool)) (sz : Z) (fl : list Z) :
  let bs := rev rpre ++ (sz, true) :: post in
  let bp := first_hdr s + total rpre + 4 in
  heap_core s bs -> heap_list s bs fl [] ->
  heap_core (mm_free s bp) (merged_row rpre sz post)
  /\ heap_list (mm_free s bp) (merged_row rpre sz post)
       (merged_bp (first_hdr s) rpre sz post
          :: remove_all (unlinked (first_hdr s) rpre sz post) fl) []
  /\ same_frame s (mm_free s bp)
  /\ keeps s (mm_free s bp) (rev rpre ++ (sz, false) :: post).
Proof.
  intros bs bp C L.
  pose proof (core_geom _ _ C) as G.
  assert (Hin : In (bp, sz, true) (layout (first_hdr s) bs)) by apply layout_mid.
  pose proof (geom_block _ _ _ _ _ G Hin) as B.
  destruct (core_tags _ _ C _ _ _ Hin) as [T1 T2].
  destruct (quiet_tag _ _ _ _ _ G Hin) as [Qh Qf].
  set (hm := first_hdr s + total rpre).
  set (mid := [(sz, true)]).
  set (s3 := PUT (PUT s hm (total mid)) (hm + total mid - 4) (total mid)).
  assert (E : mm_free s bp = snd (coalesce s3 bp)).
  { unfold mm_free. replace (bp =? 0) with false by (symmetry; apply Z.eqb_neq; lia).
    rewrite HDRP_eq by lia.
    rewrite (GET_SIZE_tag s (bp - 4) sz true T1) by lia.
    rewrite FTRP_PUT by lia. rewrite PACK_bit by lia.
    apply (f_equal (fun x => snd (coalesce x bp))).
    unfold s3, mid, hm, bp. simpl total.
    apply PUT_ext; [apply PUT_ext; [reflexivity|lia|lia]|lia|lia]. }
  rewrite E.
  destruct (merge_stretch s s rpre mid post fl []) as (C3 & L3 & F3); auto.
  - discriminate.
  - replace (first_hdr s + total rpre) with (bp - 4) by (unfold bp; lia). exact Qh.
  - replace (first_hdr s + total rpre + total mid - 4) with (bp + sz - 8)
      by (unfold bp, mid; simpl; lia). exact Qf.
  - intros c [].
  - intros c szc [H|[]]. discriminate H.
  - fold hm in C3, L3. fold s3 in C3, L3.
    replace (total mid) with sz in C3, L3 by (unfold mid; simpl; lia).
    assert (SF : same_frame s s3) by (unfold same_frame, s3; auto).
    pose proof (sf_first_hdr _ _ SF) as Fh.
    pose proof (coalesce_spec s3 rpre post sz fl) as CS. cbv zeta in CS.
    rewrite Fh in CS. fold hm in CS. fold bp in CS. fold hm in L3.
    destruct (CS C3 L3) as (_ & C' & L' & K').
    split; [exact C'|]. split; [exact L'|].
    split; [apply (sf_trans _ s3); [exact SF|apply sf_coalesce]|].
    apply (keeps_trans s s3 _ _ (rev rpre ++ (sz, false) :: post)); auto.
    apply (keeps_zip s s3 rpre mid [(sz, false)] post); auto.
    intros q szq [H|[]]. discriminate H.
Qed.

(** ** The finder *)

Lemma layout_size_unique (s : state) (bs : list (Z * bool)) (c s1 s2 : Z) (a1 a2 : bool) :
  geom s bs -> In (c, s1, a1) (layout (first_hdr s) bs) ->
  In (c, s2, a2) (layout (first_hdr s) bs) -> s1 = s2 /\ a1 = a2.
Proof.
  intros G H1 H2. pose proof G as (_ & _ & _ & _ & _ & G6).
  pose proof (geom_block _ _ _ _ _ G H1). pose proof (geom_block _ _ _ _ _ G H2).
  destruct (layout_sep _ _ _ _ _ _ _ _ G6 H1 H2) as [(A & B & C)|E]; [auto|lia].
Qed.

Lemma find_fit_from_spec (s : state) (bs : list (Z * bool)) (a : Z) :
  heap_core s bs ->
  forall (fl : list Z) (prev head : Z) (fuel : nat),
    flist s (prologue s) prev head fl ->
    (forall c, In c fl -> free_in s bs c) ->
    (length fl < fuel)%nat ->
    (find_fit_from fuel s a head = Some 0
     /\ forall c sz, In c fl -> In (c, sz, false) (layout (first_hdr s) bs) -> sz < a)
    \/ (exists l1 r l2 sz,
          fl = l1 ++ r :: l2 /\ find_fit_from fuel s a head = Some r
          /\ In (r, sz, false) (layout (first_hdr s) bs) /\ a <= sz
          /\ forall c szc, In c l1 -> In (c, szc, false) (layout (first_hdr s) bs) ->
                           szc < a).
Proof.
  intros C. pose proof (core_geom _ _ C) as G.
  induction fl as [|c fl IH]; intros prev head fuel H Hfree Hfuel.
  - left. simpl in H. subst head. split; [|intros c sz []].
    destruct fuel as [|fuel]; [simpl in Hfuel; lia|]. simpl.
    destruct G as (G1 & _ & G3 & G4 & G5 & G6).
    pose proof (total_nonneg _ G6).
    unfold prologue. rewrite HDRP_eq by lia.
    replace (heap_lo s + 8 - 4) with (heap_lo s + 4) by lia.
    unfold GET_ALLOC. rewrite (core_prologue _ _ C). reflexivity.
  - simpl in H. destruct H as (Eh & Hp & H). subst head.
    destruct fuel as [|fuel]; [simpl in Hfuel; lia|].
    destruct (Hfree c (or_introl eq_refl)) as [szc Hc].
    pose proof (geom_block _ _ _ _ _ G Hc) as B.
    destruct (core_tags _ _ C _ _ _ Hc) as [T1 T2].
    cbn [find_fit_from]. rewrite HDRP_eq by lia.
    rewrite (GET_ALLOC_tag s _ szc false T1) by lia.
    rewrite (GET_SIZE_tag s _ szc false T1) by lia.
    cbn [b2z Z.eqb].
    destruct (a <=? szc) eqn:Ea.
    + right. exists [], c, fl, szc. apply Z.leb_le in Ea.
      repeat split; auto. intros c0 sz0 [].
    + apply Z.leb_gt in Ea.
      rewrite NEXT_FREEP_eq by lia.
      destruct (IH c (GET s (c + 8)) fuel H) as [[F1 F2]|(l1 & r & l2 & sz & E1 & E2 & E3 & E4 & E5)].
      * intros c0 Hc0. apply Hfree. right. exact Hc0.
      * simpl in Hfuel. lia.
      * left. split; [exact F1|].
        intros c0 sz0 [Hc0|Hc0] Hin0.
        -- subst c0. destruct (layout_size_unique _ _ _ _ _ _ _ G Hc Hin0). lia.
        -- apply (F2 c0 sz0 Hc0 Hin0).
      * right. exists (c :: l1), r, l2, sz. rewrite E1.
        repeat split; auto.
        intros c0 sz0 [Hc0|Hc0] Hin0.
        -- subst c0. destruct (layout_size_unique _ _ _ _ _ _ _ G Hc Hin0). lia.
        -- apply (E5 c0 sz0 Hc0 Hin0).
Qed.

(** ** The placer *)

Lemma heap_list_reghost2 (s : state) (rpre mid mid' post : list (Z * bool))
      (fl pend pend' : list Z) :
  heap_list s (rev rpre ++ mid ++ post) fl pend ->
  sized (rev rpre ++ mid ++ post) -> sized mid' -> total mid' = total mid ->
  (forall c, In c pend ->
     first_hdr s + total rpre + 4 <= c < first_hdr s + total rpre + total mid + 4) ->
  (forall c sz, In (c, sz, false) (layout (first_hdr s + total rpre) mid) -> In c pend) ->
  (forall c sz, In (c, sz, false) (layout (first_hdr s + total rpre) mid') -> In c pend') ->
  (forall c, In c pend' ->
     first_hdr s + total rpre + 4 <= c < first_hdr s + total rpre + total mid + 4) ->
  heap_list s (rev rpre ++ mid' ++ post) fl pend'.
Proof.
  intros L S Sm' Et Hpend Hmid Hmid' Hpend'.
  apply (heap_list_reghost s rpre mid mid' post fl pend pend'); auto.
  pose proof S as S0.
  apply sized_app in S. destruct S as [S1 S23]. apply sized_app in S23.
  destruct S23 as [S2 S3].
  intros c Hc. destruct (hl_sound _ _ _ _ L c Hc) as [[szc Hin] Np].
  apply layout_zip in Hin. destruct Hin as [Hin|[Hin|Hin]].
  - pose proof (layout_bounds _ _ _ _ _ S1 Hin) as B. rewrite total_rev in B. lia.
  - exfalso. apply Np. apply (Hmid c szc Hin).
  - pose proof (layout_bounds _ _ _ _ _ S3 Hin) as B. lia.
Qed.

Lemma heap_list_In (s : state) (bs : list (Z * bool)) (fl : list Z) (b sz : Z) :
  heap_list s bs fl [] -> In (b, sz, false) (layout (first_hdr s) bs) -> In b fl.
Proof.
  intros L Hin. destruct (hl_complete _ _ _ _ L b) as [H|[]]; [exists sz; exact Hin|exact H].
Qed.

(** The placer takes the whole block when the rest would be too small. *)
Lemma place_whole (s : state) (rpre post : list (Z * bool)) (t a : Z) (fl : list Z) :
  let bs := rev rpre ++ (t, false) :: post in
  let bp := first_hdr s + total rpre + 4 in
  let bs' := rev rpre ++ (t, true) :: post in
  heap_core s bs -> heap_list s bs fl [] -> a <= t -> t - a < 24 ->
  heap_core (place s bp a) bs'
  /\ heap_list (place s bp a) bs' (remove Z.eq_dec bp fl) []
  /\ same_frame s (place s bp a)
  /\ keeps s (place s bp a) bs.
Proof.
  intros bs bp bs' C L Ha Hr.
  pose proof (core_geom _ _ C) as G.
  assert (Hin : In (bp, t, false) (layout (first_hdr s) bs)) by apply layout_mid.
  pose proof (geom_block _ _ _ _ _ G Hin) as B.
  destruct (core_tags _ _ C _ _ _ Hin) as [T1 T2].
  destruct (quiet_tag _ _ _ _ _ G Hin) as [Qh Qf].
  pose proof (heap_list_In _ _ _ _ _ L Hin) as Hfl.
  set (s1 := PUT s (bp - 4) (t + 1)).
  set (s2 := PUT s1 (bp + t - 8) (t + 1)).
  assert (E : place s bp a = remove_block s2 bp).
  { unfold place. rewrite HDRP_eq by lia.
    rewrite (GET_SIZE_tag s (bp - 4) t false T1) by lia.
    rewrite (w32_small (t - a)) by lia.
    replace (t - a >=? OVERHEAD) with false
      by (symmetry; unfold OVERHEAD; rewrite Z.geb_leb; apply Z.leb_gt; lia).
    rewrite FTRP_PUT by lia. rewrite PACK_bit by lia. reflexivity. }
  rewrite E.
  assert (L2 : heap_list s2 bs fl []).
  { unfold s2, s1. apply heap_list_PUT; [apply heap_list_PUT; assumption|].
    apply (quiet_same s); [reflexivity|exact Qf]. }
  assert (G2 : geom s2 bs) by exact G.
  destruct (remove_block_heap s2 bs fl [] bp G2 L2 Hfl) as (L3 & F3 & E1 & E2 & E3 & E4).
  set (s3 := remove_block s2 bp) in *.
  assert (SF : same_frame s s3) by (unfold same_frame; auto).
  split; [|split; [|split; [exact SF|]]].
  3: { apply (keeps_zip s s3 rpre [(t, false)] [(t, false)] post); auto.
       - intros x Q Hx. cbn [total] in Hx. fold bp in Hx. rewrite F3 by exact Q.
         unfold s2, s1. rewrite !GET_PUT_other by (unfold bp in *; lia). reflexivity.
       - intros q szq [H|[]]. discriminate H. }
  - change bs' with (rev rpre ++ [(t, true)] ++ post).
    apply (rebuild_same s s3 rpre [(t, false)] [(t, true)] post); auto.
    + apply sized_cons. split; [lia|apply sized_nil].
    + intros x Q Hx. cbn [total] in Hx. fold bp in Hx. rewrite F3 by exact Q.
      unfold s2, s1. rewrite !GET_PUT_other by (unfold bp in *; lia). reflexivity.
    + intros b0 sz0 al0 [H|[]]. inversion H; subst. fold bp.
      unfold blk_ok. rewrite !F3 by assumption. unfold s2, s1. cbn [b2z].
      split.
      * rewrite GET_PUT_other by lia. rewrite GET_PUT_eq by lia. apply w32_small. lia.
      * rewrite GET_PUT_eq by lia. apply w32_small. lia.
  - change bs' with (rev rpre ++ [(t, true)] ++ post).
    pose proof (sf_first_hdr _ _ SF) as Fh.
    apply (heap_list_reghost2 s3 rpre [(t, false)] [(t, true)] post _ [bp] []);
      try rewrite Fh; auto.
    + destruct G as (_ & _ & _ & _ & _ & G6). exact G6.
    + apply sized_cons. split; [lia|apply sized_nil].
    + intros c [H|[]]. subst c. cbn [total]. unfold bp. lia.
    + intros c szc [H|[]]. inversion H; subst. left. reflexivity.
    + intros c szc [H|[]]. discriminate H.
    + intros c [].
Qed.

(** The placer splits when the rest is a legal block. *)
Lemma place_split (s : state) (rpre post : list (Z * bool)) (t a : Z) (fl : list Z) :
  let bs := rev rpre ++ (t, false) :: post in
  let bp := first_hdr s + total rpre + 4 in
  let bs' := merged_row ((a, true) :: rpre) (t - a) post in
  heap_core s bs -> heap_list s bs fl [] -> 24 <= a -> a mod 8 = 0 -> 24 <= t - a ->
  heap_core (place s bp a) bs'
  /\ heap_list (place s bp a) bs'
       (merged_bp (first_hdr s) ((a, true) :: rpre) (t - a) post
          :: remove_all (unlinked (first_hdr s) ((a, true) :: rpre) (t - a) post)
               (remove Z.eq_dec bp fl)) []
  /\ same_frame s (place s bp a)
  /\ keeps s (place s bp a) bs.
Proof.
  intros bs bp bs' C L Ha Ma Hr.
  pose proof (core_geom _ _ C) as G.
  assert (Hin : In (bp, t, false) (layout (first_hdr s) bs)) by apply layout_mid.
  pose proof (geom_block _ _ _ _ _ G Hin) as B.
  destruct (core_tags _ _ C _ _ _ Hin) as [T1 T2].
  destruct (quiet_tag _ _ _ _ _ G Hin) as [Qh Qf].
  assert (Q1 : quiet s bs (bp + a - 8)).
  { apply (quiet_inside s bs bp t false); auto; lia. }
  assert (Q2 : quiet s bs (bp + a - 4)).
  { apply (quiet_inside s bs bp t false); auto; lia. }
  pose proof (heap_list_In _ _ _ _ _ L Hin) as Hfl.
  assert (Mr : (t - a) mod 8 = 0).
  { replace (t - a) with (t + (-1) * a) by lia.
    rewrite Z.add_mod, Z.mul_mod, Ma by lia.
    destruct B as (_ & Mt & _). rewrite Mt. reflexivity. }
  set (s1 := PUT s (bp - 4) (a + 1)).
  set (s2 := PUT s1 (bp + a - 8) (a + 1)).
  assert (L2 : heap_list s2 bs fl []).
  { unfold s2, s1. apply heap_list_PUT; [apply heap_list_PUT; assumption|].
    apply (quiet_same s); [reflexivity|exact Q1]. }
  assert (G2 : geom s2 bs) by exact G.
  destruct (remove_block_heap s2 bs fl [] bp G2 L2 Hfl) as (L3 & F3 & E1 & E2 & E3 & E4).
  set (s3 := remove_block s2 bp) in *.
  set (s4 := PUT s3 (bp + a - 4) (t - a)).
  set (s5 := PUT s4 (bp + t - 8) (t - a)).
  assert (SF3 : same_frame s s3) by (unfold same_frame; auto).
  assert (SF : same_frame s s5) by (unfold same_frame, s5, s4; autorewrite with fld; auto).
  pose proof (sf_first_hdr _ _ SF) as Fh.
  assert (H3 : GET s3 (bp - 4) = a + 1).
  { rewrite F3 by exact Qh. unfold s2, s1.
    rewrite GET_PUT_other by lia. rewrite GET_PUT_eq by lia. apply w32_small. lia. }
  assert (E : place s bp a = snd (coalesce s5 (bp + a))).
  { unfold place. rewrite HDRP_eq by lia.
    rewrite (GET_SIZE_tag s (bp - 4) t false T1) by lia.
    rewrite (w32_small (t - a)) by lia.
    replace (t - a >=? OVERHEAD) with true
      by (symmetry; unfold OVERHEAD; rewrite Z.geb_leb; apply Z.leb_le; lia).
    rewrite FTRP_PUT by lia. rewrite !PACK_bit by lia.
    fold s1. fold s2. fold s3.
    rewrite (NEXT_BLKP_eq s3 bp a); [|lia| |lia|lia].
    2:{ apply (GET_SIZE_tag s3 _ a true); [exact H3|exact Ma]. }
    rewrite (HDRP_eq (bp + a)) by lia.
    assert (EF : FTRP (PUT s3 (bp + a - 4) (t - a + 0)) (bp + a) = bp + t - 8).
    { rewrite <- (PACK_bit (t - a) 0) by lia.
      rewrite FTRP_PUT by lia. lia. }
    rewrite EF.
    apply (f_equal (fun x => snd (coalesce x (bp + a)))).
    unfold s5, s4.
    apply PUT_ext; [apply PUT_ext; [reflexivity|lia|lia]|lia|lia]. }
  rewrite E.
  set (mid' := [(a, true); (t - a, false)]).
  assert (Sm' : sized mid').
  { apply sized_cons. split; [lia|]. apply sized_cons. split; [lia|apply sized_nil]. }
  assert (C5 : heap_core s5 (rev rpre ++ mid' ++ post)).
  { apply (rebuild_same s s5 rpre [(t, false)] mid' post); try apply SF; auto.
    - unfold mid'. simpl. lia.
    - intros x Q Hx. cbn [total] in Hx. fold bp in Hx. unfold s5, s4.
      rewrite !GET_PUT_other by (unfold bp in *; lia).
      rewrite F3 by exact Q. unfold s2, s1.
      rewrite !GET_PUT_other by (unfold bp in *; lia). reflexivity.
    - fold bp. intros b0 sz0 al0 [H|[H|[]]]; inversion H; subst; unfold blk_ok; cbn [b2z].
      + replace (first_hdr s + total rpre + 4) with bp by reflexivity.
        split.
        * unfold s5, s4. rewrite !GET_PUT_other by lia. exact H3.
        * unfold s5, s4. rewrite !GET_PUT_other by lia.
          rewrite F3 by exact Q1. unfold s2. rewrite GET_PUT_eq by lia.
          apply w32_small. lia.
      + replace (first_hdr s + total rpre + a + 4) with (bp + a) by (unfold bp; lia).
        split.
        * unfold s5, s4. rewrite GET_PUT_other by lia. rewrite GET_PUT_eq by lia.
          rewrite w32_small by lia. lia.
        * unfold s5. rewrite GET_PUT_eq by lia. rewrite w32_small by lia. lia. }
  assert (L5 : heap_list s5 (rev rpre ++ mid' ++ post) (remove Z.eq_dec bp fl) [bp + a]).
  { assert (L5' : heap_list s5 bs (remove Z.eq_dec bp fl) [bp]).
    { unfold s5, s4. apply heap_list_PUT; [apply heap_list_PUT; [exact L3|]|].
      - apply (quiet_same s); [exact E1|exact Q2].
      - apply (quiet_same s); [autorewrite with fld; exact E1|exact Qf]. }
    apply (heap_list_reghost2 s5 rpre [(t, false)] mid' post _ [bp] [bp + a]);
      try rewrite Fh; auto.
    - destruct G as (_ & _ & _ & _ & _ & G6). exact G6.
    - unfold mid'. simpl. lia.
    - intros c [H|[]]. subst c. cbn [total]. unfold bp. lia.
    - intros c szc [H|[]]. inversion H; subst. left. reflexivity.
    - intros c szc [H|[H|[]]]; inversion H; subst. left. unfold bp. lia.
    - intros c [H|[]]. subst c. cbn [total]. unfold bp. lia. }
  pose proof (coalesce_spec s5 ((a, true) :: rpre) post (t - a) (remove Z.eq_dec bp fl)) as CS.
  cbv zeta in CS. rewrite Fh in CS.
  replace (first_hdr s + total ((a, true) :: rpre) + 4) with (bp + a) in CS
    by (unfold bp; simpl; lia).
  rewrite zip_shift in CS.
  destruct (CS C5 L5) as (_ & C' & L' & K').
  split; [exact C'|]. split; [exact L'|].
  split; [apply (sf_trans _ s5); [exact SF|apply sf_coalesce]|].
  apply (keeps_trans s s5 _ bs (rev rpre ++ mid' ++ post)); auto.
  - apply (keeps_zip s s5 rpre [(t, false)] [(t, false)] post); auto.
    + intros x Q Hx. cbn [total] in Hx. fold bp in Hx. unfold s5, s4.
      rewrite !GET_PUT_other by (unfold bp in *; lia).
      rewrite F3 by exact Q. unfold s2, s1.
      rewrite !GET_PUT_other by (unfold bp in *; lia). reflexivity.
    + intros q szq [H|[]]. discriminate H.
  - intros q szq. apply (alloc_restretch _ rpre [(t, false)] mid' post).
    + unfold mid'. simpl. lia.
    + intros c szc [H|[]]. discriminate H.
Qed.

(** ** The heap extender *)

Lemma extend_size_ok (words : Z) :
  24 <= extend_size words < 4294967296 /\ extend_size words mod 8 = 0.
Proof.
  unfold extend_size, w32, WSIZE, OVERHEAD.
  destruct (words mod 2 =? 0) eqn:E; cbn [negb].
  - apply Z.eqb_eq in E.
    destruct (_ <? 24) eqn:F; [split; [lia|reflexivity]|].
    apply Z.ltb_ge in F. split.
    + pose proof (Z.mod_pos_bound (words * 4) 4294967296). lia.
    + pose proof (Z.div_mod words 2 ltac:(lia)) as D. rewrite E in D.
      replace (words * 4) with ((words / 2) * 8) by lia.
      pose proof (Z.div_mod (words / 2 * 8) 4294967296 ltac:(lia)) as D2.
      replace ((words / 2 * 8) mod 4294967296)
        with ((words / 2 - 536870912 * (words / 2 * 8 / 4294967296)) * 8) by lia.
      apply Z.mod_mul. lia.
  - apply Z.eqb_neq in E.
    destruct (_ <? 24) eqn:F; [split; [lia|reflexivity]|].
    apply Z.ltb_ge in F. split.
    + pose proof (Z.mod_pos_bound ((words + 1) mod 4294967296 * 4) 4294967296). lia.
    + pose proof (Z.div_mod words 2 ltac:(lia)) as D.
      pose proof (Z.mod_pos_bound words 2 ltac:(lia)) as Bm.
      assert (Ew : words mod 2 = 1) by lia.
      set (k := words / 2) in *.
      pose proof (Z.div_mod (words + 1) 4294967296 ltac:(lia)) as D1.
      set (q1 := (words + 1) / 4294967296) in *.
      set (m1 := (words + 1) mod 4294967296) in *.
      assert (Em : m1 = 2 * (k + 1 - 2147483648 * q1)) by lia.
      pose proof (Z.div_mod (m1 * 4) 4294967296 ltac:(lia)) as D2.
      set (q2 := m1 * 4 / 4294967296) in *.
      replace ((m1 * 4) mod 4294967296)
        with ((k + 1 - 2147483648 * q1 - 536870912 * q2) * 8) by lia.
      apply Z.mod_mul. lia.
Qed.

Lemma MAX_adjust (size : Z) : MAX (adjust size) CHUNKSIZE = adjust size.
Proof.
  pose proof (adjust_spec size) as [[A _] _]. unfold MAX, CHUNKSIZE, OVERHEAD in *.
  destruct (adjust size >? 16) eqn:E; [reflexivity|].
  assert (adjust size <= 16) by (destruct (Z.gtb_spec (adjust size) 16); [discriminate|lia]).
  lia.
Qed.

(** For an adjusted request the extender asks for exactly that many bytes. *)
Lemma extend_size_adjust (size : Z) : extend_size (adjust size / WSIZE) = adjust size.
Proof.
  pose proof (adjust_spec size) as [[A B] M]. unfold OVERHEAD, WSIZE in *.
  pose proof (Z.div_mod (adjust size) 8 ltac:(lia)) as D. rewrite M in D.
  assert (E4 : adjust size / 4 = 2 * (adjust size / 8)).
  { rewrite D at 1. replace (8 * (adjust size / 8) + 0) with ((2 * (adjust size / 8)) * 4) by lia.
    apply Z.div_mul. lia. }
  unfold extend_size, WSIZE, OVERHEAD. rewrite E4.
  replace ((2 * (adjust size / 8)) mod 2) with 0
    by (symmetry; rewrite Z.mul_comm; apply Z.mod_mul; lia).
  cbn [Z.eqb negb]. rewrite w32_small by lia.
  replace (2 * (adjust size / 8) * 4 <? 24) with false by (symmetry; apply Z.ltb_ge; lia).
  lia.
Qed.

Lemma heap_list_grow (s s' : state) (bs : list (Z * bool)) (fl : list Z) (size : Z) :
  geom s bs -> heap_list s' bs fl [] -> heap_lo s' = heap_lo s ->
  heap_list s' (bs ++ [(size, false)]) fl [first_hdr s + total bs + 4].
Proof.
  intros G [L1 L2 L3 L4] E.
  assert (Fh : first_hdr s' = first_hdr s) by (unfold first_hdr; congruence).
  pose proof G as (_ & _ & _ & _ & _ & G6).
  split; [exact L1|exact L2| |].
  - intros c Hc. destruct (L3 c Hc) as [[szc Hin] _]. rewrite Fh in Hin. split.
    + exists szc. rewrite Fh, layout_app. apply in_or_app. left. exact Hin.
    + intros [H|[]]. pose proof (layout_bounds _ _ _ _ _ G6 Hin). lia.
  - intros c [szc Hin]. rewrite Fh, layout_app in Hin. apply in_app_or in Hin.
    destruct Hin as [Hin|[Hin|[]]].
    + destruct (L4 c) as [H|[]]; [exists szc; rewrite Fh; exact Hin|left; exact H].
    + inversion Hin; subst. right. left. reflexivity.
Qed.

Lemma extend_heap_fail (s : state) (words : Z) :
  heap_brk s + extend_size words > heap_max s -> extend_heap s words = (0, s).
Proof.
  intros H. unfold extend_heap. fold (extend_size words). unfold mem_sbrk.
  replace (heap_brk s + extend_size words >? heap_max s) with true
    by (symmetry; apply Z.gtb_lt; lia).
  rewrite Z.eqb_refl. reflexivity.
Qed.

Lemma extend_heap_spec (s : state) (bs : list (Z * bool)) (fl : list Z) (words : Z) :
  let size := extend_size words in
  let r := extend_heap s words in
  heap_shape s bs -> heap_list s bs fl [] ->
  heap_brk s + size <= heap_max s ->
  fst r = merged_bp (first_hdr s) (rev bs) size []
  /\ heap_core (snd r) (merged_row (rev bs) size [])
  /\ heap_list (snd r) (merged_row (rev bs) size [])
       (merged_bp (first_hdr s) (rev bs) size []
          :: remove_all (unlinked (first_hdr s) (rev bs) size []) fl) []
  /\ heap_lo (snd r) = heap_lo s /\ heap_max (snd r) = heap_max s
  /\ heap_listp (snd r) = heap_listp s /\ heap_brk (snd r) = heap_brk s + size
  /\ keeps s (snd r) bs.
Proof.
  intros size r Sh L Hroom.
  pose proof Sh as (G & Clp & Cpro & Cpad & Cgap & Ctags).
  pose proof G as (G1 & G2 & G3 & G4 & G5 & G6).
  pose proof (total_nonneg _ G6) as Tn.
  destruct (extend_size_ok words) as [[S1 S2] S3]. fold size in S1, S2, S3.
  set (bp := heap_brk s).
  set (s0 := set_brk s (bp + size)).
  set (s3 := PUT (PUT (PUT s0 (bp - 4) size) (bp + size - 8) size) (bp + size - 4) 1).
  assert (E : r = coalesce s3 bp).
  { unfold r, extend_heap. fold (extend_size words). fold size. unfold mem_sbrk.
    replace (heap_brk s + size >? heap_max s) with false
      by (symmetry; rewrite Z.gtb_ltb; apply Z.ltb_ge; lia).
    fold bp. fold s0.
    change (w32 (-1)) with 4294967295.
    replace (bp =? 4294967295) with false
      by (symmetry; apply Z.eqb_neq; unfold bp; lia).
    rewrite HDRP_eq by (unfold bp; lia).
    rewrite FTRP_PUT by (unfold bp; lia).
    rewrite (PACK_bit size 0) by lia.
    replace (size + 0) with size by lia.
    rewrite (NEXT_BLKP_eq _ bp size); [|unfold bp; lia| |unfold bp; lia|lia].
    2:{ unfold GET_SIZE. rewrite GET_PUT_other by lia. rewrite GET_PUT_eq by lia.
        rewrite w32_small by lia.
        replace size with (size + b2z false) at 1 by (simpl; lia).
        apply size_of_tag. exact S3. }
    rewrite (HDRP_eq (bp + size)) by (unfold bp; lia).
    apply (f_equal (fun x => coalesce x bp)). reflexivity. }
  assert (Hs0 : s0 = set_brk s (bp + size)) by reflexivity.
  assert (Hbp : bp = heap_brk s) by reflexivity.
  clearbody size r s0 bp.
  assert (Ebp : bp = first_hdr s + total bs + 4) by (unfold first_hdr; lia).
  assert (F : forall x, x + 4 <= bp - 4 -> GET s3 x = GET s x).
  { intros x Hx. unfold s3. rewrite !GET_PUT_other by lia. rewrite Hs0. reflexivity. }
  assert (Elo3 : heap_lo s3 = heap_lo s) by (unfold s3; rewrite Hs0; reflexivity).
  assert (Efl3 : free_listp s3 = free_listp s) by (unfold s3; rewrite Hs0; reflexivity).
  assert (Emx3 : heap_max s3 = heap_max s) by (unfold s3; rewrite Hs0; reflexivity).
  assert (Elp3 : heap_listp s3 = heap_listp s) by (unfold s3; rewrite Hs0; reflexivity).
  assert (Ebk3 : heap_brk s3 = bp + size) by (unfold s3; rewrite Hs0; reflexivity).
  assert (Fh3 : first_hdr s3 = first_hdr s) by (unfold first_hdr; congruence).
  assert (C3 : heap_core s3 (rev (rev bs) ++ [(size, false)] ++ [])).
  { apply (rebuild s s3 (rev bs) [] [(size, false)] []); auto.
    - rewrite rev_involutive, app_nil_r. exact Sh.
    - rewrite Ebk3. cbn [total]. lia.
    - rewrite Ebk3, Emx3. lia.
    - apply sized_cons. split; [lia|apply sized_nil].
    - intros x _ [Hx|[_ Hx]]; [|contradiction]. rewrite total_rev in Hx. apply F. lia.
    - rewrite total_rev. intros b0 sz0 al0 [H|[]]. inversion H; subst.
      rewrite <- Ebp. unfold blk_ok, s3. cbn [b2z]. split.
      + rewrite !GET_PUT_other by lia. rewrite GET_PUT_eq by lia.
        rewrite w32_small by lia. lia.
      + rewrite GET_PUT_other by lia. rewrite GET_PUT_eq by lia.
        rewrite w32_small by lia. lia.
    - rewrite Ebk3. unfold s3. rewrite GET_PUT_eq by lia. reflexivity. }
  assert (L3 : heap_list s3 (rev (rev bs) ++ [(size, false)] ++ []) fl
                 [first_hdr s3 + total (rev bs) + 4]).
  { rewrite rev_involutive, total_rev. cbn [app].
    rewrite Fh3.
    apply (heap_list_grow s s3); [exact G| |exact Elo3].
    apply (heap_list_same s); [exact L|exact Elo3|exact Efl3|].
    intros c Hc. destruct (hl_sound _ _ _ _ L c Hc) as [[szc Hin] _].
    pose proof (geom_block _ _ _ _ _ G Hin).
    split; apply F; lia. }
  pose proof (coalesce_spec s3 (rev bs) [] size fl) as CS. cbv zeta in CS.
  cbn [app] in C3, L3.
  destruct (CS C3 L3) as (R1 & R2 & R3 & R4).
  rewrite Fh3 in *.
  rewrite total_rev in R1, R2, R3, R4. rewrite <- Ebp in R1, R2, R3, R4.
  assert (K : keeps s (snd (coalesce s3 bp)) bs).
  { apply (keeps_trans s s3 _ bs (rev (rev bs) ++ [(size, false)])); auto.
    - intros q szq x Hin H1 H2. apply F.
      pose proof (layout_bounds _ _ _ _ _ G6 Hin). lia.
    - intros q szq Hin. rewrite rev_involutive, layout_app.
      apply in_or_app. left. exact Hin. }
  rewrite E. split; [exact R1|]. split; [exact R2|]. split; [exact R3|].
  destruct (sf_coalesce s3 bp) as (A & B & C & D).
  rewrite A, B, C, D, Elo3, Emx3, Elp3, Ebk3.
  repeat (split; [first [reflexivity | lia]|]). exact K.
Qed.

Lemma noadj_parts (rpre post : list (Z * bool)) (sz : Z) (al : bool) :
  noadj (rev rpre ++ (sz, al) :: post) ->
  noadj (rev rpre) /\ noadj post
  /\ (al = false -> hd_alloc rpre = true /\ hd_alloc post = true).
Proof.
  intros H. apply noadj_zip in H. destruct H as (H1 & H2 & H3).
  cbn [noadj] in H2. destruct H2 as [H2 H4]. rewrite hd_alloc_cons in H3.
  split; [exact H1|]. split; [exact H4|].
  intros ->. split; [destruct H3 as [H3|H3]|destruct H2 as [H2|H2]]; auto; discriminate.
Qed.

Lemma noadj_alloc (rpre post : list (Z * bool)) (sz : Z) :
  noadj (rev rpre) -> noadj post -> noadj (rev rpre ++ (sz, true) :: post).
Proof.
  intros H1 H2. apply noadj_zip. cbn [noadj hd_alloc]. auto.
Qed.

(** The placer on a free block of a well-formed heap: the block, or its
    front part, becomes allocated, and no other block changes its
    status. *)
Lemma place_spec (s : state) (rpre post : list (Z * bool)) (t a : Z) (fl : list Z) :
  let bs := rev rpre ++ (t, false) :: post in
  let bp := first_hdr s + total rpre + 4 in
  heap_inv s bs fl -> 24 <= a -> a mod 8 = 0 -> a <= t ->
  exists bs' fl' sz,
    heap_inv (place s bp a) bs' fl' /\ same_frame s (place s bp a)
    /\ total bs' = total bs /\ a <= sz
    /\ (24 <= t - a -> sz = a) /\ (t - a < 24 -> sz = t)
    /\ (forall q szq, In (q, szq, true) (layout (first_hdr s) bs') <->
                      (q = bp /\ szq = sz) \/ In (q, szq, true) (layout (first_hdr s) bs))
    /\ keeps s (place s bp a) bs.
Proof.
  intros bs bp (C & L & N) Ha Ma Hle.
  destruct (noadj_parts _ _ _ _ N) as (N1 & N2 & N3).
  destruct (Z_lt_ge_dec (t - a) 24) as [Hr|Hr].
  - destruct (place_whole s rpre post t a fl C L Hle Hr) as (C' & L' & SF & K).
    exists (rev rpre ++ (t, true) :: post), (remove Z.eq_dec bp fl), t.
    split; [split; [exact C'|split; [exact L'|apply noadj_alloc; assumption]]|].
    split; [exact SF|]. split; [unfold bs; rewrite !total_app; reflexivity|].
    split; [exact Hle|]. split; [lia|]. split; [reflexivity|]. split; [|exact K].
    intros q szq. unfold bs. rewrite !alloc_zip. fold bp.
    split; intros H; decompose [or and] H; clear H; subst; auto; discriminate.
  - destruct (place_split s rpre post t a fl C L Ha Ma ltac:(lia)) as (C' & L' & SF & K).
    eexists _, _, a.
    split; [split; [exact C'|split; [exact L'|]]|].
    { apply noadj_merged. rewrite zip_shift.
      apply noadj_zip. cbn [noadj hd_alloc]. repeat split; auto. }
    split; [exact SF|]. split.
    { rewrite total_merged. unfold bs. rewrite total_app, total_rev. simpl. lia. }
    split; [lia|]. split; [reflexivity|]. split; [lia|]. split; [|exact K].
    intros q szq. rewrite alloc_merged. unfold bs. rewrite alloc_zip.
    rewrite layout_rev_cons. cbn [fst snd total]. fold bp.
    replace (first_hdr s + (a + total rpre) + (t - a)) with (first_hdr s + total rpre + t) by lia.
    split; intros H; decompose [or and] H; clear H; subst; auto; try discriminate;
      try match goal with
          | E : (_, _, _) = (_, _, _) |- _ => inversion E; subst; auto
          end.

Qed.

(** ** Allocation *)

Lemma merged_shape (h : Z) (rpre post : list (Z * bool)) (sz : Z) :
  sized rpre -> sized post ->
  exists rp sz' po,
    merged_row rpre sz post = rev rp ++ (sz', false) :: po
    /\ merged_bp h rpre sz post = h + total rp + 4 /\ sz <= sz'.
Proof.
  intros S1 S2. unfold merged_row, merged_bp.
  destruct rpre as [|[psz [|]] rp]; destruct post as [|[nsz [|]] po]; cbn [merged];
    eexists _, _, _; (split; [reflexivity|]); (split; [reflexivity|]);
    try (apply sized_cons in S1; destruct S1 as [[A1 _] S1]);
    try (apply sized_cons in S2; destruct S2 as [[A2 _] S2]); lia.
Qed.

Lemma merged_bp_fresh (h : Z) (rpre post : list (Z * bool)) (sz sz0 : Z) :
  sized rpre -> 0 <= sz ->
  ~ In (merged_bp h rpre sz post, sz0, true) (layout h (rev rpre)).
Proof.
  intros S Hs Hin.
  assert (B : forall r q, sized r -> In (q, sz0, true) (layout h (rev r)) ->
                          q + 24 <= h + total r + 4).
  { intros r q Sr Hq. apply sized_rev in Sr.
    pose proof (layout_bounds _ _ _ _ _ Sr Hq) as Bq. rewrite total_rev in Bq. lia. }
  unfold merged_bp in Hin.
  destruct rpre as [|[psz [|]] rp]; destruct post as [|[nsz [|]] po]; cbn [merged] in Hin;
    try (apply B in Hin; [lia|assumption]).
  all: apply sized_cons in S; destruct S as [[A1 _] S];
    apply layout_rev_cons in Hin; destruct Hin as [Hin|Hin];
    [apply B in Hin; [lia|assumption]|discriminate Hin].
Qed.

Lemma mm_malloc_zero (fuel : nat) (s : state) : mm_malloc fuel s 0 = Some (0, s).
Proof. reflexivity. Qed.

(** [mm_malloc] on a well-formed heap. *)
Lemma malloc_spec (s : state) (bs : list (Z * bool)) (fl : list Z) (fuel : nat) (size : Z) :
  heap_inv s bs fl -> 0 < size -> (length fl < fuel)%nat ->
  exists p s',
    mm_malloc fuel s size = Some (p, s')
    /\ ((p = 0 /\ s' = s /\ heap_brk s + adjust size > heap_max s
         /\ forall c sz, In (c, sz, false) (layout (first_hdr s) bs) -> sz < adjust size)
        \/ (p <> 0 /\ exists bs' fl' sz,
              heap_inv s' bs' fl' /\ adjust size <= sz
              /\ heap_lo s' = heap_lo s /\ heap_max s' = heap_max s
              /\ heap_listp s' = heap_listp s
              /\ (forall q szq, In (q, szq, true) (layout (first_hdr s) bs') <->
                                (q = p /\ szq = sz) \/
                                In (q, szq, true) (layout (first_hdr s) bs))
              /\ (forall sz0, ~ In (p, sz0, true) (layout (first_hdr s) bs))
              /\ ((heap_brk s' = heap_brk s
                   /\ exists t, In (p, t, false) (layout (first_hdr s) bs)
                                /\ adjust size <= t)
                  \/ (heap_brk s' = heap_brk s + adjust size
                      /\ forall c t, In (c, t, false) (layout (first_hdr s) bs) ->
                                     t < adjust size))
              /\ sz < adjust size + 24
              /\ keeps s s' bs)).
Proof.
  intros (C & L & N) Hsz Hfuel.
  pose proof (core_geom _ _ C) as G.
  pose proof G as (G1 & G2 & G3 & G4 & G5 & G6).
  destruct (adjust_spec size) as [[A1 A2] A3]. unfold OVERHEAD in A1.
  unfold mm_malloc.
  replace (size <=? 0) with false by (symmetry; apply Z.leb_gt; lia).
  set (a := adjust size) in *.
  destruct (find_fit_from_spec s bs a C fl 0 (free_listp s) fuel
              (hl_flist _ _ _ _ L)
              (fun c Hc => proj1 (hl_sound _ _ _ _ L c Hc)) Hfuel)
    as [[F1 F2]|(l1 & r & l2 & t & E1 & E2 & E3 & E4 & E5)].
  - (* no fit: extend the heap *)
    unfold find_fit. rewrite F1. cbn [Z.eqb negb].
    unfold a at 1. rewrite MAX_adjust. fold a.
    assert (Nofit : forall c sz, In (c, sz, false) (layout (first_hdr s) bs) -> sz < a).
    { intros c sz Hin. apply (F2 c sz); [|exact Hin].
      apply (heap_list_In _ _ _ _ _ L Hin). }
    pose proof (extend_size_adjust size) as Es. fold a in Es.
    destruct (Z_gt_le_dec (heap_brk s + a) (heap_max s)) as [Hfull|Hroom].
    + rewrite extend_heap_fail by (rewrite Es; exact Hfull).
      exists 0, s. split; [reflexivity|]. left. auto.
    + pose proof (extend_heap_spec s bs fl (a / WSIZE) (core_shape _ _ C) L) as X.
      cbv zeta in X. rewrite Es in X. specialize (X Hroom).
      destruct (extend_heap s (a / WSIZE)) as [bp1 s1]. cbn [fst snd] in X.
      destruct X as (X1 & X2 & X3 & X4 & X5 & X6 & X7 & X8).
      assert (Sr : sized (rev bs)) by (apply sized_rev; exact G6).
      destruct (merged_shape (first_hdr s) (rev bs) [] a Sr sized_nil)
        as (rp & t & po & M1 & M2 & M3).
      rewrite M1 in X2, X3. rewrite M2 in X1, X3.
      assert (Fh1 : first_hdr s1 = first_hdr s) by (unfold first_hdr; congruence).
      assert (N1 : noadj (rev rp ++ (t, false) :: po)).
      { rewrite <- M1. apply noadj_merged. rewrite rev_involutive.
        apply noadj_app. cbn [noadj hd_alloc]. auto. }
      assert (Hb : In (bp1, t, false) (layout (first_hdr s1) (rev rp ++ (t, false) :: po))).
      { rewrite X1, Fh1. apply layout_mid. }
      pose proof (geom_block _ _ _ _ _ (core_geom _ _ X2) Hb) as Bb.
      replace (bp1 =? 0) with false by (symmetry; apply Z.eqb_neq; lia).
      pose proof (place_spec s1 rp po t a _ (conj X2 (conj X3 N1)) A1 A3 M3) as P.
      cbv zeta in P. rewrite Fh1 in P. rewrite <- X1 in P.
      destruct P as (bs' & fl' & sz & P1 & P2 & P3 & P4 & Pa & Pb & P5 & P6).
      exists bp1, (place s1 bp1 a). split; [reflexivity|]. right.
      split; [lia|]. exists bs', fl', sz.
      destruct P2 as (Q1 & Q2 & Q3 & Q4).
      split; [exact P1|]. split; [exact P4|].
      split; [congruence|]. split; [congruence|]. split; [congruence|].
      split.
      * intros q szq. rewrite P5. rewrite <- M1. rewrite alloc_merged.
        rewrite rev_involutive. cbn [layout In]. tauto.
      * split.
        -- intros sz0 Hin. rewrite X1, <- M2 in Hin.
           apply (merged_bp_fresh (first_hdr s) (rev bs) [] a sz0 Sr ltac:(lia)).
           rewrite rev_involutive. exact Hin.
        -- split; [right; split; [congruence|exact Nofit]|].
           split; [destruct (Z_lt_ge_dec (t - a) 24); lia|].
           apply (keeps_trans s s1 _ bs (rev rp ++ (t, false) :: po)); auto.
           intros q szq Hq. rewrite <- M1. apply alloc_merged.
           rewrite rev_involutive. left. exact Hq.
  - (* first fit *)
    unfold find_fit. rewrite E2.
    pose proof (geom_block _ _ _ _ _ G E3) as Br.
    replace (r =? 0) with false by (symmetry; apply Z.eqb_neq; lia).
    cbn [negb].
    destruct (layout_split _ _ _ _ _ E3) as (rpre & post & Eb & Er).
    subst bs.
    pose proof (place_spec s rpre post t a fl (conj C (conj L N)) A1 A3 E4) as P.
    cbv zeta in P. rewrite <- Er in P.
    destruct P as (bs' & fl' & sz & P1 & P2 & P3 & P4 & Pa & Pb & P5 & P6).
    exists r, (place s r a). split; [reflexivity|]. right.
    split; [lia|]. exists bs', fl', sz.
    destruct P2 as (Q1 & Q2 & Q3 & Q4).
    split; [exact P1|]. split; [exact P4|].
    split; [exact Q1|]. split; [exact Q3|]. split; [exact Q4|].
    split; [exact P5|]. split.
    + intros sz0 Hin. destruct (layout_size_unique _ _ _ _ _ _ _ G E3 Hin). discriminate.
    + split; [left; split; [exact Q2|]; exists t; auto|].
      split; [destruct (Z_lt_ge_dec (t - a) 24); lia|exact P6].
Qed.
(** The block the coalescer returns covers the block it was given. *)
Lemma merged_covers (h : Z) (rpre post : list (Z * bool)) (sz : Z) :
  sized rpre -> sized post ->
  exists rp sz' po,
    merged_row rpre sz post = rev rp ++ (sz', false) :: po
    /\ merged_bp h rpre sz post = h + total rp + 4
    /\ total rp <= total rpre /\ total rpre + sz <= total rp + sz'
    /\ (hd_alloc rpre = true -> rp = rpre).
Proof.
  intros S1 S2. unfold merged_row, merged_bp.
  destruct rpre as [|[psz [|]] rp]; destruct post as [|[nsz [|]] po]; cbn [merged];
    eexists _, _, _; (split; [reflexivity|]); (split; [reflexivity|]);
    try (apply sized_cons in S1; destruct S1 as [[A1 _] S1]);
    try (apply sized_cons in S2; destruct S2 as [[A2 _] S2]);
    cbn [total hd_alloc]; repeat split; try lia; try reflexivity;
    intros; discriminate.
Qed.

(** ** Freeing, on the whole invariant *)

Lemma free_inv (s : state) (bs : list (Z * bool)) (fl : list Z) (bp sz : Z) :
  heap_inv s bs fl -> In (bp, sz, true) (layout (first_hdr s) bs) ->
  exists bs' fl',
    heap_inv (mm_free s bp) bs' fl' /\ same_frame s (mm_free s bp)
    /\ total bs' = total bs
    /\ (forall q szq, In (q, szq, true) (layout (first_hdr s) bs') <->
                      In (q, szq, true) (layout (first_hdr s) bs) /\ q <> bp)
    /\ (forall q szq x, In (q, szq, true) (layout (first_hdr s) bs) -> q <> bp ->
          q - 4 <= x -> x + 4 <= q + szq - 4 -> GET (mm_free s bp) x = GET s x)
    /\ exists b t,
         In (b, t, false) (layout (first_hdr s) bs')
         /\ b <= bp /\ bp + sz <= b + t
         /\ free_listp (mm_free s bp) = b
         /\ (GET_ALLOC s (bp - 8) = 1 -> b = bp).
Proof.
  intros (C & L & N) Hin.
  pose proof (core_geom _ _ C) as G.
  pose proof G as (_ & _ & _ & _ & _ & G6).
  destruct (layout_split _ _ _ _ _ Hin) as (rpre & post & Eb & Ebp). subst bs.
  destruct (free_spec s rpre post sz fl C L) as (C' & L' & SF & K).
  rewrite <- Ebp in C', L', SF, K.
  apply sized_app in G6. destruct G6 as [S1 S2]. apply sized_cons in S2.
  destruct S2 as [S2 S3].
  eexists _, _. split; [split; [exact C'|split; [exact L'|]]|].
  { apply noadj_merged. exact N. }
  split; [exact SF|]. split.
  { rewrite total_merged, total_app, total_rev. simpl. lia. }
  split; [|split].
  - intros q szq. rewrite alloc_merged, alloc_zip.
    split.
    + intros [H|H].
      * split; [auto|]. pose proof (layout_bounds _ _ _ _ _ S1 H) as B.
        rewrite total_rev in B. lia.
      * split; [auto|]. pose proof (layout_bounds _ _ _ _ _ S3 H) as B. lia.
    + intros [[H|[(H & _)|H]] Hne]; auto. exfalso. apply Hne. lia.
  - intros q szq x Hq Hne. apply K. apply alloc_zip. apply alloc_zip in Hq.
    destruct Hq as [H|[(H & _)|H]]; auto. exfalso. apply Hne. lia.
  - apply -> sized_rev in S1.
    destruct (merged_covers (first_hdr s) rpre post sz S1 S3)
      as (rp & sz' & po & M1 & M2 & M3 & M4 & M5).
    exists (merged_bp (first_hdr s) rpre sz post), sz'.
    split; [rewrite M1, M2; apply layout_mid|].
    rewrite M2. split; [lia|]. split; [lia|]. split.
    + pose proof (flist_head _ _ _ _ _ (hl_flist _ _ _ _ L')) as Hh.
      cbn [hd] in Hh. rewrite Hh. exact M2.
    + intros Ha.
      assert (E : rp = rpre).
      { apply M5. destruct rpre as [|[psz [|]] rp0]; try reflexivity. exfalso.
        pose proof (nb_prev (first_hdr s) psz false rp0 ((sz, true) :: post)) as Hpv.
        destruct (core_tags _ _ C _ _ _ Hpv) as [_ P2].
        pose proof (layout_bounds _ _ _ _ _
                      (proj2 (sized_app _ _) (conj (proj2 (sized_rev _) S1)
                         (proj2 (sized_cons _ _ _) (conj S2 S3)))) Hpv) as B.
        replace (first_hdr s + total rp0 + 4 + psz - 8) with (bp - 8) in P2
          by (rewrite Ebp; simpl; lia).
        rewrite (GET_ALLOC_tag s _ psz false P2) in Ha by lia.
        discriminate Ha. }
      rewrite E. lia.
Qed.

(** ** Writes into the payload of an allocated block *)

Lemma payload_frame (s s' : state) (bs : list (Z * bool)) (fl : list Z) (q sz : Z) :
  heap_inv s bs fl -> In (q, sz, true) (layout (first_hdr s) bs) ->
  same_frame s s' -> free_listp s' = free_listp s ->
  (forall x, x + 4 <= q \/ q + sz - 8 <= x -> GET s' x = GET s x) ->
  heap_inv s' bs fl.
Proof.
  intros (C & L & N) Hin (E1 & E2 & E3 & E4) Ef F.
  pose proof (core_geom _ _ C) as G.
  pose proof G as (_ & _ & _ & _ & _ & G6).
  pose proof (geom_block _ _ _ _ _ G Hin) as B.
  destruct (core_tags _ _ C _ _ _ Hin) as [T1 T2].
  destruct (layout_split _ _ _ _ _ Hin) as (rpre & post & Eb & Ebp). subst bs.
  split; [|split; [|exact N]].
  - change ((sz, true) :: post) with ([(sz, true)] ++ post).
    apply (rebuild_same s s' rpre [(sz, true)] [(sz, true)] post); auto.
    + apply sized_cons. split; [lia|apply sized_nil].
    + intros x _ Hx. cbn [total] in Hx. apply F. lia.
    + intros b0 sz0 al0 [H|[]]. inversion H. rewrite <- Ebp. subst sz0.
      unfold blk_ok. rewrite !F by lia. auto.
  - apply (heap_list_same s); auto.
    intros c Hc. destruct (hl_sound _ _ _ _ L c Hc) as [[szc Hcin] _].
    pose proof (geom_block _ _ _ _ _ G Hcin) as Bc.
    destruct (layout_sep _ _ _ _ _ _ _ _ G6 Hcin Hin) as [(_ & _ & D)|D];
      [discriminate|].
    split; apply F; lia.
Qed.

Lemma GET_copy_outside (s : state) (dst src n x : Z) :
  x + 4 <= dst \/ dst + n <= x ->
  GET (set_mem s (copy_bytes (mem s) dst src n)) x = GET s x.
Proof. intros H. apply rd32_copy_outside. exact H. Qed.

(** Past the wrap-around, an adjusted size above the minimum leaves room
    for the request. *)
Lemma copy_bytes_inside (m : Z -> Z) (dst src n i k : Z) :
  0 <= i -> 0 <= k -> i + k < n ->
  copy_bytes m dst src n (dst + i + k) = m (src + i + k).
Proof.
  intros Hi Hk Hn. unfold copy_bytes.
  replace (dst <=? dst + i + k) with true by (symmetry; apply Z.leb_le; lia).
  replace (dst + i + k <? dst + n) with true by (symmetry; apply Z.ltb_lt; lia).
  cbn [andb]. f_equal. lia.
Qed.

(** A word inside the copied area reads as the source word did. *)
Lemma GET_copy_inside (s : state) (dst src n i : Z) :
  0 <= i -> i + 4 <= n ->
  GET (set_mem s (copy_bytes (mem s) dst src n)) (dst + i) = GET s (src + i).
Proof.
  intros Hi Hn. unfold GET, rd32. cbn [mem set_mem].
  pose proof (copy_bytes_inside (mem s) dst src n i 0 Hi ltac:(lia) ltac:(lia)) as B0.
  pose proof (copy_bytes_inside (mem s) dst src n i 1 Hi ltac:(lia) ltac:(lia)) as B1.
  pose proof (copy_bytes_inside (mem s) dst src n i 2 Hi ltac:(lia) ltac:(lia)) as B2.
  pose proof (copy_bytes_inside (mem s) dst src n i 3 Hi ltac:(lia) ltac:(lia)) as B3.
  rewrite !Z.add_0_r in B0. rewrite B0, B1, B2, B3. reflexivity.
Qed.

Lemma adjust_room (size : Z) :
  0 < size < 4294967296 -> 24 < adjust size -> size + 8 <= adjust size.
Proof.
  intros Hs Ha. unfold adjust, MAX, OVERHEAD, DSIZE in *.
  destruct (w32 (ALIGN size + 8) >? 24) eqn:E; [|lia].
  pose proof (ALIGN_range size) as R. pose proof (ALIGN_mod8 size) as M.
  destruct (Z_lt_ge_dec (size + 7) 4294967296) as [H1|H1].
  - pose proof (ALIGN_ge size ltac:(lia) H1) as A.
    destruct (Z_lt_ge_dec (ALIGN size + 8) 4294967296) as [H2|H2].
    + rewrite (w32_small (ALIGN size + 8)) by lia. lia.
    + assert (Ea : ALIGN size = 4294967288) by lia.
      rewrite Ea in Ha. vm_compute in Ha. discriminate Ha.
  - exfalso. unfold ALIGN, ALIGNMENT in *. unfold w32 in Ha at 2.
    assert (Em : (size + (8 - 1)) mod 4294967296 = size + 7 - 4294967296).
    { symmetry. apply (Z.mod_unique _ _ 1); lia. }
    rewrite Em in Ha. rewrite land_lnot7 in Ha.
    rewrite (Z.div_small (size + 7 - 4294967296)) in Ha by lia.
    vm_compute in Ha. discriminate Ha.
Qed.

(** ** Reallocation *)

Lemma mod8_sub (a b : Z) : a mod 8 = 0 -> b mod 8 = 0 -> (a - b) mod 8 = 0.
Proof.
  intros A B. replace (a - b) with (a + (-1) * b) by lia.
  rewrite Z.add_mod, Z.mul_mod, A, B by lia. reflexivity.
Qed.

(** Shrinking in place with a split: the tail becomes a free block and is
    coalesced. *)
Lemma realloc_shrink (fuel : nat) (s : state) (rpre post : list (Z * bool))
      (o size : Z) (fl : list Z) :
  let bs := rev rpre ++ (o, true) :: post in
  let bp := first_hdr s + total rpre + 4 in
  let a := adjust size in
  let bs' := merged_row ((a, true) :: rpre) (o - a) post in
  heap_core s bs -> heap_list s bs fl [] -> 0 < size -> 24 < o - a ->
  exists s',
    mm_realloc fuel s bp size = Some (bp, s')
    /\ heap_core s' bs'
    /\ heap_list s' bs'
         (merged_bp (first_hdr s) ((a, true) :: rpre) (o - a) post
            :: remove_all (unlinked (first_hdr s) ((a, true) :: rpre) (o - a) post) fl) []
    /\ same_frame s s'
    /\ keeps s s' (rev rpre ++ (o, false) :: post)
    /\ forall x, bp <= x -> x + 4 <= bp + a - 8 -> GET s' x = GET s x.
Proof.
  intros bs bp a bs' C L Hsz Hr.
  pose proof (core_geom _ _ C) as G.
  destruct (adjust_spec size) as [[A1 A2] A3]. unfold OVERHEAD in A1. fold a in A1, A2, A3.
  assert (Hin : In (bp, o, true) (layout (first_hdr s) bs)) by apply layout_mid.
  pose proof (geom_block _ _ _ _ _ G Hin) as B.
  destruct (core_tags _ _ C _ _ _ Hin) as [T1 T2].
  assert (Mr : (o - a) mod 8 = 0) by (apply mod8_sub; lia).
  set (s1 := PUT s (bp - 4) (a + 1)).
  set (s2 := PUT s1 (bp + a - 8) (a + 1)).
  set (s3 := PUT s2 (bp + a - 4) (o - a + 1)).
  set (s4 := PUT s3 (bp + a - 4) (o - a)).
  set (s5 := PUT s4 (bp + o - 8) (o - a)).
  assert (SF : same_frame s s5) by (unfold same_frame; auto).
  pose proof (sf_first_hdr _ _ SF) as Fh.
  assert (H2 : GET_SIZE s2 (bp - 4) = a).
  { apply (GET_SIZE_tag _ _ a true); [|exact A3]. unfold s2, s1.
    rewrite GET_PUT_other by lia. rewrite GET_PUT_eq by lia. apply w32_small.
    simpl. lia. }
  assert (H3 : GET_SIZE s3 (bp - 4) = a).
  { unfold s3. unfold GET_SIZE in *. rewrite GET_PUT_other by lia. exact H2. }
  assert (E : mm_realloc fuel s bp size = Some (bp, snd (coalesce s5 (bp + a)))).
  { unfold mm_realloc. fold a.
    replace (size <=? 0) with false by (symmetry; apply Z.leb_gt; lia).
    replace (bp =? 0) with false by (symmetry; apply Z.eqb_neq; lia).
    rewrite HDRP_eq by lia.
    rewrite (GET_SIZE_tag s (bp - 4) o true T1) by lia.
    replace (o =? a) with false by (symmetry; apply Z.eqb_neq; lia).
    replace (a <=? o) with true by (symmetry; apply Z.leb_le; lia).
    rewrite (w32_small (o - a)) by lia.
    replace (o - a <=? OVERHEAD) with false
      by (symmetry; unfold OVERHEAD; apply Z.leb_gt; lia).
    rewrite FTRP_PUT by lia. rewrite !PACK_bit by lia.
    fold s1. fold s2.
    rewrite (NEXT_BLKP_eq s2 bp a) by (try exact H2; lia).
    rewrite (HDRP_eq (bp + a)) by lia. fold s3.
    rewrite (NEXT_BLKP_eq s3 bp a) by (try exact H3; lia).
    unfold mm_free.
    replace (bp + a =? 0) with false by (symmetry; apply Z.eqb_neq; lia).
    rewrite (HDRP_eq (bp + a)) by lia.
    assert (G3 : GET_SIZE s3 (bp + a - 4) = o - a).
    { apply (GET_SIZE_tag _ _ (o - a) true); [|exact Mr]. unfold s3.
      rewrite GET_PUT_eq by lia. apply w32_small. simpl. lia. }
    rewrite G3. rewrite FTRP_PUT by lia. rewrite !PACK_bit by lia.
    apply (f_equal (fun x => Some (bp, snd (coalesce x (bp + a))))).
    unfold s5, s4.
    apply PUT_ext; [apply PUT_ext; [reflexivity|lia|lia]|lia|lia]. }
  exists (snd (coalesce s5 (bp + a))). split; [exact E|].
  assert (F : forall x, x + 4 <= bp - 4 \/ bp + o - 4 <= x -> GET s5 x = GET s x).
  { intros x Hx. unfold s5, s4, s3, s2, s1. rewrite !GET_PUT_other by lia. reflexivity. }
  set (mid' := [(a, true); (o - a, false)]).
  assert (Sm' : sized mid').
  { apply sized_cons. split; [lia|]. apply sized_cons. split; [lia|apply sized_nil]. }
  assert (C5 : heap_core s5 (rev rpre ++ mid' ++ post)).
  { apply (rebuild_same s s5 rpre [(o, true)] mid' post); try apply SF; auto.
    - unfold mid'. simpl. lia.
    - intros x _ Hx. cbn [total] in Hx. fold bp in Hx. apply F. unfold bp in *. lia.
    - fold bp. intros b0 sz0 al0 [H|[H|[]]]; inversion H; subst; unfold blk_ok; cbn [b2z].
      + replace (first_hdr s + total rpre + 4) with bp by reflexivity.
        unfold s5, s4, s3, s2, s1. split.
        * rewrite !GET_PUT_other by lia. rewrite GET_PUT_eq by lia. apply w32_small. lia.
        * rewrite !GET_PUT_other by lia. rewrite GET_PUT_eq by lia. apply w32_small. lia.
      + replace (first_hdr s + total rpre + a + 4) with (bp + a) by (unfold bp; lia).
        unfold s5, s4. split.
        * rewrite GET_PUT_other by lia. rewrite GET_PUT_eq by lia.
          rewrite w32_small by lia. lia.
        * rewrite GET_PUT_eq by lia. rewrite w32_small by lia. lia. }
  assert (L5 : heap_list s5 (rev rpre ++ mid' ++ post) fl [bp + a]).
  { assert (L5' : heap_list s5 bs fl []).
    { apply (heap_list_same s); [exact L|reflexivity|reflexivity|].
      intros c Hc. destruct (hl_sound _ _ _ _ L c Hc) as [[szc Hcin] _].
      pose proof (geom_block _ _ _ _ _ G Hcin) as Bc.
      destruct G as (_ & _ & _ & _ & _ & G6).
      destruct (layout_sep _ _ _ _ _ _ _ _ G6 Hcin Hin) as [(_ & _ & D)|D];
        [discriminate|].
      split; apply F; lia. }
    apply (heap_list_reghost2 s5 rpre [(o, true)] mid' post _ [] [bp + a]);
      try rewrite Fh; auto.
    - destruct G as (_ & _ & _ & _ & _ & G6). exact G6.
    - unfold mid'. simpl. lia.
    - intros c [].
    - intros c szc [H|[]]. discriminate H.
    - intros c szc [H|[H|[]]]; inversion H; subst. left. unfold bp. lia.
    - intros c [H|[]]. subst c. cbn [total]. unfold bp. lia. }
  pose proof (coalesce_spec s5 ((a, true) :: rpre) post (o - a) fl) as CS.
  cbv zeta in CS. rewrite Fh in CS.
  replace (first_hdr s + total ((a, true) :: rpre) + 4) with (bp + a) in CS
    by (unfold bp; simpl; lia).
  rewrite zip_shift in CS.
  destruct (CS C5 L5) as (_ & C' & L' & K').
  split; [exact C'|]. split; [exact L'|].
  split; [apply (sf_trans _ s5); [exact SF|apply sf_coalesce]|].
  pose proof G as (_ & _ & _ & _ & _ & G6).
  apply sized_app in G6. destruct G6 as [S1 S2]. apply sized_cons in S2.
  destruct S2 as [S2 S3].
  split.
  - apply (keeps_trans s s5 _ _ (rev rpre ++ mid' ++ post)); auto.
    + intros q szq x Hq Hx1 Hx2. apply F. apply alloc_zip in Hq.
      destruct Hq as [Hq|[(_ & _ & Hq)|Hq]]; [|discriminate Hq|].
      * pose proof (layout_bounds _ _ _ _ _ S1 Hq) as Bq. rewrite total_rev in Bq.
        unfold bp. lia.
      * pose proof (layout_bounds _ _ _ _ _ S3 Hq) as Bq. unfold bp. lia.
    + intros q szq. apply (alloc_restretch _ rpre [(o, false)] mid' post).
      * unfold mid'. simpl. lia.
      * intros c szc [H|[]]. discriminate H.
  - intros x Hx1 Hx2.
    rewrite (K' bp a x); [| |lia|lia].
    + unfold s5, s4, s3, s2, s1. rewrite !GET_PUT_other by lia. reflexivity.
    + rewrite Fh. unfold mid'. apply layout_mid.
Qed.

(** ** Initialisation *)

Lemma GET_set_brk (s : state) (b x : Z) : GET (set_brk s b) x = GET s x.
Proof. reflexivity. Qed.

Lemma GET_set_heap_listp (s : state) (p x : Z) : GET (set_heap_listp s p) x = GET s x.
Proof. reflexivity. Qed.

Lemma mm_init_spec (s0 : state) :
  fresh_provider s0 -> heap_lo s0 + 72 <= heap_max s0 ->
  fst (mm_init s0) = 0
  /\ heap_inv (snd (mm_init s0)) [(24, false)] [heap_lo s0 + 48]
  /\ heap_lo (snd (mm_init s0)) = heap_lo s0
  /\ heap_max (snd (mm_init s0)) = heap_max s0
  /\ heap_brk (snd (mm_init s0)) = heap_lo s0 + 72.
Proof.
  intros (Hb & Hlo & Hal & Hmax & Hgap) Hroom.
  set (lo := heap_lo s0) in *.
  set (sa := set_heap_listp (set_brk s0 (lo + 48)) lo).
  set (sp := set_free_listp
               (PUT (PUT (PUT (PUT (PUT (PUT sa lo 0) (lo + 4) 25) (lo + 8) 0)
                               (lo + 12) 0) (lo + 24) 25) (lo + 28) 1) (lo + 8)).
  assert (E : mm_init s0 =
              (if fst (extend_heap sp 4) =? 0 then -1 else 0, snd (extend_heap sp 4))).
  { unfold mm_init, mem_sbrk. rewrite Hb. fold lo.
    replace (lo + 2 * OVERHEAD >? heap_max s0) with false
      by (symmetry; unfold OVERHEAD; rewrite Z.gtb_ltb; apply Z.ltb_ge; lia).
    replace (lo =? 0) with false by (symmetry; apply Z.eqb_neq; lia).
    change (2 * OVERHEAD) with 48. fold sa.
    change (heap_listp sa) with lo.
    autorewrite with fld. change (heap_listp sa) with lo.
    unfold WSIZE, DSIZE, OVERHEAD, CHUNKSIZE.
    rewrite (w32_small (lo + 4)) by lia. rewrite (w32_small (lo + 8)) by lia.
    rewrite (w32_small (lo + 8 + 4)) by lia. rewrite (w32_small (lo + 24)) by lia.
    rewrite (w32_small (lo + 4 + 24)) by lia.
    change (PACK 24 1) with 25. change (PACK 0 1) with 1. change (16 / 4) with 4.
    replace (lo + 8 + 4) with (lo + 12) by lia.
    replace (lo + 4 + 24) with (lo + 28) by lia.
    fold sp. destruct (extend_heap sp 4) as [r s']. cbn [fst snd].
    destruct (r =? 0); reflexivity. }
  assert (Sh : heap_shape sp []).
  { unfold heap_shape. split; [|split; [|split; [|split; [|split]]]].
    - unfold geom, sp. autorewrite with fld.
      change (heap_lo sa) with lo. change (heap_max sa) with (heap_max s0).
      change (heap_brk sa) with (lo + 48). cbn [total].
      split; [lia|]. split; [exact Hal|]. split; [lia|]. split; [lia|].
      split; [lia|apply sized_nil].
    - reflexivity.
    - unfold sp. autorewrite with fld. change (heap_lo sa) with lo.
      rewrite !GET_PUT_other by lia. rewrite GET_PUT_eq by lia. reflexivity.
    - unfold sp. autorewrite with fld. change (heap_lo sa) with lo.
      rewrite !GET_PUT_other by lia. rewrite GET_PUT_eq by lia. reflexivity.
    - unfold GET_SIZE, sp. autorewrite with fld. change (heap_lo sa) with lo.
      rewrite !GET_PUT_other by lia. exact Hgap.
    - intros bp sz al []. }
  assert (Lp : heap_list sp [] [] []).
  { split.
    - unfold sp, prologue. autorewrite with fld. change (heap_lo sa) with lo.
      cbn [flist]. reflexivity.
    - constructor.
    - intros b [].
    - intros b [sz []]. }
  pose proof (extend_heap_spec sp [] [] 4 Sh Lp) as X. cbv zeta in X.
  change (extend_size 4) with 24 in X.
  change (heap_brk sp) with (lo + 48) in X. change (heap_max sp) with (heap_max s0) in X.
  specialize (X ltac:(lia)).
  destruct X as (X1 & X2 & X3 & X4 & X5 & X6 & X7 & _).
  change (merged_row (rev []) 24 []) with [(24, false)] in X2, X3.
  change (remove_all (unlinked (first_hdr sp) (rev []) 24 []) []) with (@nil Z) in X3.
  unfold merged_bp in X1, X3. cbn [rev merged total] in X1, X3.
  change (first_hdr sp) with (lo + 44) in X1, X3.
  replace (lo + 44 + 0 + 4) with (lo + 48) in X1, X3 by lia.
  rewrite E. cbn [fst snd]. rewrite X1.
  replace (lo + 48 =? 0) with false by (symmetry; apply Z.eqb_neq; lia).
  split; [reflexivity|]. split.
  - split; [exact X2|]. split; [exact X3|]. cbn [noadj hd_alloc]. auto.
  - rewrite X4, X5, X7. repeat split. lia.
Qed.

Lemma realloc_copy_length_le (size o : Z) : realloc_copy_length size o <= size.
Proof.
  unfold realloc_copy_length. destruct (size <? o) eqn:E; [lia|].
  apply Z.ltb_ge in E. exact E.
Qed.

Lemma realloc_copy_length_min (size o : Z) : realloc_copy_length size o = Z.min size o.
Proof.
  unfold realloc_copy_length. destruct (size <? o) eqn:E.
  - apply Z.ltb_lt in E. lia.
  - apply Z.ltb_ge in E. lia.
Qed.

(** [mm_realloc] on a live block of a well-formed heap. *)
Lemma realloc_spec (s : state) (bs : list (Z * bool)) (fl : list Z) (fuel : nat)
      (p o size : Z) :
  heap_inv s bs fl -> In (p, o, true) (layout (first_hdr s) bs) ->
  0 < size < 4294967296 -> (length fl < fuel)%nat ->
  exists q s',
    mm_realloc fuel s p size = Some (q, s')
    /\ ((q = p /\ s' = s /\ adjust size <= o /\ o - adjust size <= 24)
        \/ (q = p /\ 24 < o - adjust size /\ exists bs' fl',
              heap_inv s' bs' fl' /\ same_frame s s'
              /\ (forall r szr, In (r, szr, true) (layout (first_hdr s) bs') <->
                                (r = p /\ szr = adjust size)
                                \/ (r <> p /\ In (r, szr, true) (layout (first_hdr s) bs)))
              /\ (forall r szr x, In (r, szr, true) (layout (first_hdr s) bs) -> r <> p ->
                    r - 4 <= x -> x + 4 <= r + szr - 4 -> GET s' x = GET s x)
              /\ (forall x, p <= x -> x + 4 <= p + adjust size - 8 ->
                    GET s' x = GET s x))
        \/ (q = 0 /\ s' = s /\ o < adjust size
            /\ heap_brk s + adjust size > heap_max s)
        \/ (q <> 0 /\ q <> p /\ o < adjust size /\ exists bs' fl' sz,
              heap_inv s' bs' fl' /\ adjust size <= sz
              /\ heap_lo s' = heap_lo s /\ heap_max s' = heap_max s
              /\ heap_listp s' = heap_listp s
              /\ (forall r szr, In (r, szr, true) (layout (first_hdr s) bs') <->
                                (r = q /\ szr = sz)
                                \/ (r <> p /\ In (r, szr, true) (layout (first_hdr s) bs)))
              /\ (forall r szr x, In (r, szr, true) (layout (first_hdr s) bs) -> r <> p ->
                    r - 4 <= x -> x + 4 <= r + szr - 4 -> GET s' x = GET s x)
              /\ (forall i, 0 <= i -> i + 4 <= Z.min size (o - 8) ->
                    GET s' (q + i) = GET s (p + i)))).
Proof.
  intros I Hin Hsz Hfuel.
  pose proof I as (C & L & N).
  pose proof (core_geom _ _ C) as G.
  pose proof G as (_ & _ & _ & _ & _ & G6).
  destruct (adjust_spec size) as [[A1 A2] A3]. unfold OVERHEAD in A1.
  pose proof (geom_block _ _ _ _ _ G Hin) as B.
  destruct (core_tags _ _ C _ _ _ Hin) as [T1 T2].
  assert (Ho : GET_SIZE s (HDRP p) = o).
  { rewrite HDRP_eq by lia. apply (GET_SIZE_tag s _ o true T1). lia. }
  destruct (Z.eq_dec o (adjust size)) as [Eq|Ne].
  { exists p, s. split; [|left; repeat split; lia].
    unfold mm_realloc.
    replace (size <=? 0) with false by (symmetry; apply Z.leb_gt; lia).
    replace (p =? 0) with false by (symmetry; apply Z.eqb_neq; lia).
    rewrite Ho, Eq, Z.eqb_refl. reflexivity. }
  destruct (Z_le_gt_dec (adjust size) o) as [Hle|Hgt].
  - destruct (Z_le_gt_dec (o - adjust size) 24) as [Hs|Hs].
    + exists p, s. split; [|left; repeat split; lia].
      unfold mm_realloc.
      replace (size <=? 0) with false by (symmetry; apply Z.leb_gt; lia).
      replace (p =? 0) with false by (symmetry; apply Z.eqb_neq; lia).
      rewrite Ho.
      replace (o =? adjust size) with false by (symmetry; apply Z.eqb_neq; lia).
      replace (adjust size <=? o) with true by (symmetry; apply Z.leb_le; lia).
      rewrite (w32_small (o - adjust size)) by lia.
      replace (o - adjust size <=? OVERHEAD) with true
        by (symmetry; unfold OVERHEAD; apply Z.leb_le; lia).
      reflexivity.
    + destruct (layout_split _ _ _ _ _ Hin) as (rpre & post & Eb & Ep). subst bs.
      destruct (realloc_shrink fuel s rpre post o size fl C L ltac:(lia) ltac:(lia))
        as (s' & E & C' & L' & SF & K & Kp).
      rewrite <- Ep in E, Kp.
      exists p, s'. split; [exact E|]. right. left.
      split; [reflexivity|]. split; [lia|].
      eexists _, _. split; [split; [exact C'|split; [exact L'|]]|].
      { destruct (noadj_parts _ _ _ _ N) as (N1 & N2 & _).
        apply noadj_merged. rewrite zip_shift.
        apply noadj_zip. cbn [noadj hd_alloc]. repeat split; auto. }
      split; [exact SF|].
      apply sized_app in G6. destruct G6 as [S1 S2]. apply sized_cons in S2.
      destruct S2 as [S2 S3].
      split; [|split; [|exact Kp]].
      2: { intros r szr x Hr Hne. apply K. apply alloc_zip. apply alloc_zip in Hr.
           destruct Hr as [H|[(H & _)|H]]; auto. exfalso. apply Hne. lia. }
      intros r szr. rewrite alloc_merged, alloc_zip, layout_rev_cons.
      cbn [fst snd total]. rewrite <- Ep.
      replace (first_hdr s + (adjust size + total rpre) + (o - adjust size))
        with (first_hdr s + total rpre + o) by lia.
      assert (B1 : In (r, szr, true) (layout (first_hdr s) (rev rpre)) -> r <> p).
      { intros H. pose proof (layout_bounds _ _ _ _ _ S1 H) as Bd.
        rewrite total_rev in Bd. lia. }
      assert (B2 : In (r, szr, true) (layout (first_hdr s + total rpre + o) post) -> r <> p).
      { intros H. pose proof (layout_bounds _ _ _ _ _ S3 H) as Bd. lia. }
      split.
      * intros [[H|H]|H]; auto; try (inversion H; subst; left; auto).
      * intros [(H1 & H2)|(H1 & [H|[(H2 & _)|H]])]; auto; try contradiction;
          try (subst; left; right; reflexivity).
  - (* the block has to grow *)
    assert (Hm : exists a, a = adjust size) by eauto. destruct Hm as [a Ea].
    destruct (malloc_spec s bs fl fuel size I ltac:(lia) Hfuel)
      as (np & s1 & Em & [(P1 & P2 & P3 & P4)|(P1 & bs1 & fl1 & sz & I1 & Q1 & Q2 & Q3 & Q4 & Q5 & Q6 & _ & _ & K1)]).
    + exists 0, s. split; [|right; right; left; repeat split; lia].
      unfold mm_realloc.
      replace (size <=? 0) with false by (symmetry; apply Z.leb_gt; lia).
      replace (p =? 0) with false by (symmetry; apply Z.eqb_neq; lia).
      rewrite Ho.
      replace (o =? adjust size) with false by (symmetry; apply Z.eqb_neq; lia).
      replace (adjust size <=? o) with false by (symmetry; apply Z.leb_gt; lia).
      rewrite Em. subst np s1. reflexivity.
    + set (s2 := set_mem s1 (copy_bytes (mem s1) np p (realloc_copy_length size o))).
      assert (Fh1 : first_hdr s1 = first_hdr s) by (unfold first_hdr; congruence).
      assert (Hnp : In (np, sz, true) (layout (first_hdr s1) bs1)).
      { rewrite Fh1. apply Q5. left. auto. }
      assert (Hp1 : In (p, o, true) (layout (first_hdr s1) bs1)).
      { rewrite Fh1. apply Q5. right. exact Hin. }
      assert (Nep : np <> p).
      { intros ->. apply (Q6 o). exact Hin. }
      assert (I2 : heap_inv s2 bs1 fl1).
      { apply (payload_frame s1 s2 bs1 fl1 np sz I1 Hnp).
        - unfold same_frame. auto.
        - reflexivity.
        - intros x Hx. apply GET_copy_outside.
          pose proof (realloc_copy_length_le size o).
          pose proof (adjust_room size Hsz ltac:(lia)). lia. }
      assert (Hp2 : In (p, o, true) (layout (first_hdr s2) bs1)) by exact Hp1.
      destruct (free_inv s2 bs1 fl1 p o I2 Hp2) as (bs' & fl' & I' & SF & Tt & Al & Kf & _).
      exists np, (mm_free s2 p). split.
      * unfold mm_realloc.
        replace (size <=? 0) with false by (symmetry; apply Z.leb_gt; lia).
        replace (p =? 0) with false by (symmetry; apply Z.eqb_neq; lia).
        rewrite Ho.
        replace (o =? adjust size) with false by (symmetry; apply Z.eqb_neq; lia).
        replace (adjust size <=? o) with false by (symmetry; apply Z.leb_gt; lia).
        rewrite Em.
        replace (np =? 0) with false by (symmetry; apply Z.eqb_neq; lia).
        reflexivity.
      * right. right. right. split; [exact P1|]. split; [exact Nep|]. split; [lia|].
        exists bs', fl', sz. split; [exact I'|]. split; [exact Q1|].
        destruct SF as (F1 & F2 & F3 & F4).
        split; [rewrite F1; exact Q2|]. split; [rewrite F3; exact Q3|].
        split; [rewrite F4; exact Q4|].
        change (first_hdr s2) with (first_hdr s1) in Al, Kf.
        rewrite Fh1 in Al, Kf.
        pose proof (realloc_copy_length_min size o) as Hn.
        pose proof (adjust_room size Hsz ltac:(lia)) as Hroom.
        pose proof (geom_block _ _ _ _ _ (core_geom _ _ (proj1 I1)) Hnp) as Bn.
        destruct I1 as (C1 & _). pose proof (core_geom _ _ C1) as G1.
        pose proof G1 as (_ & _ & _ & _ & _ & G16).
        split; [|split].
        -- intros r szr. rewrite Al. rewrite Q5.
           split.
           ++ intros [[(H1 & H2)|H] Hne]; auto.
           ++ intros [(H1 & H2)|(H1 & H2)]; subst; auto.
        -- intros r szr x Hr Hne Hx1 Hx2.
           assert (Hr1 : In (r, szr, true) (layout (first_hdr s) bs1))
             by (apply Q5; right; exact Hr).
           rewrite (Kf r szr x Hr1 Hne Hx1 Hx2).
           unfold s2. rewrite GET_copy_outside.
           ++ apply (K1 r szr x Hr Hx1 Hx2).
           ++ rewrite <- Fh1 in Hr1.
              destruct (layout_sep _ _ _ _ _ _ _ _ G16 Hr1 Hnp) as [(D & _)|D].
              ** exfalso. subst r. apply (Q6 szr). exact Hr.
              ** lia.
        -- intros i Hi1 Hi2.
           rewrite <- Fh1 in Kf.
           assert (Hnp1 : In (np, sz, true) (layout (first_hdr s) bs1))
             by (rewrite <- Fh1; exact Hnp).
           rewrite Fh1 in Kf.
           rewrite (Kf np sz (np + i) Hnp1 Nep ltac:(lia) ltac:(lia)).
           unfold s2. rewrite GET_copy_inside by lia.
           apply (K1 p o (p + i) Hin); lia.
Qed.

(** ** Fuel *)

Lemma find_fit_from_mono (s : state) (a : Z) (f : nat) :
  forall (f' : nat) (h r : Z),
    find_fit_from f s a h = Some r -> (f <= f')%nat -> find_fit_from f' s a h = Some r.
Proof.
  induction f as [|f IH]; intros f' h r H Hle; [discriminate|].
  destruct f' as [|f']; [lia|]. cbn [find_fit_from] in *.
  destruct (GET_ALLOC s (HDRP h) =? 0); [|exact H].
  destruct (a <=? GET_SIZE s (HDRP h)); [exact H|].
  apply IH; [exact H|lia].
Qed.

Lemma mm_malloc_mono (s : state) (size : Z) (f f' : nat) (x : Z * state) :
  mm_malloc f s size = Some x -> (f <= f')%nat -> mm_malloc f' s size = Some x.
Proof.
  unfold mm_malloc, find_fit. intros H Hle.
  destruct (size <=? 0); [exact H|].
  destruct (find_fit_from f s (adjust size) (free_listp s)) as [r|] eqn:E; [|discriminate].
  rewrite (find_fit_from_mono _ _ _ _ _ _ E Hle). exact H.
Qed.

Lemma mm_realloc_mono (s : state) (p size : Z) (f f' : nat) (x : Z * state) :
  mm_realloc f s p size = Some x -> (f <= f')%nat -> mm_realloc f' s p size = Some x.
Proof.
  unfold mm_realloc. intros H Hle.
  destruct (size <=? 0); [exact H|].
  destruct (p =? 0); [apply (mm_malloc_mono _ _ f); assumption|].
  destruct (GET_SIZE s (HDRP p) =? adjust size); [exact H|].
  destruct (adjust size <=? GET_SIZE s (HDRP p)); [exact H|].
  destruct (mm_malloc f s size) as [y|] eqn:E; [|discriminate].
  rewrite (mm_malloc_mono _ _ _ _ _ E Hle). exact H.
Qed.

(** ** The invariant of reachable states *)

(** A client store changes no word that does not contain the byte. *)
Lemma GET_poke_other (s : state) (x v y : Z) :
  x < y \/ y + 4 <= x -> GET (poke s x v) y = GET s y.
Proof.
  intros H. unfold GET, rd32, poke. cbn [mem set_mem].
  replace (y =? x) with false by (symmetry; apply Z.eqb_neq; lia).
  replace (y + 1 =? x) with false by (symmetry; apply Z.eqb_neq; lia).
  replace (y + 2 =? x) with false by (symmetry; apply Z.eqb_neq; lia).
  replace (y + 3 =? x) with false by (symmetry; apply Z.eqb_neq; lia).
  reflexivity.
Qed.

Lemma mm_init_no_room (s0 : state) :
  fresh_provider s0 -> heap_lo s0 + 48 <= heap_max s0 -> heap_max s0 < heap_lo s0 + 72 ->
  fst (mm_init s0) = -1.
Proof.
  intros (Hb & Hlo & Hal & Hmax & Hgap) H1 H2.
  unfold mm_init, mem_sbrk. rewrite Hb.
  replace (heap_lo s0 + 2 * OVERHEAD >? heap_max s0) with false
    by (symmetry; unfold OVERHEAD; rewrite Z.gtb_ltb; apply Z.ltb_ge; lia).
  replace (heap_lo s0 =? 0) with false by (symmetry; apply Z.eqb_neq; lia).
  rewrite extend_heap_fail; [reflexivity|].
  change (extend_size (CHUNKSIZE / WSIZE)) with 24.
  autorewrite with fld. cbn [heap_brk heap_max set_heap_listp set_brk].
  unfold OVERHEAD. lia.
Qed.

Theorem reachable_inv (s : state) (live : list Z) :
  reachable s live -> exists bs fl, heap_inv s bs fl /\ holds s bs live.
Proof.
  induction 1 as [s0 Hf Hroom Hok
                 | s live fuel size p s' _ IH Hsz Hm
                 | s live p _ IH Hp
                 | s live fuel p size q s' _ IH Hp Hsz Hr
                 | s live p x v _ IH Hp Hx].
  - unfold OVERHEAD in Hroom.
    destruct (Z_lt_ge_dec (heap_max s0) (heap_lo s0 + 72)) as [Hs|Hs].
    { rewrite (mm_init_no_room s0 Hf ltac:(lia) Hs) in Hok. discriminate. }
    destruct (mm_init_spec s0 Hf ltac:(lia)) as (_ & I & _).
    eexists _, _. split; [exact I|]. intros p [].
  - destruct IH as (bs & fl & I & Hl).
    destruct (Z.eq_dec size 0) as [->|Hnz].
    { rewrite mm_malloc_zero in Hm. inversion Hm; subst. exists bs, fl. auto. }
    destruct (malloc_spec s bs fl (Nat.max fuel (S (length fl))) size I ltac:(lia) ltac:(lia))
      as (p1 & s1 & E & Hcase).
    rewrite (mm_malloc_mono _ _ _ _ _ Hm (Nat.le_max_l _ _)) in E.
    inversion E; subst p1 s1.
    destruct Hcase as [(P1 & P2 & _)|(P1 & bs' & fl' & sz & I' & _ & Q2 & _ & _ & Q5 & _ & _ & _)].
    + subst. exists bs, fl. auto.
    + replace (p =? 0) with false by (symmetry; apply Z.eqb_neq; exact P1).
      assert (Fh : first_hdr s' = first_hdr s) by (unfold first_hdr; congruence).
      exists bs', fl'. split; [exact I'|].
      intros r [Hr|Hr]; rewrite Fh.
      * subst r. exists sz. apply Q5. left. auto.
      * destruct (Hl r Hr) as [szr Hin]. exists szr. apply Q5. right. exact Hin.
  - destruct IH as (bs & fl & I & Hl).
    destruct Hp as [->|Hp].
    { exists bs, fl. split; [exact I|].
      intros r Hr. apply in_remove in Hr. apply Hl. tauto. }
    destruct (Hl p Hp) as [sz Hin].
    destruct (free_inv s bs fl p sz I Hin) as (bs' & fl' & I' & SF & _ & Al & _).
    exists bs', fl'. split; [exact I'|].
    intros r Hr. apply in_remove in Hr. destruct Hr as [Hr Hne].
    destruct (Hl r Hr) as [szr Hrin]. exists szr.
    rewrite (sf_first_hdr _ _ SF). apply Al. auto.
  - destruct IH as (bs & fl & I & Hl).
    destruct (Z.eq_dec size 0) as [->|Hnz].
    { cbn [Z.eqb]. unfold mm_realloc in Hr. cbn [Z.leb Z.compare] in Hr.
      inversion Hr; subst q s'.
      destruct Hp as [->|Hp].
      { exists bs, fl. split; [exact I|].
        intros r Hr'. apply in_remove in Hr'. apply Hl. tauto. }
      destruct (Hl p Hp) as [sz Hin].
      destruct (free_inv s bs fl p sz I Hin) as (bs' & fl' & I' & SF & _ & Al & _).
      exists bs', fl'. split; [exact I'|].
      intros r Hr'. apply in_remove in Hr'. destruct Hr' as [Hr' Hne].
      destruct (Hl r Hr') as [szr Hrin]. exists szr.
      rewrite (sf_first_hdr _ _ SF). apply Al. auto. }
    replace (size =? 0) with false by (symmetry; apply Z.eqb_neq; exact Hnz).
    destruct Hp as [->|Hp].
    { (* realloc(NULL, size) is malloc(size) *)
      assert (Em : mm_malloc fuel s size = Some (q, s')).
      { unfold mm_realloc in Hr.
        replace (size <=? 0) with false in Hr by (symmetry; apply Z.leb_gt; lia).
        exact Hr. }
      destruct (malloc_spec s bs fl (Nat.max fuel (S (length fl))) size I ltac:(lia) ltac:(lia))
        as (p1 & s1 & E & Hcase).
      rewrite (mm_malloc_mono _ _ _ _ _ Em (Nat.le_max_l _ _)) in E.
      inversion E; subst p1 s1.
      destruct Hcase as [(P1 & P2 & _)|(P1 & bs' & fl' & sz & I' & _ & Q2 & _ & _ & Q5 & _ & _ & _)].
      - subst. exists bs, fl. auto.
      - replace (q =? 0) with false by (symmetry; apply Z.eqb_neq; exact P1).
        assert (Fh : first_hdr s' = first_hdr s) by (unfold first_hdr; congruence).
        exists bs', fl'. split; [exact I'|].
        intros r [Hr'|Hr']; rewrite Fh.
        + subst r. exists sz. apply Q5. left. auto.
        + apply in_remove in Hr'. destruct (Hl r (proj1 Hr')) as [szr Hin].
          exists szr. apply Q5. right. exact Hin. }
    destruct (Hl p Hp) as [o Hin].
    destruct (realloc_spec s bs fl (Nat.max fuel (S (length fl))) p o size I Hin
                ltac:(lia) ltac:(lia)) as (q1 & s1 & E & Hcase).
    rewrite (mm_realloc_mono _ _ _ _ _ _ Hr (Nat.le_max_l _ _)) in E.
    inversion E; subst q1 s1.
    pose proof I as (C0 & _ & _).
    pose proof (geom_block _ _ _ _ _ (core_geom _ _ C0) Hin) as Bp.
    destruct Hcase as [(P1 & P2 & _)
                      |[(P1 & _ & bs' & fl' & I' & SF & Al & _)
                       |[(P1 & P2 & _)
                        |(P1 & P2 & _ & bs' & fl' & sz & I' & _ & Q2 & _ & _ & Al & _)]]].
    + subst. replace (p =? 0) with false by (symmetry; apply Z.eqb_neq; lia).
      exists bs, fl. split; [exact I|].
      intros r [Hr'|Hr']; [subst r; eauto|]. apply in_remove in Hr'. apply Hl. tauto.
    + subst q. replace (p =? 0) with false by (symmetry; apply Z.eqb_neq; lia).
      exists bs', fl'. split; [exact I'|].
      intros r [Hr'|Hr']; rewrite (sf_first_hdr _ _ SF).
      * subst r. exists (adjust size). apply Al. left. auto.
      * apply in_remove in Hr'. destruct Hr' as [Hr' Hne].
        destruct (Hl r Hr') as [szr Hrin]. exists szr. apply Al. right. auto.
    + subst. cbn [Z.eqb]. exists bs, fl. auto.
    + replace (q =? 0) with false by (symmetry; apply Z.eqb_neq; exact P1).
      assert (Fh : first_hdr s' = first_hdr s) by (unfold first_hdr; congruence).
      exists bs', fl'. split; [exact I'|].
      intros r [Hr'|Hr']; rewrite Fh.
      * subst r. exists sz. apply Al. left. auto.
      * apply in_remove in Hr'. destruct Hr' as [Hr' Hne].
        destruct (Hl r Hr') as [szr Hrin]. exists szr. apply Al. right. auto.
  - destruct IH as (bs & fl & I & Hl).
    destruct (Hl p Hp) as [sz Hin].
    pose proof I as (C0 & _ & _).
    pose proof (geom_block _ _ _ _ _ (core_geom _ _ C0) Hin) as Bp.
    destruct (core_tags _ _ C0 _ _ _ Hin) as [T1 _].
    rewrite HDRP_eq in Hx by lia.
    rewrite (GET_SIZE_tag s _ sz true T1) in Hx by lia. unfold DSIZE in Hx.
    exists bs, fl. split; [|exact Hl].
    apply (payload_frame s (poke s x v) bs fl p sz I Hin).
    + unfold same_frame. auto.
    + reflexivity.
    + intros y Hy. apply GET_poke_other. lia.
Qed.

(** ** Concrete heaps *)

(** Reading a closed run of the allocator: the pointer it returns and
    one observation of the state it leaves. *)
Lemma run_result {A : Type} (o : option (Z * state)) (f : state -> A) (p : Z) (a : A) :
  option_map (fun x => (fst x, f (snd x))) o = Some (p, a) ->
  exists s', o = Some (p, s') /\ f s' = a.
Proof.
  destruct o as [[q s']|]; cbn [option_map fst snd]; intros H; [|discriminate H].
  injection H as H1 H2. subst q. exists s'. auto.
Qed.

Lemma heap0_fresh : fresh_provider heap0.
Proof. unfold fresh_provider. vm_compute. repeat split; discriminate. Qed.

Lemma heap1_inv : heap_inv heap1 [(24, false)] [4144].
Proof.
  destruct (mm_init_spec heap0 heap0_fresh) as (_ & I & _).
  - vm_compute. discriminate.
  - exact I.
Qed.

Lemma heap1_reachable : reachable heap1 [].
Proof.
  apply reach_init.
  - exact heap0_fresh.
  - vm_compute. discriminate.
  - vm_compute. reflexivity.
Qed.

Lemma heap2_malloc : mm_malloc 10 heap1 40 = Some (4144, heap2).
Proof.
  unfold heap2. destruct (mm_malloc 10 heap1 40) as [[p s]|] eqn:E.
  - apply (f_equal (option_map fst)) in E. vm_compute in E.
    injection E as E. subst p. reflexivity.
  - vm_compute in E. discriminate E.
Qed.

Lemma heap2_reachable : reachable heap2 [4144].
Proof.
  apply (reach_malloc heap1 [] 10 40 4144 heap2 heap1_reachable).
  - lia.
  - exact heap2_malloc.
Qed.

Lemma heap3_malloc : mm_malloc 10 heap2 100 = Some (4192, heap3).
Proof.
  unfold heap3. destruct (mm_malloc 10 heap2 100) as [[p s]|] eqn:E.
  - apply (f_equal (option_map fst)) in E. vm_compute in E.
    injection E as E. subst p. reflexivity.
  - vm_compute in E. discriminate E.
Qed.

Lemma heap3_reachable : reachable heap3 [4192; 4144].
Proof.
  apply (reach_malloc heap2 [4144] 10 100 4192 heap3 heap2_reachable).
  - lia.
  - exact heap3_malloc.
Qed.

Lemma tight0_fresh : fresh_provider tight0.
Proof. unfold fresh_provider. vm_compute. repeat split; discriminate. Qed.

Lemma tight1_reachable : reachable tight1 [].
Proof.
  apply reach_init.
  - exact tight0_fresh.
  - vm_compute. discriminate.
  - vm_compute. reflexivity.
Qed.

Ltac concrete_in H :=
  vm_compute in H;
  repeat match type of H with
         | _ \/ _ => destruct H as [H|H]
         | False => destruct H
         | (_, _, _) = (_, _, _) => injection H as ? ? ?; subst
         | (_, _) = (_, _) => injection H as ? ?; subst
         end.

Ltac closed := vm_compute; first [reflexivity | discriminate].

Lemma heap2_core : heap_core heap2 [(48, true); (24, false)].
Proof.
  split; [closed|closed|closed|closed|closed|closed|closed|closed|closed| | |closed].
  - intros sz al H. concrete_in H; vm_compute; split; first [reflexivity | discriminate].
  - intros bp sz al H. concrete_in H; split; vm_compute; reflexivity.
Qed.

Lemma heap2_inv : heap_inv heap2 [(48, true); (24, false)] [4192].
Proof.
  split; [exact heap2_core|split].
  - split.
    + vm_compute. auto.
    + repeat constructor. simpl. tauto.
    + intros b [H|[]]. subst b. split; [|simpl; tauto].
      exists 24. vm_compute. auto.
    + intros b [sz H]. concrete_in H; try discriminate. left. simpl. auto.
  - simpl. auto.
Qed.

Lemma heap2_pending_core : heap_core heap2_pending [(48, false); (24, false)].
Proof.
  split; [closed|closed|closed|closed|closed|closed|closed|closed|closed| | |closed].
  - intros sz al H. concrete_in H; vm_compute; split; first [reflexivity | discriminate].
  - intros bp sz al H. concrete_in H; split; vm_compute; reflexivity.
Qed.

Lemma heap2_pending_list : heap_list heap2_pending [(48, false); (24, false)] [4192] [4144].
Proof.
  split.
  - vm_compute. auto.
  - repeat constructor. simpl. tauto.
  - intros b [H|[]]. subst b. split.
    + exists 24. vm_compute. auto.
    + simpl. intros [H|[]]. discriminate H.
  - intros b [sz H]. concrete_in H; simpl; auto.
Qed.

Lemma heap3_inv : heap_inv heap3 [(48, true); (112, true); (24, false)] [4304].
Proof.
  split; [|split].
  - split; [closed|closed|closed|closed|closed|closed|closed|closed|closed| | |closed].
    + intros sz al H. concrete_in H; vm_compute; split; first [reflexivity | discriminate].
    + intros bp sz al H. concrete_in H; split; vm_compute; reflexivity.
  - split.
    + vm_compute. auto.
    + repeat constructor. simpl. tauto.
    + intros b [H|[]]. subst b. split; [|simpl; tauto].
      exists 24. vm_compute. auto.
    + intros b [sz H]. concrete_in H; try discriminate. left. simpl. auto.
  - simpl. auto.
Qed.

Lemma heap3_pending_core :
  heap_core heap3_pending [(48, true); (112, false); (24, false)].
Proof.
  split; [closed|closed|closed|closed|closed|closed|closed|closed|closed| | |closed].
  - intros sz al H. concrete_in H; vm_compute; split; first [reflexivity | discriminate].
  - intros bp sz al H. concrete_in H; split; vm_compute; reflexivity.
Qed.

Lemma heap3_pending_list :
  heap_list heap3_pending [(48, true); (112, false); (24, false)] [4304] [4192].
Proof.
  split.
  - vm_compute. auto.
  - repeat constructor. simpl. tauto.
  - intros b [H|[]]. subst b. split.
    + exists 24. vm_compute. auto.
    + simpl. intros [H|[]]. discriminate H.
  - intros b [sz H]. concrete_in H; try discriminate; simpl; auto.
Qed.

(** ** What the code reads of a block of the row *)

Lemma block_reads (s : state) (bs : list (Z * bool)) (bp sz : Z) (al : bool) :
  heap_core s bs -> In (bp, sz, al) (layout (first_hdr s) bs) ->
  HDRP bp = bp - 4 /\ GET s (bp - 4) = sz + b2z al /\ GET_SIZE s (HDRP bp) = sz
  /\ GET_ALLOC s (HDRP bp) = b2z al /\ FTRP s bp = bp + sz - 8
  /\ GET s (bp + sz - 8) = sz + b2z al /\ NEXT_BLKP s bp = bp + sz.
Proof.
  intros C Hin. pose proof (geom_block _ _ _ _ _ (core_geom _ _ C) Hin) as B.
  destruct (core_tags _ _ C _ _ _ Hin) as [T1 T2].
  assert (H : HDRP bp = bp - 4) by (apply HDRP_eq; lia).
  assert (Gs : GET_SIZE s (bp - 4) = sz) by (apply (GET_SIZE_tag s _ sz al T1); lia).
  rewrite H. repeat split; auto.
  - apply (GET_ALLOC_tag s _ sz al T1); lia.
  - apply FTRP_eq; lia.
  - apply NEXT_BLKP_eq; lia.
Qed.

Lemma held_block (s : state) (live : list Z) (p : Z) :
  reachable s live -> In p live ->
  exists bs fl o,
    heap_inv s bs fl /\ holds s bs live
    /\ In (p, o, true) (layout (first_hdr s) bs) /\ GET_SIZE s (HDRP p) = o.
Proof.
  intros R Hin. destruct (reachable_inv s live R) as (bs & fl & I & Hd).
  destruct (Hd p Hin) as [o Ho]. exists bs, fl, o.
  split; [exact I|]. split; [exact Hd|]. split; [exact Ho|].
  destruct I as (C & _). apply (block_reads s bs p o true C Ho).
Qed.

(** With an allocated block before it, the coalescer never moves the
    block it is given. *)
Lemma merged_after_alloc (h a : Z) (rpre post : list (Z * bool)) (sz : Z) :
  sized post -> 0 <= sz ->
  exists sz' po,
    merged_row ((a, true) :: rpre) sz post
    = rev ((a, true) :: rpre) ++ (sz', false) :: po
    /\ merged_bp h ((a, true) :: rpre) sz post = h + total ((a, true) :: rpre) + 4
    /\ sz <= sz'.
Proof.
  intros S Hs. unfold merged_row, merged_bp.
  destruct post as [|[nsz [|]] po]; cbn [merged]; eexists _, _;
    (split; [reflexivity|]); (split; [reflexivity|]); try lia.
  apply sized_cons in S. destruct S as [[A _] _]. lia.
Qed.
(** The free list of a reachable state, link by link. *)
Lemma free_list_facts (s : state) (live : list Z) :
  reachable s live ->
  exists bs fl,
    heap_inv s bs fl
    /\ flist s (prologue s) 0 (free_listp s) fl
    /\ forall b, In b fl ->
         GET_ALLOC s (HDRP b) = 0
         /\ mem_heap_lo s <= b < heap_brk s
         /\ mem_heap_lo s <= NEXT_FREEP s b < heap_brk s
         /\ (In (NEXT_FREEP s b) fl \/ NEXT_FREEP s b = prologue s)
         /\ (b = free_listp s -> PREV_FREEP s b = 0)
         /\ (b <> free_listp s ->
             In (PREV_FREEP s b) fl
             /\ mem_heap_lo s <= PREV_FREEP s b < heap_brk s)
         /\ b mod 8 = 0
         /\ GET s (HDRP b) = GET s (FTRP s b).
Proof.
  intros R. destruct (reachable_inv s live R) as (bs & fl & I & _).
  exists bs, fl. split; [exact I|]. destruct I as (C & L & N).
  pose proof (hl_flist _ _ _ _ L) as F. split; [exact F|].
  pose proof (core_geom _ _ C) as G.
  assert (Rng : forall c, In c fl -> heap_lo s + 48 <= c /\ c + 24 <= heap_brk s
                                     /\ heap_brk s < 4294967296).
  { intros c Hc. destruct (hl_sound _ _ _ _ L c Hc) as [[sz Hsz] _].
    pose proof (geom_block _ _ _ _ _ G Hsz). lia. }
  pose proof (total_nonneg _ (core_sized _ _ C)) as Tn.
  pose proof (core_brk _ _ C) as Bk. pose proof (core_lo _ _ C) as Lo.
  intros b Hb. unfold mem_heap_lo.
  destruct (hl_sound _ _ _ _ L b Hb) as [[sz Hsz] _].
  destruct (block_reads s bs b sz false C Hsz) as (R1 & R2 & _ & R4 & R5 & R6 & _).
  pose proof (geom_block _ _ _ _ _ G Hsz) as Bb.
  pose proof (Rng b Hb) as Rb.
  destruct (in_split _ _ Hb) as (l1 & l2 & E).
  rewrite E in F.
  pose proof (flist_prev _ _ _ _ _ _ _ F) as Hp.
  pose proof (flist_next _ _ _ _ _ _ _ F) as Hn.
  pose proof (flist_head _ _ _ _ _ F) as Hh.
  assert (En : NEXT_FREEP s b = hd (prologue s) l2).
  { rewrite NEXT_FREEP_eq by lia. exact Hn. }
  assert (Nx : In (hd (prologue s) l2) fl \/ hd (prologue s) l2 = prologue s).
  { destruct l2 as [|c l2]; [right; reflexivity|left].
    rewrite E. apply in_or_app. right. simpl. auto. }
  split; [exact R4|]. split; [lia|]. split.
  { rewrite En. destruct Nx as [Hx|Hx].
    - pose proof (Rng _ Hx). lia.
    - rewrite Hx. unfold prologue. lia. }
  split; [rewrite En; exact Nx|].
  assert (Tl : b mod 8 = 0 /\ GET s (HDRP b) = GET s (FTRP s b)).
  { split; [apply Bb|]. rewrite R1, R5, R2, R6. reflexivity. }
  unfold PREV_FREEP. rewrite Hp.
  pose proof (hl_nodup _ _ _ _ L) as Nd. rewrite E in Nd.
  destruct l1 as [|c l1].
  - split; [reflexivity|]. split; [|exact Tl].
    intros Hne. exfalso. apply Hne. rewrite Hh. reflexivity.
  - assert (Il : In (last (c :: l1) 0) (c :: l1)).
    { destruct (exists_last (l := c :: l1) ltac:(discriminate)) as (l' & a & El).
      rewrite El. rewrite last_last. apply in_or_app. right. simpl. auto. }
    assert (Ifl : In (last (c :: l1) 0) fl).
    { rewrite E. apply in_or_app. left. exact Il. }
    split; [|split; [|exact Tl]].
    + intros Hbh. exfalso. rewrite Hh in Hbh. cbn [app hd] in Hbh. subst c.
      cbn [app] in Nd. inversion Nd as [|? ? Nin _]. apply Nin.
      apply in_or_app. right. simpl. auto.
    + intros _. split; [exact Ifl|]. pose proof (Rng _ Ifl). lia.
Qed.

(** The blocks a client holds, as the row has them. *)
Lemma held_blocks (s : state) (live : list Z) :
  reachable s live ->
  exists bs fl,
    heap_inv s bs fl
    /\ forall q, In q live ->
         exists szq, In (q, szq, true) (layout (first_hdr s) bs)
                     /\ GET_SIZE s (HDRP q) = szq.
Proof.
  intros R. destruct (reachable_inv s live R) as (bs & fl & I & Hd).
  exists bs, fl. split; [exact I|]. intros q Hq. destruct (Hd q Hq) as [szq Hin].
  exists szq. split; [exact Hin|]. destruct I as (C & _).
  apply (block_reads s bs q szq true C Hin).
Qed.

(** The heap after a block the client holds is freed. *)
Lemma free_outcome (s : state) (live : list Z) (p : Z) :
  reachable s live -> In p live ->
  exists bs fl o bs' fl' b t,
    heap_inv s bs fl /\ In (p, o, true) (layout (first_hdr s) bs)
    /\ GET_SIZE s (HDRP p) = o
    /\ (forall q, In q live ->
          exists szq, In (q, szq, true) (layout (first_hdr s) bs))
    /\ heap_inv (mm_free s p) bs' fl' /\ same_frame s (mm_free s p)
    /\ (forall q szq x, In (q, szq, true) (layout (first_hdr s) bs) -> q <> p ->
          q - 4 <= x -> x + 4 <= q + szq - 4 -> GET (mm_free s p) x = GET s x)
    /\ In (b, t, false) (layout (first_hdr s) bs')
    /\ b <= p /\ p + o <= b + t
    /\ free_listp (mm_free s p) = b
    /\ (GET_ALLOC s (p - 8) = 1 -> b = p).
Proof.
  intros R Hp. destruct (held_blocks s live R) as (bs & fl & I & Hd).
  destruct (Hd p Hp) as (o & Hin & Eo).
  destruct (free_inv s bs fl p o I Hin)
    as (bs' & fl' & I' & SF & _ & _ & K & b & t & B1 & B2 & B3 & B4 & B5).
  exists bs, fl, o, bs', fl', b, t.
  repeat (split; [assumption|]).
  split.
  { intros q Hq. destruct (Hd q Hq) as (szq & Hq' & _). eauto. }
  repeat (split; [assumption|]). assumption.
Qed.

(** Above 2^32 - 16 the 32-bit sum [ALIGN(size) + DSIZE] wraps and the
    adjusted size is the minimum block size. *)
Lemma adjust_wrap (size : Z) :
  4294967280 < size < 4294967296 -> adjust size = 24.
Proof.
  intros H. unfold adjust, MAX, OVERHEAD, DSIZE.
  destruct (Z_le_gt_dec size 4294967288) as [Hs|Hs].
  - pose proof (ALIGN_ge size ltac:(lia) ltac:(lia)) as A.
    pose proof (ALIGN_mod8 size) as M.
    pose proof (Z.div_mod (ALIGN size) 8 ltac:(lia)) as D. rewrite M in D.
    assert (E : ALIGN size = 4294967288) by lia.
    rewrite E. reflexivity.
  - assert (E : ALIGN size = 0).
    { unfold ALIGN, ALIGNMENT, w32. rewrite land_lnot7.
      replace ((size + (8 - 1)) mod 4294967296) with (size + 7 - 4294967296).
      - rewrite Z.div_small by lia. reflexivity.
      - apply Zmod_unique with (q := 1); lia. }
    rewrite E. reflexivity.
Qed.

(** * The claims of the specification *)

(** C9: zero-size and null requests are not errors.  [mm_malloc(0)]
    returns null and leaves the state as it was; [mm_free(NULL)] leaves
    the state as it was; [mm_realloc(p, 0)] frees [p] and returns null,
    which for a null [p] changes nothing.  For a block [p] the client
    holds, the state [mm_realloc(p, 0)] returns has released it: the
    provider's bounds are as before, the client holds the other blocks
    and no longer [p], and the head of the free list is a block tagged
    free that covers all the bytes of the block of [p], and is that
    block itself when the footer before it is tagged allocated. *)
Theorem zero_and_null_requests (fuel : nat) (s : state) (p : Z) :
  mm_malloc fuel s 0 = Some (0, s)
  /\ mm_free s 0 = s
  /\ mm_realloc fuel s p 0 = Some (0, mm_free s p)
  /\ mm_realloc fuel s 0 0 = Some (0, s)
  /\ (forall live, reachable s live -> In p live ->
        exists s',
          mm_realloc fuel s p 0 = Some (0, s')
          /\ same_frame s s'
          /\ reachable s' (remove Z.eq_dec p live)
          /\ GET_ALLOC s' (HDRP (free_listp s')) = 0
          /\ free_listp s' <= p
          /\ p + GET_SIZE s (HDRP p)
             <= free_listp s' + GET_SIZE s' (HDRP (free_listp s'))
          /\ (GET_ALLOC s (p - DSIZE) = 1 ->
              free_listp s' = p /\ GET_ALLOC s' (HDRP p) = 0)).
Proof.
  split; [reflexivity|]. split; [reflexivity|]. split; [reflexivity|].
  split; [reflexivity|].
  intros live R Hp. exists (mm_free s p). split; [reflexivity|].
  destruct (free_outcome s live p R Hp)
    as (bs & fl & o & bs' & fl' & b & t & I & Hin & Eo & Hd & I' & SF & K
        & B1 & B2 & B3 & B4 & B5).
  split; [exact SF|]. split; [apply reach_free; auto|].
  destruct I' as (C' & _). rewrite <- (sf_first_hdr _ _ SF) in B1.
  destruct (block_reads _ _ _ _ _ C' B1) as (_ & _ & R3 & R4 & _).
  rewrite B4, Eo, R3. split; [exact R4|]. split; [exact B2|]. split; [exact B3|].
  intros Ha. specialize (B5 Ha). split; [exact B5|]. rewrite B5 in R4. exact R4.
Qed.

Lemma zero_and_null_requests_witness :
  exists s',
    mm_realloc 10 heap2 4144 0 = Some (0, s')
    /\ same_frame heap2 s'
    /\ reachable s' (remove Z.eq_dec 4144 [4144])
    /\ GET_ALLOC s' (HDRP (free_listp s')) = 0
    /\ free_listp s' <= 4144
    /\ 4144 + GET_SIZE heap2 (HDRP 4144)
       <= free_listp s' + GET_SIZE s' (HDRP (free_listp s'))
    /\ (GET_ALLOC heap2 (4144 - DSIZE) = 1 ->
        free_listp s' = 4144 /\ GET_ALLOC s' (HDRP 4144) = 0).
Proof.
  destruct (zero_and_null_requests 10 heap2 4144) as (_ & _ & _ & _ & H).
  apply (H [4144]).
  - exact heap2_reachable.
  - simpl. auto.
Defined.

(** C10: when the adjusted size of the request equals the size in the
    header of the block, [mm_realloc] returns the pointer it was given
    and the state after the call is the state before it: no heap byte,
    no break and no list head has changed. *)
Theorem realloc_same_size (fuel : nat) (s : state) (p size : Z) :
  p <> 0 -> 0 < size -> GET_SIZE s (HDRP p) = adjust size ->
  mm_realloc fuel s p size = Some (p, s).
Proof.
  intros Hp Hs Ho. unfold mm_realloc.
  replace (size <=? 0) with false by (symmetry; apply Z.leb_gt; lia).
  replace (p =? 0) with false by (symmetry; apply Z.eqb_neq; lia).
  rewrite Ho, Z.eqb_refl. reflexivity.
Qed.

Lemma realloc_same_size_witness :
  mm_realloc 10 heap2 4144 40 = Some (4144, heap2).
Proof.
  apply (realloc_same_size 10 heap2 4144 40).
  - lia.
  - lia.
  - vm_compute. reflexivity.
Defined.

(** C5: [mm_check] answers -1 on every heap the allocator produces, the
    heap right after a successful [mm_init] included.  It hands
    [heap_listp], the address of the alignment pad, to [check_block] as
    if it were a block pointer: the prologue test reads the word before
    the heap, and [check_block] reads the pad word, which is zero, as a
    previous-free link and finds it below the heap. *)
Theorem mm_check_rejects_consistent_heaps
    (s : state) (live : list Z) (fuel : nat) (inclusive : bool) :
  reachable s live -> mm_check fuel inclusive s = Some (-1).
Proof.
  intros R. destruct (reachable_inv s live R) as (bs & fl & (C & _) & _).
  unfold mm_check. rewrite (core_listp _ _ C).
  destruct (negb _ || _); [reflexivity|].
  assert (E : check_block inclusive s (heap_lo s) = -1).
  { unfold check_block.
    destruct (_ || _); [reflexivity|].
    unfold PREV_FREEP at 1. rewrite (core_pad _ _ C). unfold mem_heap_lo.
    replace (0 <? heap_lo s) with true
      by (symmetry; apply Z.ltb_lt; apply (core_lo _ _ C)).
    reflexivity. }
  rewrite E. reflexivity.
Qed.

Lemma mm_check_rejects_consistent_heaps_witness :
  fst (mm_init heap0) = 0 /\ mm_check 10 true heap1 = Some (-1).
Proof.
  split.
  - vm_compute. reflexivity.
  - apply (mm_check_rejects_consistent_heaps heap1 [] 10 true). exact heap1_reachable.
Defined.

(** C8: in every state a client can reach, no free block has a free
    physical neighbour.  The row of blocks that tiles the heap has no two
    free neighbours, and in memory: for every free block the header that
    follows it (of the next block, or the epilogue) has its allocated
    bit set, and the block either is the first one after the prologue or
    follows a footer whose allocated bit is set. *)
Theorem no_adjacent_free_blocks (s : state) (live : list Z) :
  reachable s live ->
  exists bs fl,
    heap_inv s bs fl /\ noadj bs
    /\ forall bp sz, In (bp, sz, false) (layout (first_hdr s) bs) ->
         GET_ALLOC s (HDRP bp) = 0
         /\ GET_ALLOC s (HDRP (NEXT_BLKP s bp)) = 1
         /\ (bp = first_hdr s + 4 \/ GET_ALLOC s (bp - DSIZE) = 1).
Proof.
  intros R. destruct (reachable_inv s live R) as (bs & fl & I & _).
  exists bs, fl. split; [exact I|]. destruct I as (C & L & N). split; [exact N|].
  intros bp sz Hin.
  pose proof (core_geom _ _ C) as G.
  pose proof (geom_block _ _ _ _ _ G Hin) as B.
  destruct (block_reads s bs bp sz false C Hin) as (R1 & R2 & R3 & R4 & R5 & R6 & R7).
  split; [exact R4|].
  destruct (layout_split _ _ _ _ _ Hin) as (rpre & post & Eb & Ebp). subst bs.
  destruct (noadj_parts _ _ _ _ N) as (_ & _ & Hn).
  destruct (Hn eq_refl) as [Hp Hq]. split.
  - rewrite R7. rewrite HDRP_eq by lia.
    destruct post as [|[nsz nal] po].
    + replace (bp + sz - 4) with (heap_brk s - 4).
      * unfold GET_ALLOC. rewrite (core_epilogue _ _ C). reflexivity.
      * rewrite (core_brk _ _ C), total_app, total_rev. unfold first_hdr in Ebp.
        simpl. lia.
    + destruct nal; [|discriminate Hq].
      pose proof (nb_next (first_hdr s) rpre sz false nsz true po) as Hnx.
      destruct (block_reads s _ _ _ _ C Hnx) as (_ & N2 & _).
      replace (bp + sz - 4) with (first_hdr s + total rpre + sz + 4 - 4) by lia.
      pose proof (geom_block _ _ _ _ _ G Hnx) as Bn.
      apply (GET_ALLOC_tag s _ nsz true N2). lia.
  - destruct rpre as [|[psz pal] rp].
    + left. simpl in Ebp. lia.
    + right. destruct pal; [|discriminate Hp].
      pose proof (nb_prev (first_hdr s) psz true rp ((sz, false) :: post)) as Hpv.
      destruct (block_reads s _ _ _ _ C Hpv) as (_ & _ & _ & _ & _ & P6 & _).
      pose proof (geom_block _ _ _ _ _ G Hpv) as Bp.
      unfold DSIZE.
      replace (bp - 8) with (first_hdr s + total rp + 4 + psz - 8)
        by (rewrite Ebp; simpl; lia).
      apply (GET_ALLOC_tag s _ psz true P6). lia.
Qed.

Lemma no_adjacent_free_blocks_witness :
  exists bs fl,
    heap_inv heap2 bs fl /\ noadj bs
    /\ forall bp sz, In (bp, sz, false) (layout (first_hdr heap2) bs) ->
         GET_ALLOC heap2 (HDRP bp) = 0
         /\ GET_ALLOC heap2 (HDRP (NEXT_BLKP heap2 bp)) = 1
         /\ (bp = first_hdr heap2 + 4 \/ GET_ALLOC heap2 (bp - DSIZE) = 1).
Proof. apply (no_adjacent_free_blocks heap2 [4144]). exact heap2_reachable. Defined.

(** C4, as the specification states it, fails at the head of the free
    list: right after a successful [mm_init] the only free block is the
    head, and its previous-free slot holds null, which is below the
    heap. *)
Lemma head_previous_link_is_null :
  fst (mm_init heap0) = 0
  /\ GET_ALLOC heap1 (HDRP (free_listp heap1)) = 0
  /\ PREV_FREEP heap1 (free_listp heap1) = 0
  /\ ~ (mem_heap_lo heap1 <= PREV_FREEP heap1 (free_listp heap1)).
Proof.
  split; [vm_compute; reflexivity|]. split; [vm_compute; reflexivity|].
  split; [vm_compute; reflexivity|].
  replace (PREV_FREEP heap1 (free_listp heap1)) with 0 by (vm_compute; reflexivity).
  replace (mem_heap_lo heap1) with 4096 by (vm_compute; reflexivity). lia.
Qed.

(** C4, amended: in every state a client can reach, the free list is a
    chain of the free blocks of the heap, each inside the heap; the
    next-free slot of every member holds an address inside the heap (of
    the next member, or of the prologue for the last one); the
    previous-free slot of every member but the head holds the address of
    the member before it, inside the heap; the previous-free slot of the
    head holds null. *)
Theorem free_list_links (s : state) (live : list Z) :
  reachable s live ->
  exists bs fl,
    heap_inv s bs fl
    /\ flist s (prologue s) 0 (free_listp s) fl
    /\ forall b, In b fl ->
         GET_ALLOC s (HDRP b) = 0
         /\ mem_heap_lo s <= b < heap_brk s
         /\ mem_heap_lo s <= NEXT_FREEP s b < heap_brk s
         /\ (In (NEXT_FREEP s b) fl \/ NEXT_FREEP s b = prologue s)
         /\ (b = free_listp s -> PREV_FREEP s b = 0)
         /\ (b <> free_listp s ->
             In (PREV_FREEP s b) fl
             /\ mem_heap_lo s <= PREV_FREEP s b < heap_brk s).
Proof.
  intros R. destruct (free_list_facts s live R) as (bs & fl & I & Fl & H).
  exists bs, fl. split; [exact I|]. split; [exact Fl|].
  intros b Hb. destruct (H b Hb) as (A1 & A2 & A3 & A4 & A5 & A6 & _).
  auto 10.
Qed.

Lemma free_list_links_witness :
  exists bs fl,
    heap_inv heap2 bs fl
    /\ flist heap2 (prologue heap2) 0 (free_listp heap2) fl
    /\ forall b, In b fl ->
         GET_ALLOC heap2 (HDRP b) = 0
         /\ mem_heap_lo heap2 <= b < heap_brk heap2
         /\ mem_heap_lo heap2 <= NEXT_FREEP heap2 b < heap_brk heap2
         /\ (In (NEXT_FREEP heap2 b) fl \/ NEXT_FREEP heap2 b = prologue heap2)
         /\ (b = free_listp heap2 -> PREV_FREEP heap2 b = 0)
         /\ (b <> free_listp heap2 ->
             In (PREV_FREEP heap2 b) fl
             /\ mem_heap_lo heap2 <= PREV_FREEP heap2 b < heap_brk heap2).
Proof. apply (free_list_links heap2 [4144]). exact heap2_reachable. Defined.

(** C1: a shrinking [mm_realloc] on a block the client holds.  When the
    tail [o - a] is at most 24 bytes, and so also when it is exactly the
    minimum block size, the call returns [p] and leaves the state as it
    was: the guard of the source is [oldsize - size <= OVERHEAD].  When
    the tail is larger than 24 bytes, [p] heads afterwards an allocated
    block of size exactly [a], and the block behind it is free and
    holds the tail (together with the free block that followed, if there
    was one). *)
Theorem realloc_shrink_threshold
    (s : state) (live : list Z) (fuel : nat) (p size : Z) :
  reachable s live -> In p live -> 0 < size < 4294967296 ->
  adjust size < GET_SIZE s (HDRP p) ->
  (GET_SIZE s (HDRP p) - adjust size <= OVERHEAD ->
   mm_realloc fuel s p size = Some (p, s))
  /\ (OVERHEAD < GET_SIZE s (HDRP p) - adjust size ->
      exists s',
        mm_realloc fuel s p size = Some (p, s')
        /\ GET s' (HDRP p) = PACK (adjust size) 1
        /\ GET s' (FTRP s' p) = PACK (adjust size) 1
        /\ NEXT_BLKP s' p = p + adjust size
        /\ GET_ALLOC s' (HDRP (NEXT_BLKP s' p)) = 0
        /\ GET_SIZE s (HDRP p) - adjust size <= GET_SIZE s' (HDRP (NEXT_BLKP s' p))
        /\ reachable s' (p :: remove Z.eq_dec p live)).
Proof.
  intros R Hin Hsz Hlt.
  destruct (held_block s live p R Hin) as (bs & fl & o & I & Hd & Ho & Eo).
  rewrite Eo in *. pose proof I as (C & L & N).
  pose proof (core_geom _ _ C) as G.
  pose proof (geom_block _ _ _ _ _ G Ho) as B.
  destruct (adjust_spec size) as [[A1 A2] A3]. unfold OVERHEAD in *.
  assert (Hp0 : (p =? 0) = false) by (apply Z.eqb_neq; lia).
  assert (Hs0 : (size <=? 0) = false) by (apply Z.leb_gt; lia).
  split.
  - intros Hr. unfold mm_realloc. rewrite Hs0, Hp0, Eo.
    replace (o =? adjust size) with false by (symmetry; apply Z.eqb_neq; lia).
    replace (adjust size <=? o) with true by (symmetry; apply Z.leb_le; lia).
    rewrite w32_small by lia. unfold OVERHEAD.
    replace (o - adjust size <=? 24) with true by (symmetry; apply Z.leb_le; lia).
    reflexivity.
  - intros Hr.
    destruct (layout_split _ _ _ _ _ Ho) as (rpre & post & Eb & Ebp). subst bs.
    destruct (realloc_shrink fuel s rpre post o size fl C L ltac:(lia) Hr)
      as (s' & E & C' & L' & SF & _).
    rewrite <- Ebp in E. exists s'. split; [exact E|].
    pose proof G as (_ & _ & _ & _ & _ & G6).
    apply sized_app in G6. destruct G6 as [S1 S2]. apply sized_cons in S2.
    destruct S2 as [_ S2].
    destruct (merged_after_alloc (first_hdr s) (adjust size) rpre post (o - adjust size)
                S2 ltac:(lia)) as (sz' & po & M1 & M2 & M3).
    rewrite M1 in C'.
    pose proof (sf_first_hdr _ _ SF) as Fh.
    assert (Hpa : In (p, adjust size, true)
                     (layout (first_hdr s') (rev ((adjust size, true) :: rpre)
                                             ++ (sz', false) :: po))).
    { rewrite Fh, Ebp. apply nb_prev. }
    assert (Hnx : In (p + adjust size, sz', false)
                     (layout (first_hdr s') (rev ((adjust size, true) :: rpre)
                                             ++ (sz', false) :: po))).
    { rewrite Fh.
      replace (p + adjust size)
        with (first_hdr s + total ((adjust size, true) :: rpre) + 4)
        by (rewrite Ebp; simpl; lia).
      apply layout_mid. }
    destruct (block_reads s' _ _ _ _ C' Hpa) as (P1 & P2 & _ & _ & P5 & P6 & P7).
    destruct (block_reads s' _ _ _ _ C' Hnx) as (_ & _ & Q3 & Q4 & _).
    rewrite (PACK_1 _ A3).
    split; [rewrite P1; exact P2|]. split; [rewrite P5; exact P6|].
    split; [exact P7|]. rewrite P7.
    split; [exact Q4|]. split; [rewrite Q3; lia|].
    pose proof (reach_realloc s live fuel p size p s' R (or_intror Hin) ltac:(lia) E) as R'.
    replace (size =? 0) with false in R' by (symmetry; apply Z.eqb_neq; lia).
    rewrite Hp0 in R'. exact R'.
Qed.

Lemma realloc_shrink_threshold_witness :
  GET_SIZE heap2 (HDRP 4144) - adjust 16 = OVERHEAD
  /\ mm_realloc 10 heap2 4144 16 = Some (4144, heap2).
Proof.
  split.
  - vm_compute. reflexivity.
  - refine (proj1 (realloc_shrink_threshold heap2 [4144] 10 4144 16
                     heap2_reachable _ _ _) _).
    + simpl. auto.
    + lia.
    + vm_compute. reflexivity.
    + vm_compute. discriminate.
Defined.

(** ** The first allocation after initialisation *)

Lemma remove_single (x y : Z) : x = y -> remove Z.eq_dec x [y] = [].
Proof. intros E. simpl. destruct (Z.eq_dec x y); [reflexivity|contradiction]. Qed.

Lemma first_malloc (s0 : state) (fuel : nat) :
  fresh_provider s0 -> heap_lo s0 + 104 <= heap_max s0 -> (2 <= fuel)%nat ->
  exists s',
    mm_malloc fuel (snd (mm_init s0)) 24 = Some (heap_lo s0 + 48, s')
    /\ heap_inv s' [(32, true); (24, false)] [heap_lo s0 + 80]
    /\ heap_lo s' = heap_lo s0.
Proof.
  intros Hf Hroom Hfuel.
  destruct (mm_init_spec s0 Hf ltac:(lia)) as (_ & I & E1 & E2 & E3).
  set (s1 := snd (mm_init s0)) in *.
  pose proof I as (C & L & N).
  assert (Fh : first_hdr s1 = heap_lo s0 + 44) by (unfold first_hdr; lia).
  unfold mm_malloc. change (24 <=? 0) with false. cbv iota.
  replace (adjust 24) with 32 by (vm_compute; reflexivity).
  destruct (find_fit_from_spec s1 [(24, false)] 32 C [heap_lo s0 + 48] 0
              (free_listp s1) fuel (hl_flist _ _ _ _ L)
              (fun c Hc => proj1 (hl_sound _ _ _ _ L c Hc)) ltac:(simpl; lia))
    as [[F1 F2]|(l1 & r & l2 & t & X1 & X2 & X3 & X4 & X5)].
  2: { simpl in X3. destruct X3 as [X3|[]]. injection X3 as ? ?. lia. }
  unfold find_fit. rewrite F1. cbn [Z.eqb negb].
  replace (MAX 32 CHUNKSIZE / WSIZE) with 8 by (vm_compute; reflexivity).
  pose proof (extend_heap_spec s1 [(24, false)] [heap_lo s0 + 48] 8
                (core_shape _ _ C) L) as X.
  cbv zeta in X. replace (extend_size 8) with 32 in X by (vm_compute; reflexivity).
  specialize (X ltac:(lia)).
  destruct (extend_heap s1 8) as [bp2 s2]. cbn [fst snd] in X.
  destruct X as (X1 & X2 & X3 & X4 & X5 & X6 & X7 & _).
  unfold merged_bp, merged_row, unlinked, remove_all in X1, X2, X3.
  cbn [rev app merged total fold_left] in X1, X2, X3.
  rewrite remove_single in X3 by lia.
  change (24 + 32) with 56 in X2, X3.
  assert (Fh2 : first_hdr s2 = heap_lo s0 + 44) by (unfold first_hdr; lia).
  assert (Eb : bp2 = heap_lo s0 + 48) by lia.
  replace (first_hdr s1 + 0 + 4) with (heap_lo s0 + 48) in X3 by lia.
  destruct Hf as (_ & Hlo & _).
  replace (bp2 =? 0) with false by (symmetry; apply Z.eqb_neq; lia).
  pose proof (place_split s2 [] [] 56 32 [heap_lo s0 + 48] X2 X3
                ltac:(lia) eq_refl ltac:(lia)) as P.
  cbv zeta in P. destruct P as (P1 & P2 & P3 & _).
  unfold merged_bp, merged_row, unlinked, remove_all in P1, P2.
  cbn [rev app merged total fold_left] in P1, P2.
  rewrite remove_single in P2 by lia.
  change (56 - 32) with 24 in P1, P2.
  cbn [total] in P3.
  assert (Ep : first_hdr s2 + 0 + 4 = heap_lo s0 + 48) by lia.
  rewrite Ep in P1, P2, P3.
  replace (first_hdr s2 + (32 + 0) + 4) with (heap_lo s0 + 80) in P2 by lia.
  rewrite Eb. exists (place s2 (heap_lo s0 + 48) 32). split; [reflexivity|]. split.
  - split; [exact P1|]. split; [exact P2|]. simpl. auto.
  - destruct P3 as (Q1 & _). congruence.
Qed.

(** A request within 15 bytes of 2^32, made right after initialisation,
    is served from the 24-byte block [mm_init] leaves: the adjusted size
    has wrapped to 24 and the first fit takes that block whole. *)
Lemma first_malloc_wrapped (s0 : state) (fuel : nat) (size : Z) :
  fresh_provider s0 -> heap_lo s0 + 72 <= heap_max s0 -> (2 <= fuel)%nat ->
  4294967280 < size < 4294967296 ->
  exists s',
    mm_malloc fuel (snd (mm_init s0)) size = Some (heap_lo s0 + 48, s')
    /\ heap_inv s' [(24, true)] []
    /\ heap_lo s' = heap_lo s0.
Proof.
  intros Hf Hroom Hfuel Hsz.
  destruct (mm_init_spec s0 Hf Hroom) as (_ & I & E1 & E2 & E3).
  set (s1 := snd (mm_init s0)) in *.
  pose proof I as (C & L & N).
  assert (Fh : first_hdr s1 = heap_lo s0 + 44) by (unfold first_hdr; lia).
  assert (Hin : In (heap_lo s0 + 48, 24, false) (layout (first_hdr s1) [(24, false)])).
  { rewrite Fh. simpl. left. f_equal. f_equal. lia. }
  unfold mm_malloc.
  replace (size <=? 0) with false by (symmetry; apply Z.leb_gt; lia).
  rewrite (adjust_wrap size Hsz).
  destruct (find_fit_from_spec s1 [(24, false)] 24 C [heap_lo s0 + 48] 0
              (free_listp s1) fuel (hl_flist _ _ _ _ L)
              (fun c Hc => proj1 (hl_sound _ _ _ _ L c Hc)) ltac:(simpl; lia))
    as [[F1 F2]|(l1 & r & l2 & t & X1 & X2 & X3 & X4 & X5)].
  { specialize (F2 (heap_lo s0 + 48) 24 ltac:(simpl; auto) Hin). lia. }
  assert (Er : r = heap_lo s0 + 48).
  { destruct l1 as [|c l1]; simpl in X1.
    - injection X1 as X1 _. congruence.
    - injection X1 as _ X1. destruct l1; discriminate X1. }
  subst r. unfold find_fit. rewrite X2.
  destruct Hf as (_ & Hlo & _).
  replace (heap_lo s0 + 48 =? 0) with false by (symmetry; apply Z.eqb_neq; lia).
  cbn [negb].
  pose proof (place_whole s1 [] [] 24 24 [heap_lo s0 + 48] C L
                ltac:(lia) ltac:(lia)) as P.
  cbv zeta in P. cbn [rev app total] in P.
  assert (Ep : first_hdr s1 + 0 + 4 = heap_lo s0 + 48) by lia.
  rewrite Ep in P. destruct P as (P1 & P2 & P3 & _).
  rewrite remove_single in P2 by reflexivity.
  exists (place s1 (heap_lo s0 + 48) 24). split; [reflexivity|]. split.
  - split; [exact P1|]. split; [exact P2|]. simpl. auto.
  - destruct P3 as (Q1 & _). congruence.
Qed.

(** The failing input of C6 evaluated: after [mm_init] on the sample
    provider, [mm_malloc(2^32 - 7)] returns 4144, and the block at 4144
    has size 24, that is 16 bytes of payload. *)
Lemma malloc_wraps_on_huge_request :
  fst (mm_init heap0) = 0
  /\ adjust 4294967289 = 24
  /\ exists s', mm_malloc 10 heap1 4294967289 = Some (4144, s')
                /\ GET_SIZE s' (HDRP 4144) = 24.
Proof.
  split; [vm_compute; reflexivity|]. split; [vm_compute; reflexivity|].
  apply (run_result (mm_malloc 10 heap1 4294967289)
           (fun s => GET_SIZE s (HDRP 4144)) 4144 24).
  vm_compute. reflexivity.
Qed.

(** C6: the size of the block [mm_malloc] returns.  In every state a
    client can reach, [mm_malloc] of a request of at least one byte
    returns, and a non-null pointer it returns is 8-aligned and heads an
    allocated block whose header size is at least the adjusted size
    [MAX(ALIGN(size) + DSIZE, OVERHEAD)] the code computes.  For a request
    of at most 2^32 - 16 bytes the block holds the request and both tags.
    For a larger request the code fails its contract, a block with at
    least the requested size of payload: the sum [ALIGN(size) + DSIZE] is
    computed in 32 bits without a check, wraps, and leaves the adjusted
    size 24, so that a block that is returned has fewer than 48 bytes;
    right after [mm_init] on a fresh heap such a request is answered
    with a non-null pointer to a block of 24 bytes, 16 of them payload.
    On the same fresh heap [mm_malloc(24)] returns a non-null, 8-aligned
    pointer whose header records size 32. *)
Theorem malloc_block_size (s0 s : state) (live : list Z) (size : Z) :
  reachable s live -> 0 < size < 4294967296 ->
  fresh_provider s0 -> heap_lo s0 + 104 <= heap_max s0 ->
  (exists fuel0, forall fuel, (fuel0 <= fuel)%nat ->
     exists p s',
       mm_malloc fuel s size = Some (p, s')
       /\ (p <> 0 ->
           p mod 8 = 0
           /\ GET_ALLOC s' (HDRP p) = 1
           /\ adjust size <= GET_SIZE s' (HDRP p)
           /\ (size <= 4294967280 -> size + DSIZE <= GET_SIZE s' (HDRP p))
           /\ (4294967280 < size ->
               adjust size = 24 /\ GET_SIZE s' (HDRP p) < 48
               /\ GET_SIZE s' (HDRP p) - DSIZE < size)))
  /\ (fst (mm_init s0) = 0
      /\ forall fuel, (2 <= fuel)%nat ->
           exists p s',
             mm_malloc fuel (snd (mm_init s0)) 24 = Some (p, s')
             /\ p <> 0 /\ p mod 8 = 0
             /\ GET_SIZE s' (HDRP p) = 32 /\ GET_ALLOC s' (HDRP p) = 1)
  /\ (4294967280 < size ->
      forall fuel, (2 <= fuel)%nat ->
        exists p s',
          mm_malloc fuel (snd (mm_init s0)) size = Some (p, s')
          /\ p <> 0 /\ p mod 8 = 0
          /\ GET_ALLOC s' (HDRP p) = 1
          /\ GET_SIZE s' (HDRP p) = 24
          /\ GET_SIZE s' (HDRP p) - DSIZE < size).
Proof.
  intros R Hsz Hf Hroom. split; [|split].
  - destruct (reachable_inv s live R) as (bs & fl & I & _).
    exists (S (length fl)). intros fuel Hfuel.
    destruct (malloc_spec s bs fl fuel size I ltac:(lia) ltac:(lia))
      as (p & s' & E & [(P0 & _)|(P1 & bs' & fl' & sz & I' & Q1 & Q2 & _ & _ & Q5
                                  & _ & _ & Q8 & _)]).
    + exists p, s'. split; [exact E|]. intros Hp. contradiction.
    + exists p, s'. split; [exact E|]. intros _.
      destruct I' as (C' & _).
      assert (Hin : In (p, sz, true) (layout (first_hdr s') bs')).
      { replace (first_hdr s') with (first_hdr s) by (unfold first_hdr; congruence).
        apply Q5. left. auto. }
      pose proof (geom_block _ _ _ _ _ (core_geom _ _ C') Hin) as B.
      destruct (block_reads s' bs' p sz true C' Hin) as (_ & _ & R3 & R4 & _).
      rewrite R3. split; [apply B|]. split; [exact R4|]. split; [exact Q1|].
      split.
      * intros Hs. pose proof (adjust_ge size ltac:(lia) ltac:(lia)). lia.
      * intros Hs. pose proof (adjust_wrap size ltac:(lia)) as W.
        unfold DSIZE. lia.
  - destruct (mm_init_spec s0 Hf ltac:(lia)) as (E0 & _).
    split; [exact E0|]. intros fuel Hfuel.
    destruct (first_malloc s0 fuel Hf Hroom Hfuel) as (s' & E & (C & _) & El).
    exists (heap_lo s0 + 48), s'. split; [exact E|].
    assert (Hin : In (heap_lo s0 + 48, 32, true)
                     (layout (first_hdr s') [(32, true); (24, false)])).
    { unfold first_hdr. rewrite El. simpl. left. f_equal. f_equal. lia. }
    pose proof (geom_block _ _ _ _ _ (core_geom _ _ C) Hin) as B.
    destruct (block_reads s' _ _ _ _ C Hin) as (_ & _ & R3 & R4 & _).
    split; [lia|]. split; [apply B|]. split; [exact R3|exact R4].
  - intros Hs fuel Hfuel.
    destruct (first_malloc_wrapped s0 fuel size Hf ltac:(lia) Hfuel ltac:(lia))
      as (s' & E & (C & _) & El).
    exists (heap_lo s0 + 48), s'. split; [exact E|].
    assert (Hin : In (heap_lo s0 + 48, 24, true)
                     (layout (first_hdr s') [(24, true)])).
    { unfold first_hdr. rewrite El. simpl. left. f_equal. f_equal. lia. }
    pose proof (geom_block _ _ _ _ _ (core_geom _ _ C) Hin) as B.
    destruct (block_reads s' _ _ _ _ C Hin) as (_ & _ & R3 & R4 & _).
    rewrite R3. split; [lia|]. split; [apply B|]. split; [exact R4|].
    split; [reflexivity|]. unfold DSIZE. lia.
Qed.

Lemma malloc_block_size_witness :
  (exists fuel0, forall fuel, (fuel0 <= fuel)%nat ->
     exists p s',
       mm_malloc fuel heap1 4294967289 = Some (p, s')
       /\ (p <> 0 ->
           p mod 8 = 0
           /\ GET_ALLOC s' (HDRP p) = 1
           /\ adjust 4294967289 <= GET_SIZE s' (HDRP p)
           /\ (4294967289 <= 4294967280 -> 4294967289 + DSIZE <= GET_SIZE s' (HDRP p))
           /\ (4294967280 < 4294967289 ->
               adjust 4294967289 = 24 /\ GET_SIZE s' (HDRP p) < 48
               /\ GET_SIZE s' (HDRP p) - DSIZE < 4294967289)))
  /\ (fst (mm_init heap0) = 0
      /\ forall fuel, (2 <= fuel)%nat ->
           exists p s',
             mm_malloc fuel (snd (mm_init heap0)) 24 = Some (p, s')
             /\ p <> 0 /\ p mod 8 = 0
             /\ GET_SIZE s' (HDRP p) = 32 /\ GET_ALLOC s' (HDRP p) = 1)
  /\ (4294967280 < 4294967289 ->
      forall fuel, (2 <= fuel)%nat ->
        exists p s',
          mm_malloc fuel (snd (mm_init heap0)) 4294967289 = Some (p, s')
          /\ p <> 0 /\ p mod 8 = 0
          /\ GET_ALLOC s' (HDRP p) = 1
          /\ GET_SIZE s' (HDRP p) = 24
          /\ GET_SIZE s' (HDRP p) - DSIZE < 4294967289).
Proof.
  apply (malloc_block_size heap0 heap1 [] 4294967289).
  - exact heap1_reachable.
  - lia.
  - exact heap0_fresh.
  - vm_compute. discriminate.
Defined.

(** C2, as the specification states it, fails on the copy length: the
    source hands [memcpy] the smaller of [size] and the old block size,
    tags included.  Growing the 48-byte block at 4144 to 100 bytes
    copies 48 bytes where the specification has 40, and the byte at
    offset 40 of the new block, zero after [mm_malloc], holds the low
    byte of the old footer after [mm_realloc]. *)
Lemma realloc_copies_past_the_payload :
  realloc_copy_length 100 (GET_SIZE heap2 (HDRP 4144)) = 48
  /\ spec_copy_length 100 (GET_SIZE heap2 (HDRP 4144)) = 40
  /\ exists s1 s',
       mm_malloc 10 heap2 100 = Some (4192, s1)
       /\ mm_realloc 10 heap2 4144 100 = Some (4192, s')
       /\ mem s1 (4192 + 40) = 0
       /\ mem heap2 (4144 + 40) = 49
       /\ mem s' (4192 + 40) = 49.
Proof.
  split; [vm_compute; reflexivity|]. split; [vm_compute; reflexivity|].
  destruct (run_result (mm_malloc 10 heap2 100) (fun s => mem s 4232) 4192 0)
    as (s1 & E1 & M1); [vm_compute; reflexivity|].
  destruct (run_result (mm_realloc 10 heap2 4144 100) (fun s => mem s 4232) 4192 49)
    as (s' & E2 & M2); [vm_compute; reflexivity|].
  exists s1, s'. change (4192 + 40) with 4232.
  split; [exact E1|]. split; [exact E2|]. split; [exact M1|].
  split; [vm_compute; reflexivity|exact M2].
Qed.

(** C2, amended: a growing [mm_realloc] on a block the client holds,
    given enough fuel for the search of the free list, first calls
    [mm_malloc(size)].  If that returns null, [mm_realloc] returns null
    and the state is the one before the call.  Otherwise it copies
    [min(size, o)] bytes from [p] to the new block, where [o] is the
    size in the header of the old block (tags included), frees [p], and
    returns the new pointer, which differs from [p]. *)
Theorem realloc_grow (s : state) (live : list Z) (p size : Z) :
  reachable s live -> In p live -> 0 < size < 4294967296 ->
  GET_SIZE s (HDRP p) < adjust size ->
  exists fuel0, forall fuel, (fuel0 <= fuel)%nat ->
    exists q s1,
      mm_malloc fuel s size = Some (q, s1)
      /\ ((q = 0 /\ s1 = s /\ mm_realloc fuel s p size = Some (0, s))
          \/ (q <> 0 /\ q <> p
              /\ mm_realloc fuel s p size
                 = Some (q, mm_free
                              (set_mem s1
                                 (copy_bytes (mem s1) q p
                                    (Z.min size (GET_SIZE s (HDRP p))))) p))).
Proof.
  intros R Hin Hsz Hlt.
  destruct (held_block s live p R Hin) as (bs & fl & o & I & Hd & Ho & Eo).
  rewrite Eo in *. pose proof I as (C & L & N).
  pose proof (geom_block _ _ _ _ _ (core_geom _ _ C) Ho) as B.
  exists (S (length fl)). intros fuel Hfuel.
  assert (U : mm_realloc fuel s p size =
              match mm_malloc fuel s size with
              | None => None
              | Some (newbp, s1) =>
                  if newbp =? 0 then Some (0, s1)
                  else Some (newbp,
                             mm_free (set_mem s1 (copy_bytes (mem s1) newbp p
                                                    (Z.min size o))) p)
              end).
  { unfold mm_realloc.
    replace (size <=? 0) with false by (symmetry; apply Z.leb_gt; lia).
    replace (p =? 0) with false by (symmetry; apply Z.eqb_neq; lia).
    rewrite Eo.
    replace (o =? adjust size) with false by (symmetry; apply Z.eqb_neq; lia).
    replace (adjust size <=? o) with false by (symmetry; apply Z.leb_gt; lia).
    rewrite realloc_copy_length_min. reflexivity. }
  destruct (malloc_spec s bs fl fuel size I ltac:(lia) ltac:(lia))
    as (q & s1 & E & [(P0 & P1 & _)|(P1 & bs' & fl' & sz & _ & _ & _ & _ & _ & _ & Q6 & _)]).
  - exists q, s1. split; [exact E|]. left. subst q s1.
    split; [reflexivity|]. split; [reflexivity|]. rewrite U, E. reflexivity.
  - exists q, s1. split; [exact E|]. right. split; [exact P1|]. split.
    + intros ->. exact (Q6 o Ho).
    + rewrite U, E. replace (q =? 0) with false by (symmetry; apply Z.eqb_neq; lia).
      reflexivity.
Qed.

Lemma realloc_grow_witness :
  exists fuel0, forall fuel, (fuel0 <= fuel)%nat ->
    exists q s1,
      mm_malloc fuel heap2 100 = Some (q, s1)
      /\ ((q = 0 /\ s1 = heap2 /\ mm_realloc fuel heap2 4144 100 = Some (0, heap2))
          \/ (q <> 0 /\ q <> 4144
              /\ mm_realloc fuel heap2 4144 100
                 = Some (q, mm_free
                              (set_mem s1
                                 (copy_bytes (mem s1) q 4144
                                    (Z.min 100 (GET_SIZE heap2 (HDRP 4144))))) 4144))).
Proof.
  apply (realloc_grow heap2 [4144] 4144 100).
  - exact heap2_reachable.
  - simpl. auto.
  - lia.
  - vm_compute. reflexivity.
Defined.

(** C3, as the specification states it, fails on the chunk: [CHUNKSIZE]
    is 16 bytes.  [mm_init] grows the 48-byte heap by 24 bytes, not by
    64, and [mm_malloc(24)], finding no fit for its 32 bytes, grows the
    heap by 32 bytes, not by 64. *)
Lemma heap_grows_by_less_than_64_bytes :
  fst (mm_init heap0) = 0
  /\ heap_brk heap1 = heap_lo heap0 + 2 * OVERHEAD + 24
  /\ find_fit 10 heap1 (adjust 24) = Some 0
  /\ exists s', mm_malloc 10 heap1 24 = Some (4144, s')
                /\ heap_brk s' = heap_brk heap1 + 32.
Proof.
  split; [vm_compute; reflexivity|]. split; [vm_compute; reflexivity|].
  split; [vm_compute; reflexivity|].
  destruct (run_result (mm_malloc 10 heap1 24) heap_brk 4144 4200)
    as (s' & E1 & B1); [vm_compute; reflexivity|].
  exists s'. split; [exact E1|]. rewrite B1. vm_compute. reflexivity.
Qed.

(** C3, amended: [CHUNKSIZE] is 16 bytes.  After laying out the prologue
    and the epilogue, [mm_init] asks the extender for [CHUNKSIZE / WSIZE]
    = 4 words, which the extender raises to the minimum block size, so
    the heap grows by 24 bytes.  When [mm_malloc] finds no fit in a
    state a client can reach and the provider has room, it grows the
    heap by [MAX(a, CHUNKSIZE)] bytes, which is the adjusted size [a]
    itself, and returns a block. *)
Theorem heap_growth (s0 s : state) (live : list Z) (fuel : nat) (size : Z) :
  fresh_provider s0 -> heap_lo s0 + 72 <= heap_max s0 ->
  reachable s live -> 0 < size < 4294967296 ->
  find_fit fuel s (adjust size) = Some 0 ->
  heap_brk s + adjust size <= heap_max s ->
  (fst (mm_init s0) = 0
   /\ extend_size (CHUNKSIZE / WSIZE) = 24
   /\ heap_brk (snd (mm_init s0)) = heap_lo s0 + 2 * OVERHEAD + 24)
  /\ (MAX (adjust size) CHUNKSIZE = adjust size
      /\ exists p s',
           mm_malloc fuel s size = Some (p, s') /\ p <> 0
           /\ heap_brk s' = heap_brk s + adjust size).
Proof.
  intros Hf Hroom0 R Hsz Hfit Hroom. split.
  - destruct (mm_init_spec s0 Hf Hroom0) as (E0 & _ & _ & _ & Eb).
    split; [exact E0|]. split; [vm_compute; reflexivity|].
    unfold OVERHEAD. lia.
  - split; [apply MAX_adjust|].
    destruct (reachable_inv s live R) as (bs & fl & I & _).
    pose proof I as (C & L & N).
    set (F := Nat.max fuel (S (length fl))).
    assert (Ef : find_fit F s (adjust size) = Some 0).
    { apply (find_fit_from_mono s (adjust size) fuel F _ _ Hfit). unfold F. lia. }
    assert (Em : mm_malloc fuel s size = mm_malloc F s size).
    { unfold mm_malloc. rewrite Hfit, Ef. reflexivity. }
    rewrite Em.
    destruct (malloc_spec s bs fl F size I ltac:(lia) ltac:(unfold F; lia))
      as (p & s' & E & [(_ & _ & P2 & _)|(P1 & bs' & fl' & sz & _ & _ & _ & _ & _ & _ & _
                                           & [(_ & t & T1 & T2)|(Q7 & _)] & _)]).
    + lia.
    + exfalso.
      destruct (find_fit_from_spec s bs (adjust size) C fl 0 (free_listp s) F
                  (hl_flist _ _ _ _ L)
                  (fun c Hc => proj1 (hl_sound _ _ _ _ L c Hc)) ltac:(unfold F; lia))
        as [[_ F2]|(l1 & r & l2 & u & _ & X2 & X3 & _)].
      * pose proof (F2 p t (heap_list_In _ _ _ _ _ L T1) T1). lia.
      * unfold find_fit in Ef. rewrite Ef in X2. injection X2 as X2. subst r.
        pose proof (geom_block _ _ _ _ _ (core_geom _ _ C) X3). lia.
    + exists p, s'. auto.
Qed.

Lemma heap_growth_witness :
  (fst (mm_init heap0) = 0
   /\ extend_size (CHUNKSIZE / WSIZE) = 24
   /\ heap_brk (snd (mm_init heap0)) = heap_lo heap0 + 2 * OVERHEAD + 24)
  /\ (MAX (adjust 24) CHUNKSIZE = adjust 24
      /\ exists p s',
           mm_malloc 10 heap1 24 = Some (p, s') /\ p <> 0
           /\ heap_brk s' = heap_brk heap1 + adjust 24).
Proof.
  apply (heap_growth heap0 heap1 [] 10 24).
  - exact heap0_fresh.
  - vm_compute. discriminate.
  - exact heap1_reachable.
  - lia.
  - vm_compute. reflexivity.
  - vm_compute. discriminate.
Defined.

(** C7: the coalescer, given a block [bp] of size [sz] whose tags are
    free and which is not in the free list, between the blocks [rpre]
    before it (nearest first) and [post] after it.  With both neighbours
    allocated the block keeps its extent; with only the next one free
    that block is unlinked and the block grows by its size; with only
    the previous one free that block is unlinked, the result starts
    there and has both sizes; with both free both are unlinked and the
    result starts at the previous block and has the three sizes.  In
    every case the result is returned, its header and footer hold the
    merged size with the allocated bit clear, it is the head of the free
    list, and the heap is a well-tagged row whose free list holds exactly
    its free blocks. *)
Theorem coalesce_cases
    (s : state) (rpre post : list (Z * bool)) (sz : Z) (fl : list Z) :
  let bp := first_hdr s + total rpre + 4 in
  heap_core s (rev rpre ++ (sz, false) :: post) ->
  heap_list s (rev rpre ++ (sz, false) :: post) fl [bp] ->
  exists rp sz' po fl',
    match rpre, post with
    | (psz, false) :: rp0, (nsz, false) :: po0 =>
        rp = rp0 /\ sz' = psz + sz + nsz /\ po = po0
        /\ fst (coalesce s bp) = bp - psz
        /\ fl' = remove Z.eq_dec (bp + sz) (remove Z.eq_dec (bp - psz) fl)
    | (psz, false) :: rp0, _ =>
        rp = rp0 /\ sz' = psz + sz /\ po = post
        /\ fst (coalesce s bp) = bp - psz
        /\ fl' = remove Z.eq_dec (bp - psz) fl
    | _, (nsz, false) :: po0 =>
        rp = rpre /\ sz' = sz + nsz /\ po = po0
        /\ fst (coalesce s bp) = bp
        /\ fl' = remove Z.eq_dec (bp + sz) fl
    | _, _ =>
        rp = rpre /\ sz' = sz /\ po = post
        /\ fst (coalesce s bp) = bp
        /\ fl' = fl
    end
    /\ heap_core (snd (coalesce s bp)) (rev rp ++ (sz', false) :: po)
    /\ heap_list (snd (coalesce s bp)) (rev rp ++ (sz', false) :: po)
         (fst (coalesce s bp) :: fl') []
    /\ free_listp (snd (coalesce s bp)) = fst (coalesce s bp)
    /\ GET (snd (coalesce s bp)) (HDRP (fst (coalesce s bp))) = PACK sz' 0
    /\ GET (snd (coalesce s bp)) (FTRP (snd (coalesce s bp)) (fst (coalesce s bp)))
       = PACK sz' 0.
Proof.
  intros bp C L.
  pose proof (coalesce_spec s rpre post sz fl C L) as (E & C' & L' & _).
  fold bp in E, C', L'.
  assert (K : forall rp sz' po fl',
             merged rpre sz post = (rp, sz', po) ->
             remove_all (unlinked (first_hdr s) rpre sz post) fl = fl' ->
             heap_core (snd (coalesce s bp)) (rev rp ++ (sz', false) :: po)
             /\ heap_list (snd (coalesce s bp)) (rev rp ++ (sz', false) :: po)
                  (fst (coalesce s bp) :: fl') []
             /\ free_listp (snd (coalesce s bp)) = fst (coalesce s bp)
             /\ GET (snd (coalesce s bp)) (HDRP (fst (coalesce s bp))) = PACK sz' 0
             /\ GET (snd (coalesce s bp))
                  (FTRP (snd (coalesce s bp)) (fst (coalesce s bp))) = PACK sz' 0).
  { intros rp sz' po fl' Em Er.
    unfold merged_row in C', L'. unfold merged_bp in E, L'.
    rewrite Em in *. rewrite Er in L'. rewrite <- E in L'.
    split; [exact C'|]. split; [exact L'|].
    pose proof (flist_head _ _ _ _ _ (hl_flist _ _ _ _ L')) as Hh. cbn [hd] in Hh.
    split; [exact Hh|].
    assert (Hin : In (fst (coalesce s bp), sz', false)
                     (layout (first_hdr (snd (coalesce s bp)))
                        (rev rp ++ (sz', false) :: po))).
    { rewrite (sf_first_hdr _ _ (sf_coalesce s bp)). rewrite E. apply layout_mid. }
    pose proof (geom_block _ _ _ _ _ (core_geom _ _ C') Hin) as B.
    destruct (block_reads _ _ _ _ _ C' Hin) as (R1 & R2 & _ & _ & R5 & R6 & _).
    rewrite (PACK_0 sz') by apply B. rewrite R1, R5. auto. }
  destruct rpre as [|[psz [|]] rp0]; destruct post as [|[nsz [|]] po0];
    eexists _, _, _, _;
    (split; [|apply K; reflexivity]);
    repeat (split; [reflexivity|]);
    unfold merged_bp in E; cbn [merged] in E; rewrite E;
    unfold unlinked, remove_all; cbn [app fold_left total];
    unfold bp; cbn [total].
  all: try (split; [lia|]).
  all: try (split; [reflexivity|]).
  all: try reflexivity; try lia.
  all: repeat (f_equal; try lia).
Qed.

Lemma coalesce_cases_witness :
  fst (coalesce heap2_pending 4144) = 4144
  /\ free_listp (snd (coalesce heap2_pending 4144)) = 4144
  /\ GET (snd (coalesce heap2_pending 4144)) (HDRP 4144) = PACK (48 + 24) 0
  /\ heap_core (snd (coalesce heap2_pending 4144)) [(48 + 24, false)]
  /\ heap_list (snd (coalesce heap2_pending 4144)) [(48 + 24, false)] [4144] [].
Proof.
  assert (Eb : first_hdr heap2_pending + total [] + 4 = 4144) by (vm_compute; reflexivity).
  pose proof (coalesce_cases heap2_pending [] [(24, false)] 48 [4192]) as W.
  cbv zeta in W. rewrite Eb in W.
  destruct (W heap2_pending_core heap2_pending_list)
    as (rp & sz' & po & fl' & (H1 & H2 & H3 & H4 & H5) & C & L & F & T & _).
  subst rp sz' po fl'. rewrite H4 in *.
  rewrite remove_single in L by reflexivity.
  split; [reflexivity|]. split; [exact F|]. split; [exact T|].
  split; [exact C|exact L].
Defined.

(** ** Outcomes of a call whatever fuel made it return *)

Lemma malloc_outcome (s : state) (bs : list (Z * bool)) (fl : list Z)
      (fuel : nat) (size p : Z) (s' : state) :
  heap_inv s bs fl -> 0 < size -> mm_malloc fuel s size = Some (p, s') ->
  (p = 0 /\ s' = s /\ heap_brk s + adjust size > heap_max s
   /\ forall c sz, In (c, sz, false) (layout (first_hdr s) bs) -> sz < adjust size)
  \/ (p <> 0 /\ exists bs' fl' sz,
        heap_inv s' bs' fl' /\ adjust size <= sz
        /\ heap_lo s' = heap_lo s /\ heap_max s' = heap_max s
        /\ heap_listp s' = heap_listp s
        /\ (forall q szq, In (q, szq, true) (layout (first_hdr s) bs') <->
                          (q = p /\ szq = sz) \/
                          In (q, szq, true) (layout (first_hdr s) bs))
        /\ (forall sz0, ~ In (p, sz0, true) (layout (first_hdr s) bs))
        /\ ((heap_brk s' = heap_brk s
             /\ exists t, In (p, t, false) (layout (first_hdr s) bs)
                          /\ adjust size <= t)
            \/ (heap_brk s' = heap_brk s + adjust size
                /\ forall c t, In (c, t, false) (layout (first_hdr s) bs) ->
                               t < adjust size))
        /\ sz < adjust size + 24
        /\ keeps s s' bs).
Proof.
  intros I Hsz E.
  set (F := Nat.max fuel (S (length fl))).
  pose proof (mm_malloc_mono s size fuel F _ E ltac:(unfold F; lia)) as E'.
  destruct (malloc_spec s bs fl F size I Hsz ltac:(unfold F; lia)) as (p2 & s2 & E2 & H).
  rewrite E' in E2. injection E2 as <- <-. exact H.
Qed.

Lemma realloc_outcome (s : state) (bs : list (Z * bool)) (fl : list Z)
      (fuel : nat) (p o size q : Z) (s' : state) :
  heap_inv s bs fl -> In (p, o, true) (layout (first_hdr s) bs) ->
  0 < size < 4294967296 -> mm_realloc fuel s p size = Some (q, s') ->
  (q = p /\ s' = s /\ adjust size <= o /\ o - adjust size <= 24)
  \/ (q = p /\ 24 < o - adjust size /\ exists bs' fl',
        heap_inv s' bs' fl' /\ same_frame s s'
        /\ (forall r szr, In (r, szr, true) (layout (first_hdr s) bs') <->
                          (r = p /\ szr = adjust size)
                          \/ (r <> p /\ In (r, szr, true) (layout (first_hdr s) bs)))
        /\ (forall r szr x, In (r, szr, true) (layout (first_hdr s) bs) -> r <> p ->
              r - 4 <= x -> x + 4 <= r + szr - 4 -> GET s' x = GET s x)
        /\ (forall x, p <= x -> x + 4 <= p + adjust size - 8 ->
              GET s' x = GET s x))
  \/ (q = 0 /\ s' = s /\ o < adjust size
      /\ heap_brk s + adjust size > heap_max s)
  \/ (q <> 0 /\ q <> p /\ o < adjust size /\ exists bs' fl' sz,
        heap_inv s' bs' fl' /\ adjust size <= sz
        /\ heap_lo s' = heap_lo s /\ heap_max s' = heap_max s
        /\ heap_listp s' = heap_listp s
        /\ (forall r szr, In (r, szr, true) (layout (first_hdr s) bs') <->
                          (r = q /\ szr = sz)
                          \/ (r <> p /\ In (r, szr, true) (layout (first_hdr s) bs)))
        /\ (forall r szr x, In (r, szr, true) (layout (first_hdr s) bs) -> r <> p ->
              r - 4 <= x -> x + 4 <= r + szr - 4 -> GET s' x = GET s x)
        /\ (forall i, 0 <= i -> i + 4 <= Z.min size (o - 8) ->
              GET s' (q + i) = GET s (p + i))).
Proof.
  intros I Hin Hsz E.
  set (F := Nat.max fuel (S (length fl))).
  pose proof (mm_realloc_mono s p size fuel F _ E ltac:(unfold F; lia)) as E'.
  destruct (realloc_spec s bs fl F p o size I Hin Hsz ltac:(unfold F; lia))
    as (q2 & s2 & E2 & H).
  rewrite E' in E2. injection E2 as <- <-. exact H.
Qed.

(** * Further properties of the code *)

(** ** The word and tag macros *)

(** X1: a word stored with [PUT] is the word [GET] loads from the same
    address, and the store leaves every word that does not overlap it as
    it was. *)
Theorem put_get_round_trip (s : state) (p v q : Z) :
  0 <= v < 4294967296 -> q + 4 <= p \/ p + 4 <= q ->
  GET (PUT s p v) p = v /\ GET (PUT s p v) q = GET s q.
Proof.
  intros Hv Hq. split.
  - rewrite GET_PUT_same. apply w32_small. exact Hv.
  - apply GET_PUT_other. lia.
Qed.

Lemma put_get_round_trip_witness :
  GET (PUT heap1 4140 49) 4140 = 49 /\ GET (PUT heap1 4140 49) 4144 = GET heap1 4144.
Proof. apply (put_get_round_trip heap1 4140 49 4144); lia. Defined.

(** X2: a boundary tag packed from a block size (a multiple of 8) and an
    allocated bit gives both back: [GET_SIZE] and [GET_ALLOC] of the
    stored [PACK(size, alloc)] are [size] and [alloc]. *)
Theorem tag_round_trip (s : state) (p size alloc : Z) :
  0 <= size < 4294967296 -> size mod 8 = 0 -> alloc = 0 \/ alloc = 1 ->
  GET_SIZE (PUT s p (PACK size alloc)) p = size
  /\ GET_ALLOC (PUT s p (PACK size alloc)) p = alloc.
Proof.
  intros Hs Hm Ha.
  assert (Hlt : size + alloc < 4294967296).
  { pose proof (Z.div_mod size 8 ltac:(lia)) as D. rewrite Hm in D. lia. }
  assert (E : exists al, alloc = b2z al).
  { destruct Ha as [-> | ->]; [exists false|exists true]; reflexivity. }
  destruct E as [al ->].
  assert (G : GET (PUT s p (PACK size (b2z al))) p = size + b2z al).
  { rewrite GET_PUT_same, PACK_add by exact Hm. apply w32_small.
    pose proof (tag_range size al). lia. }
  split.
  - apply (GET_SIZE_tag _ _ size al G Hm).
  - apply (GET_ALLOC_tag _ _ size al G Hm).
Qed.

Lemma tag_round_trip_witness :
  GET_SIZE (PUT heap1 4140 (PACK 48 1)) 4140 = 48
  /\ GET_ALLOC (PUT heap1 4140 (PACK 48 1)) 4140 = 1.
Proof. apply (tag_round_trip heap1 4140 48 1); [lia|reflexivity|auto]. Defined.

(** X3: [ALIGN] rounds a size up to the next multiple of 8 as long as
    [size + 7] fits 32 bits, and wraps to 0 above that. *)
Theorem ALIGN_rounds_up (size : Z) :
  0 <= size < 4294967296 ->
  ALIGN size mod 8 = 0
  /\ (size <= 4294967288 -> size <= ALIGN size < size + 8)
  /\ (4294967288 < size -> ALIGN size = 0).
Proof.
  intros Hs. split; [apply ALIGN_mod8|]. split.
  - intros H. pose proof (ALIGN_ge size ltac:(lia) ltac:(lia)). lia.
  - intros H. unfold ALIGN, ALIGNMENT, w32. rewrite land_lnot7.
    replace ((size + (8 - 1)) mod 4294967296) with (size + 7 - 4294967296).
    + rewrite Z.div_small by lia. reflexivity.
    + apply Zmod_unique with (q := 1); lia.
Qed.

Lemma ALIGN_rounds_up_witness :
  ALIGN 13 mod 8 = 0
  /\ (13 <= 4294967288 -> 13 <= ALIGN 13 < 13 + 8)
  /\ (4294967288 < 13 -> ALIGN 13 = 0).
Proof. apply (ALIGN_rounds_up 13). lia. Defined.

(** X4: the adjusted size both [mm_malloc] and [mm_realloc] compute is
    a multiple of 8 of at least the minimum block size, and for a
    request of at most 2^32 - 16 bytes it holds the request and the two
    tags with less than 8 bytes of padding, unless the minimum block
    size is larger. *)
Theorem adjust_bounds (size : Z) :
  0 <= size <= 4294967280 ->
  OVERHEAD <= adjust size < 4294967296 /\ adjust size mod 8 = 0
  /\ size + DSIZE <= adjust size
  /\ adjust size = Z.max OVERHEAD (ALIGN size + DSIZE)
  /\ adjust size < Z.max (OVERHEAD + 1) (size + 2 * DSIZE).
Proof.
  intros Hs. pose proof (adjust_spec size) as [A B].
  pose proof (adjust_ge size ltac:(lia) ltac:(lia)) as Gs.
  pose proof (ALIGN_ge size ltac:(lia) ltac:(lia)) as Al.
  assert (E : adjust size = Z.max OVERHEAD (ALIGN size + DSIZE)).
  { unfold adjust, MAX, OVERHEAD, DSIZE in *. rewrite w32_small by lia.
    destruct (ALIGN size + 8 >? 24) eqn:F.
    - apply Z.gtb_lt in F. lia.
    - assert (ALIGN size + 8 <= 24)
        by (destruct (Z.gtb_spec (ALIGN size + 8) 24); [discriminate|lia]).
      lia. }
  split; [exact A|]. split; [exact B|]. split; [exact Gs|]. split; [exact E|].
  rewrite E. unfold OVERHEAD, DSIZE. lia.
Qed.

Lemma adjust_bounds_witness :
  OVERHEAD <= adjust 100 < 4294967296 /\ adjust 100 mod 8 = 0
  /\ 100 + DSIZE <= adjust 100
  /\ adjust 100 = Z.max OVERHEAD (ALIGN 100 + DSIZE)
  /\ adjust 100 < Z.max (OVERHEAD + 1) (100 + 2 * DSIZE).
Proof. apply (adjust_bounds 100). lia. Defined.

(** X5: the extender asks the provider for an even number of words of at
    least the minimum block size: for a word count below 2^30 - 1 the
    byte count is the count rounded up to an even number of words, or
    24 if that is smaller. *)
Theorem extend_size_rounding (words : Z) :
  0 <= words < 1073741823 ->
  extend_size words = Z.max OVERHEAD (WSIZE * (words + words mod 2))
  /\ extend_size words mod 8 = 0.
Proof.
  intros Hw. split; [|apply extend_size_ok].
  unfold extend_size, w32, WSIZE, OVERHEAD.
  pose proof (Z.mod_pos_bound words 2 ltac:(lia)) as Bm.
  destruct (words mod 2 =? 0) eqn:E; cbn [negb].
  - apply Z.eqb_eq in E. rewrite E.
    rewrite (Z.mod_small (words * 4)) by lia.
    destruct (words * 4 <? 24) eqn:F.
    + apply Z.ltb_lt in F. lia.
    + apply Z.ltb_ge in F. lia.
  - apply Z.eqb_neq in E. assert (Ew : words mod 2 = 1) by lia. rewrite Ew.
    rewrite (Z.mod_small (words + 1)) by lia.
    rewrite (Z.mod_small ((words + 1) * 4)) by lia.
    destruct ((words + 1) * 4 <? 24) eqn:F.
    + apply Z.ltb_lt in F. lia.
    + apply Z.ltb_ge in F. lia.
Qed.

Lemma extend_size_rounding_witness :
  extend_size 7 = Z.max OVERHEAD (WSIZE * (7 + 7 mod 2))
  /\ extend_size 7 mod 8 = 0.
Proof. apply (extend_size_rounding 7). lia. Defined.

(** ** The free list *)

(** X6: unlinking a member of the free list of a well-formed heap leaves
    the list of the other members, in the same order, well linked; the
    unlinked block is the one free block outside the list.  No boundary
    tag and no word of an allocated block changes. *)
Theorem remove_block_unlinks
    (s : state) (bs : list (Z * bool)) (fl : list Z) (b : Z) :
  heap_inv s bs fl -> In b fl ->
  heap_list (remove_block s b) bs (remove Z.eq_dec b fl) [b]
  /\ tagged (remove_block s b) (layout (first_hdr s) bs)
  /\ same_frame s (remove_block s b)
  /\ keeps s (remove_block s b) bs.
Proof.
  intros (C & L & _) Hin. pose proof (core_geom _ _ C) as G.
  destruct (remove_block_heap s bs fl [] b G L Hin) as (L1 & F1 & E1 & E2 & E3 & E4).
  split; [exact L1|]. split; [|split].
  - apply (tagged_frame s); [apply (core_tags _ _ C)|].
    intros bp sz al Hb. destruct (quiet_tag _ _ _ _ _ G Hb) as [Q1 Q2].
    split; apply F1; assumption.
  - unfold same_frame. auto.
  - apply keeps_quiet; assumption.
Qed.

Lemma remove_block_unlinks_witness :
  heap_list (remove_block heap3 4304) [(48, true); (112, true); (24, false)]
    (remove Z.eq_dec 4304 [4304]) [4304]
  /\ tagged (remove_block heap3 4304)
       (layout (first_hdr heap3) [(48, true); (112, true); (24, false)])
  /\ same_frame heap3 (remove_block heap3 4304)
  /\ keeps heap3 (remove_block heap3 4304) [(48, true); (112, true); (24, false)].
Proof.
  apply (remove_block_unlinks heap3 [(48, true); (112, true); (24, false)] [4304] 4304).
  - exact heap3_inv.
  - simpl. auto.
Defined.

(** X7: inserting a free block that is not in the list makes it the
    head: [free_listp] names it, its previous-free slot is null, its
    next-free slot names the old head, and the list is the block
    followed by the old list.  No boundary tag and no word of an
    allocated block changes. *)
Theorem insert_at_front_pushes
    (s : state) (bs : list (Z * bool)) (fl : list Z) (b sz : Z) :
  heap_core s bs -> heap_list s bs fl [b] ->
  In (b, sz, false) (layout (first_hdr s) bs) ->
  heap_core (insert_at_front s b) bs
  /\ heap_list (insert_at_front s b) bs (b :: fl) []
  /\ free_listp (insert_at_front s b) = b
  /\ PREV_FREEP (insert_at_front s b) b = 0
  /\ NEXT_FREEP (insert_at_front s b) b = free_listp s
  /\ keeps s (insert_at_front s b) bs.
Proof.
  intros C L Hin. pose proof (core_geom _ _ C) as G.
  pose proof (geom_block _ _ _ _ _ G Hin) as B.
  destruct (layout_split _ _ _ _ _ Hin) as (rpre & post & Eb & Ebp). subst bs.
  pose proof (insert_pending s rpre post sz fl) as IP. cbv zeta in IP.
  rewrite <- Ebp in IP. destruct (IP C L) as (C' & L' & F).
  split; [exact C'|]. split; [exact L'|].
  pose proof (hl_flist _ _ _ _ L') as Fl. cbn [flist] in Fl.
  destruct Fl as (Fh & Fp & Fn).
  pose proof (flist_head _ _ _ _ _ Fn) as Hn.
  pose proof (flist_head _ _ _ _ _ (hl_flist _ _ _ _ L)) as Ho.
  split; [exact Fh|]. split; [exact Fp|]. split.
  - rewrite NEXT_FREEP_eq by lia. rewrite Hn, Ho.
    unfold prologue. destruct (sf_insert s b) as (E1 & _). rewrite E1. reflexivity.
  - apply keeps_quiet; assumption.
Qed.

Lemma insert_at_front_pushes_witness :
  heap_core (insert_at_front heap2_pending 4144) [(48, false); (24, false)]
  /\ heap_list (insert_at_front heap2_pending 4144) [(48, false); (24, false)]
       (4144 :: [4192]) []
  /\ free_listp (insert_at_front heap2_pending 4144) = 4144
  /\ PREV_FREEP (insert_at_front heap2_pending 4144) 4144 = 0
  /\ NEXT_FREEP (insert_at_front heap2_pending 4144) 4144 = free_listp heap2_pending
  /\ keeps heap2_pending (insert_at_front heap2_pending 4144) [(48, false); (24, false)].
Proof.
  apply (insert_at_front_pushes heap2_pending [(48, false); (24, false)] [4192] 4144 48).
  - exact heap2_pending_core.
  - exact heap2_pending_list.
  - vm_compute. auto.
Defined.

(** ** The coalescer *)

(** X24: the coalescer writes only into free blocks: whatever it
    merges, every word of every allocated block, tags included, reads
    after the call as before it, and the provider's bounds and
    [heap_listp] are as before. *)
Theorem coalesce_keeps_allocated
    (s : state) (bs : list (Z * bool)) (fl : list Z) (bp sz : Z) :
  heap_core s bs -> heap_list s bs fl [bp] ->
  In (bp, sz, false) (layout (first_hdr s) bs) ->
  same_frame s (snd (coalesce s bp))
  /\ forall q szq x, In (q, szq, true) (layout (first_hdr s) bs) ->
       HDRP q <= x -> x <= FTRP s q ->
       GET (snd (coalesce s bp)) x = GET s x.
Proof.
  intros C L Hin. split; [apply sf_coalesce|].
  destruct (layout_split _ _ _ _ _ Hin) as (rpre & post & Eb & Ebp). subst bs.
  pose proof (coalesce_spec s rpre post sz fl) as CS. cbv zeta in CS.
  rewrite <- Ebp in CS. destruct (CS C L) as (_ & _ & _ & K).
  intros q szq x Hq Hx1 Hx2.
  pose proof (geom_block _ _ _ _ _ (core_geom _ _ C) Hq) as B.
  destruct (block_reads s _ q szq true C Hq) as (R1 & _ & _ & _ & R5 & _).
  rewrite R1 in Hx1. rewrite R5 in Hx2.
  apply (K q szq x Hq); lia.
Qed.

Lemma coalesce_keeps_allocated_witness :
  same_frame heap3_pending (snd (coalesce heap3_pending 4192))
  /\ forall q szq x,
       In (q, szq, true)
          (layout (first_hdr heap3_pending) [(48, true); (112, false); (24, false)]) ->
       HDRP q <= x -> x <= FTRP heap3_pending q ->
       GET (snd (coalesce heap3_pending 4192)) x = GET heap3_pending x.
Proof.
  apply (coalesce_keeps_allocated heap3_pending
           [(48, true); (112, false); (24, false)] [4304] 4192 112).
  - exact heap3_pending_core.
  - exact heap3_pending_list.
  - vm_compute. auto.
Defined.

(** ** The finder *)

(** X8: in every state a client can reach, [find_fit] with fuel for
    the whole free list is first fit: it returns null when every member
    is too small, and otherwise the first member, in list order from
    [free_listp], whose header size is at least the request. *)
Theorem find_fit_first_fit (s : state) (live : list Z) (a : Z) :
  reachable s live ->
  exists fl,
    flist s (prologue s) 0 (free_listp s) fl
    /\ forall fuel, (length fl < fuel)%nat ->
         (find_fit fuel s a = Some 0
          /\ forall c, In c fl -> GET_SIZE s (HDRP c) < a)
         \/ exists l1 r l2,
              fl = l1 ++ r :: l2 /\ find_fit fuel s a = Some r /\ r <> 0
              /\ GET_ALLOC s (HDRP r) = 0 /\ a <= GET_SIZE s (HDRP r)
              /\ forall c, In c l1 -> GET_SIZE s (HDRP c) < a.
Proof.
  intros R. destruct (reachable_inv s live R) as (bs & fl & (C & L & _) & _).
  exists fl. split; [apply (hl_flist _ _ _ _ L)|]. intros fuel Hfuel.
  assert (Sz : forall c, In c fl ->
                 exists szc, In (c, szc, false) (layout (first_hdr s) bs)
                             /\ GET_SIZE s (HDRP c) = szc).
  { intros c Hc. destruct (hl_sound _ _ _ _ L c Hc) as [[szc Hin] _].
    exists szc. split; [exact Hin|].
    apply (block_reads s bs c szc false C Hin). }
  destruct (find_fit_from_spec s bs a C fl 0 (free_listp s) fuel
              (hl_flist _ _ _ _ L)
              (fun c Hc => proj1 (hl_sound _ _ _ _ L c Hc)) Hfuel)
    as [[F1 F2]|(l1 & r & l2 & t & E1 & E2 & E3 & E4 & E5)].
  - left. split; [exact F1|]. intros c Hc.
    destruct (Sz c Hc) as (szc & Hin & ->). apply (F2 c szc Hc Hin).
  - right. exists l1, r, l2. split; [exact E1|]. split; [exact E2|].
    pose proof (geom_block _ _ _ _ _ (core_geom _ _ C) E3) as B.
    destruct (block_reads s bs r t false C E3) as (_ & _ & R3 & R4 & _).
    split; [lia|]. split; [exact R4|]. split; [rewrite R3; exact E4|].
    intros c Hc.
    assert (Hcf : In c fl) by (rewrite E1; apply in_or_app; left; exact Hc).
    destruct (Sz c Hcf) as (szc & Hin & ->). apply (E5 c szc Hc Hin).
Qed.

Lemma find_fit_first_fit_witness :
  exists fl,
    flist heap2 (prologue heap2) 0 (free_listp heap2) fl
    /\ forall fuel, (length fl < fuel)%nat ->
         (find_fit fuel heap2 24 = Some 0
          /\ forall c, In c fl -> GET_SIZE heap2 (HDRP c) < 24)
         \/ exists l1 r l2,
              fl = l1 ++ r :: l2 /\ find_fit fuel heap2 24 = Some r /\ r <> 0
              /\ GET_ALLOC heap2 (HDRP r) = 0 /\ 24 <= GET_SIZE heap2 (HDRP r)
              /\ forall c, In c l1 -> GET_SIZE heap2 (HDRP c) < 24.
Proof. apply (find_fit_first_fit heap2 [4144] 24). exact heap2_reachable. Defined.

(** ** The placer *)

(** X9: placing [a] bytes in a free block of [t] bytes of a well-formed
    heap allocates exactly [a] bytes when the rest, [t - a], is at least
    the minimum block size, and the whole block otherwise; the heap stays
    well formed, the break does not move, the placed block is the one
    new allocated block, and no word of the blocks that were allocated
    changes. *)
Theorem place_allocates
    (s : state) (bs : list (Z * bool)) (fl : list Z) (bp t a : Z) :
  heap_inv s bs fl -> In (bp, t, false) (layout (first_hdr s) bs) ->
  OVERHEAD <= a -> a mod 8 = 0 -> a <= t ->
  exists bs' fl',
    heap_inv (place s bp a) bs' fl'
    /\ same_frame s (place s bp a)
    /\ GET_ALLOC (place s bp a) (HDRP bp) = 1
    /\ GET_SIZE (place s bp a) (HDRP bp) = (if t - a >=? OVERHEAD then a else t)
    /\ (forall q szq,
          In (q, szq, true) (layout (first_hdr s) bs') <->
          (q = bp /\ szq = GET_SIZE (place s bp a) (HDRP bp))
          \/ In (q, szq, true) (layout (first_hdr s) bs))
    /\ keeps s (place s bp a) bs.
Proof.
  intros I Hin Ha Ma Hle. unfold OVERHEAD in *.
  destruct (layout_split _ _ _ _ _ Hin) as (rpre & post & Eb & Ebp). subst bs.
  pose proof (place_spec s rpre post t a fl I Ha Ma Hle) as P. cbv zeta in P.
  rewrite <- Ebp in P.
  destruct P as (bs' & fl' & sz & I' & SF & _ & _ & Pa & Pb & P5 & K).
  exists bs', fl'. split; [exact I'|]. split; [exact SF|].
  assert (Hb : In (bp, sz, true) (layout (first_hdr (place s bp a)) bs')).
  { rewrite (sf_first_hdr _ _ SF). apply P5. left. auto. }
  destruct I' as (C' & _).
  destruct (block_reads _ _ _ _ _ C' Hb) as (_ & _ & R3 & R4 & _).
  assert (Es : sz = if t - a >=? 24 then a else t).
  { destruct (Z.geb_spec (t - a) 24); [apply Pa|apply Pb]; lia. }
  split; [exact R4|]. split; [rewrite R3; exact Es|].
  split; [|exact K]. intros q szq. rewrite R3. apply P5.
Qed.

Lemma place_allocates_witness :
  exists bs' fl',
    heap_inv (place heap3 4304 24) bs' fl'
    /\ same_frame heap3 (place heap3 4304 24)
    /\ GET_ALLOC (place heap3 4304 24) (HDRP 4304) = 1
    /\ GET_SIZE (place heap3 4304 24) (HDRP 4304)
       = (if 24 - 24 >=? OVERHEAD then 24 else 24)
    /\ (forall q szq,
          In (q, szq, true) (layout (first_hdr heap3) bs') <->
          (q = 4304 /\ szq = GET_SIZE (place heap3 4304 24) (HDRP 4304))
          \/ In (q, szq, true)
               (layout (first_hdr heap3) [(48, true); (112, true); (24, false)]))
    /\ keeps heap3 (place heap3 4304 24) [(48, true); (112, true); (24, false)].
Proof.
  apply (place_allocates heap3 [(48, true); (112, true); (24, false)] [4304] 4304 24 24).
  - exact heap3_inv.
  - vm_compute. auto.
  - vm_compute. discriminate.
  - reflexivity.
  - lia.
Defined.

(** ** The extender *)

(** X10: on a well-formed heap [extend_heap] either is refused by the
    provider, and then returns null and leaves the state as it was, or
    moves the break by exactly the rounded byte count and returns a free
    block of at least that size, which heads the free list (it has
    absorbed the last block of the heap if that was free); the heap
    stays well formed, with the same allocated blocks, none of whose
    words has changed. *)
Theorem extend_heap_outcome
    (s : state) (bs : list (Z * bool)) (fl : list Z) (words : Z) :
  heap_inv s bs fl ->
  (heap_brk s + extend_size words > heap_max s -> extend_heap s words = (0, s))
  /\ (heap_brk s + extend_size words <= heap_max s ->
      exists bs' fl' t,
        heap_inv (snd (extend_heap s words)) bs' fl'
        /\ heap_brk (snd (extend_heap s words)) = heap_brk s + extend_size words
        /\ fst (extend_heap s words) <> 0
        /\ In (fst (extend_heap s words), t, false) (layout (first_hdr s) bs')
        /\ extend_size words <= t
        /\ free_listp (snd (extend_heap s words)) = fst (extend_heap s words)
        /\ (forall q szq, In (q, szq, true) (layout (first_hdr s) bs') <->
                          In (q, szq, true) (layout (first_hdr s) bs))
        /\ keeps s (snd (extend_heap s words)) bs).
Proof.
  intros (C & L & N). split; [apply extend_heap_fail|]. intros Hroom.
  pose proof (core_geom _ _ C) as G. pose proof G as (_ & _ & _ & _ & _ & G6).
  pose proof (extend_heap_spec s bs fl words (core_shape _ _ C) L Hroom) as X.
  cbv zeta in X. destruct X as (X1 & X2 & X3 & X4 & X5 & X6 & X7 & X8).
  assert (Sr : sized (rev bs)) by (apply sized_rev; exact G6).
  destruct (merged_shape (first_hdr s) (rev bs) [] (extend_size words) Sr sized_nil)
    as (rp & t & po & M1 & M2 & M3).
  eexists (merged_row (rev bs) (extend_size words) []), _, t.
  split; [split; [exact X2|split; [exact X3|]]|].
  { apply noadj_merged. rewrite rev_involutive.
    apply noadj_app. cbn [noadj hd_alloc]. auto. }
  split; [exact X7|].
  assert (Hb : In (fst (extend_heap s words), t, false)
                  (layout (first_hdr s) (merged_row (rev bs) (extend_size words) []))).
  { rewrite X1, M1, M2. apply layout_mid. }
  assert (Fh : first_hdr (snd (extend_heap s words)) = first_hdr s)
    by (unfold first_hdr; congruence).
  pose proof Hb as Hb'. rewrite <- Fh in Hb'.
  pose proof (geom_block _ _ _ _ _ (core_geom _ _ X2) Hb') as B.
  split; [lia|]. split; [exact Hb|]. split; [exact M3|]. split.
  - pose proof (flist_head _ _ _ _ _ (hl_flist _ _ _ _ X3)) as Hh. cbn [hd] in Hh.
    rewrite Hh, X1. reflexivity.
  - split; [|exact X8]. intros q szq. rewrite alloc_merged, rev_involutive.
    cbn [layout In]. tauto.
Qed.

Lemma extend_heap_outcome_witness :
  (heap_brk heap3 + extend_size 8 > heap_max heap3 -> extend_heap heap3 8 = (0, heap3))
  /\ (heap_brk heap3 + extend_size 8 <= heap_max heap3 ->
      exists bs' fl' t,
        heap_inv (snd (extend_heap heap3 8)) bs' fl'
        /\ heap_brk (snd (extend_heap heap3 8)) = heap_brk heap3 + extend_size 8
        /\ fst (extend_heap heap3 8) <> 0
        /\ In (fst (extend_heap heap3 8), t, false) (layout (first_hdr heap3) bs')
        /\ extend_size 8 <= t
        /\ free_listp (snd (extend_heap heap3 8)) = fst (extend_heap heap3 8)
        /\ (forall q szq, In (q, szq, true) (layout (first_hdr heap3) bs') <->
                          In (q, szq, true) (layout (first_hdr heap3) [(48, true); (112, true); (24, false)]))
        /\ keeps heap3 (snd (extend_heap heap3 8)) [(48, true); (112, true); (24, false)]).
Proof.
  apply (extend_heap_outcome heap3 [(48, true); (112, true); (24, false)] [4304] 8).
  exact heap3_inv.
Defined.

(** ** Initialisation *)

(** X11: on a fresh provider that can serve the first 48 bytes,
    [mm_init] succeeds exactly when the provider can also serve the 24
    bytes of the first extension.  On success the heap holds the
    prologue, one free block of 24 bytes at offset 48, which is the
    whole free list, and the epilogue; on failure [mm_init] returns
    -1. *)
Theorem mm_init_outcome (s0 : state) :
  fresh_provider s0 -> heap_lo s0 + 2 * OVERHEAD <= heap_max s0 ->
  (heap_max s0 < heap_lo s0 + 72 -> fst (mm_init s0) = -1)
  /\ (heap_lo s0 + 72 <= heap_max s0 ->
      let s := snd (mm_init s0) in
      fst (mm_init s0) = 0
      /\ heap_inv s [(24, false)] [heap_lo s0 + 48]
      /\ heap_listp s = heap_lo s0 /\ free_listp s = heap_lo s0 + 48
      /\ heap_brk s = heap_lo s0 + 72
      /\ GET s (heap_lo s0 + 4) = PACK OVERHEAD 1
      /\ GET s (HDRP (heap_lo s0 + 48)) = PACK 24 0
      /\ GET s (FTRP s (heap_lo s0 + 48)) = PACK 24 0
      /\ GET s (heap_brk s - 4) = PACK 0 1
      /\ PREV_FREEP s (heap_lo s0 + 48) = 0
      /\ NEXT_FREEP s (heap_lo s0 + 48) = heap_lo s0 + 8).
Proof.
  intros Hf H48. unfold OVERHEAD in H48. split.
  - intros H. apply mm_init_no_room; [exact Hf|lia|exact H].
  - intros H72. cbv zeta.
    destruct (mm_init_spec s0 Hf H72) as (E0 & I & E1 & E2 & E3).
    set (s := snd (mm_init s0)) in *.
    split; [exact E0|]. split; [exact I|]. destruct I as (C & L & _).
    assert (Hin : In (heap_lo s0 + 48, 24, false) (layout (first_hdr s) [(24, false)])).
    { unfold first_hdr. rewrite E1. simpl. left. f_equal. f_equal. lia. }
    destruct (block_reads s _ _ _ _ C Hin) as (R1 & R2 & _ & _ & R5 & R6 & _).
    pose proof (geom_block _ _ _ _ _ (core_geom _ _ C) Hin) as B.
    pose proof (hl_flist _ _ _ _ L) as Fl. cbn [flist] in Fl.
    destruct Fl as (Fh & Fp & Fn).
    split; [rewrite (core_listp _ _ C); exact E1|]. split; [exact Fh|].
    split; [exact E3|].
    split; [rewrite <- E1; apply (core_prologue _ _ C)|].
    split; [rewrite R1; exact R2|]. split; [rewrite R5; exact R6|].
    split; [apply (core_epilogue _ _ C)|]. split; [exact Fp|].
    rewrite NEXT_FREEP_eq by lia. rewrite Fn. unfold prologue. lia.
Qed.

Lemma mm_init_outcome_witness :
  (heap_max heap0 < heap_lo heap0 + 72 -> fst (mm_init heap0) = -1)
  /\ (heap_lo heap0 + 72 <= heap_max heap0 ->
      let s := snd (mm_init heap0) in
      fst (mm_init heap0) = 0
      /\ heap_inv s [(24, false)] [heap_lo heap0 + 48]
      /\ heap_listp s = heap_lo heap0 /\ free_listp s = heap_lo heap0 + 48
      /\ heap_brk s = heap_lo heap0 + 72
      /\ GET s (heap_lo heap0 + 4) = PACK OVERHEAD 1
      /\ GET s (HDRP (heap_lo heap0 + 48)) = PACK 24 0
      /\ GET s (FTRP s (heap_lo heap0 + 48)) = PACK 24 0
      /\ GET s (heap_brk s - 4) = PACK 0 1
      /\ PREV_FREEP s (heap_lo heap0 + 48) = 0
      /\ NEXT_FREEP s (heap_lo heap0 + 48) = heap_lo heap0 + 8).
Proof.
  apply (mm_init_outcome heap0).
  - exact heap0_fresh.
  - vm_compute. discriminate.
Defined.

(** ** What a client can rely on *)

(** X12: every pointer a client holds is 8-aligned and heads an
    allocated block inside the heap, past the prologue, whose size is a
    multiple of 8 of at least the minimum block size and whose footer
    repeats its header. *)
Theorem held_block_well_formed (s : state) (live : list Z) (p : Z) :
  reachable s live -> In p live ->
  p mod 8 = 0
  /\ GET_ALLOC s (HDRP p) = 1
  /\ OVERHEAD <= GET_SIZE s (HDRP p) /\ GET_SIZE s (HDRP p) mod 8 = 0
  /\ GET s (FTRP s p) = GET s (HDRP p)
  /\ mem_heap_lo s + 2 * OVERHEAD <= p
  /\ p + GET_SIZE s (HDRP p) <= heap_brk s.
Proof.
  intros R Hp. destruct (held_blocks s live R) as (bs & fl & (C & _) & Hd).
  destruct (Hd p Hp) as (o & Hin & Eo). rewrite Eo.
  pose proof (geom_block _ _ _ _ _ (core_geom _ _ C) Hin) as B.
  destruct (block_reads s bs p o true C Hin) as (R1 & R2 & _ & R4 & R5 & R6 & _).
  unfold OVERHEAD, mem_heap_lo. rewrite R5, R6, R1, R2.
  rewrite R1 in R4.
  repeat split; try lia. exact R4.
Qed.

Lemma held_block_well_formed_witness :
  4144 mod 8 = 0
  /\ GET_ALLOC heap2 (HDRP 4144) = 1
  /\ OVERHEAD <= GET_SIZE heap2 (HDRP 4144) /\ GET_SIZE heap2 (HDRP 4144) mod 8 = 0
  /\ GET heap2 (FTRP heap2 4144) = GET heap2 (HDRP 4144)
  /\ mem_heap_lo heap2 + 2 * OVERHEAD <= 4144
  /\ 4144 + GET_SIZE heap2 (HDRP 4144) <= heap_brk heap2.
Proof.
  apply (held_block_well_formed heap2 [4144] 4144).
  - exact heap2_reachable.
  - simpl. auto.
Defined.

(** X13: the blocks of two distinct pointers a client holds do not
    overlap. *)
Theorem held_blocks_disjoint (s : state) (live : list Z) (p q : Z) :
  reachable s live -> In p live -> In q live -> p <> q ->
  p + GET_SIZE s (HDRP p) <= q \/ q + GET_SIZE s (HDRP q) <= p.
Proof.
  intros R Hp Hq Hne. destruct (held_blocks s live R) as (bs & fl & (C & _) & Hd).
  destruct (Hd p Hp) as (o & Hin & ->). destruct (Hd q Hq) as (oq & Hiq & ->).
  pose proof (core_geom _ _ C) as (_ & _ & _ & _ & _ & G6).
  destruct (layout_sep _ _ _ _ _ _ _ _ G6 Hin Hiq) as [(E & _)|D]; [contradiction|exact D].
Qed.

Lemma held_blocks_disjoint_witness :
  4144 + GET_SIZE heap3 (HDRP 4144) <= 4192 \/ 4192 + GET_SIZE heap3 (HDRP 4192) <= 4144.
Proof.
  apply (held_blocks_disjoint heap3 [4192; 4144] 4144 4192).
  - exact heap3_reachable.
  - simpl. auto.
  - simpl. auto.
  - lia.
Defined.

(** X14: a non-null pointer [mm_malloc] returns in a state a client can
    reach is new to the client, heads a block of at least the adjusted
    size and of less than the adjusted size plus the minimum block size,
    and that block overlaps none of the blocks the client holds, whose
    headers are as before. *)
Theorem malloc_returns_fresh_block
    (s : state) (live : list Z) (fuel : nat) (size p : Z) (s' : state) :
  reachable s live -> 0 < size < 4294967296 ->
  mm_malloc fuel s size = Some (p, s') -> p <> 0 ->
  ~ In p live
  /\ adjust size <= GET_SIZE s' (HDRP p) < adjust size + OVERHEAD
  /\ forall q, In q live ->
       GET s' (HDRP q) = GET s (HDRP q)
       /\ (p + GET_SIZE s' (HDRP p) <= q \/ q + GET_SIZE s (HDRP q) <= p).
Proof.
  intros R Hsz E Hp. destruct (held_blocks s live R) as (bs & fl & I & Hd).
  destruct (malloc_outcome s bs fl fuel size p s' I ltac:(lia) E)
    as [(P0 & _)|(_ & bs' & fl' & sz & I' & Q1 & Q2 & _ & _ & Q5 & Q6 & _ & Q8 & K)];
    [contradiction|].
  assert (Fh : first_hdr s' = first_hdr s) by (unfold first_hdr; congruence).
  destruct I' as (C' & _). destruct I as (C & _).
  assert (Hin : In (p, sz, true) (layout (first_hdr s') bs')).
  { rewrite Fh. apply Q5. left. auto. }
  destruct (block_reads s' bs' p sz true C' Hin) as (_ & _ & R3 & _).
  rewrite R3. unfold OVERHEAD. split; [|split; [lia|]].
  - intros Hl. destruct (Hd p Hl) as (o & Ho & _). exact (Q6 o Ho).
  - intros q Hq. destruct (Hd q Hq) as (oq & Hiq & ->).
    pose proof (geom_block _ _ _ _ _ (core_geom _ _ C) Hiq) as B.
    split.
    + rewrite HDRP_eq by lia. apply (K q oq (q - 4) Hiq); lia.
    + assert (Hiq' : In (q, oq, true) (layout (first_hdr s') bs')).
      { rewrite Fh. apply Q5. right. exact Hiq. }
      pose proof (core_geom _ _ C') as (_ & _ & _ & _ & _ & G6).
      destruct (layout_sep _ _ _ _ _ _ _ _ G6 Hin Hiq') as [(Eq & _)|D]; [|exact D].
      exfalso. subst q. exact (Q6 oq Hiq).
Qed.

Lemma malloc_returns_fresh_block_witness :
  ~ In 4144 []
  /\ adjust 40 <= GET_SIZE heap2 (HDRP 4144) < adjust 40 + OVERHEAD
  /\ forall q, In q [] ->
       GET heap2 (HDRP q) = GET heap1 (HDRP q)
       /\ (4144 + GET_SIZE heap2 (HDRP 4144) <= q \/ q + GET_SIZE heap1 (HDRP q) <= 4144).
Proof.
  apply (malloc_returns_fresh_block heap1 [] 10 40 4144 heap2).
  - exact heap1_reachable.
  - lia.
  - exact heap2_malloc.
  - lia.
Defined.

(** X15: [mm_malloc] changes no word of a block the client holds:
    header, payload and footer read after the call as before it,
    whether the call succeeds or not. *)
Theorem malloc_preserves_contents
    (s : state) (live : list Z) (fuel : nat) (size p : Z) (s' : state) (q x : Z) :
  reachable s live -> 0 <= size < 4294967296 ->
  mm_malloc fuel s size = Some (p, s') ->
  In q live -> HDRP q <= x -> x <= FTRP s q ->
  GET s' x = GET s x.
Proof.
  intros R Hsz E Hq Hx1 Hx2. destruct (held_blocks s live R) as (bs & fl & I & Hd).
  destruct (Hd q Hq) as (oq & Hiq & _). pose proof I as (C & _).
  pose proof (geom_block _ _ _ _ _ (core_geom _ _ C) Hiq) as B.
  destruct (block_reads s bs q oq true C Hiq) as (R1 & _ & _ & _ & R5 & _).
  rewrite R1 in Hx1. rewrite R5 in Hx2.
  destruct (Z.eq_dec size 0) as [->|Hn].
  - rewrite mm_malloc_zero in E. injection E as _ <-. reflexivity.
  - destruct (malloc_outcome s bs fl fuel size p s' I ltac:(lia) E)
      as [(_ & -> & _)|(_ & bs' & fl' & sz & _ & _ & _ & _ & _ & _ & _ & _ & _ & K)];
      [reflexivity|].
    apply (K q oq x Hiq); lia.
Qed.

Lemma malloc_preserves_contents_witness : GET heap3 4160 = GET heap2 4160.
Proof.
  apply (malloc_preserves_contents heap2 [4144] 10 100 4192 heap3 4144 4160).
  - exact heap2_reachable.
  - lia.
  - exact heap3_malloc.
  - simpl. auto.
  - vm_compute. discriminate.
  - vm_compute. discriminate.
Defined.

(** X16: when [mm_malloc] returns null for a request of at least one
    byte, the provider had no room for the adjusted size, and the state
    is the one before the call. *)
Theorem malloc_failure_is_clean
    (s : state) (live : list Z) (fuel : nat) (size : Z) (s' : state) :
  reachable s live -> 0 < size < 4294967296 ->
  mm_malloc fuel s size = Some (0, s') ->
  s' = s /\ heap_brk s + adjust size > heap_max s
  /\ find_fit fuel s (adjust size) = Some 0.
Proof.
  intros R Hsz E. destruct (held_blocks s live R) as (bs & fl & I & _).
  destruct (malloc_outcome s bs fl fuel size 0 s' I ltac:(lia) E)
    as [(_ & P1 & P2 & _)|(P1 & _)]; [|contradiction].
  split; [exact P1|]. split; [exact P2|].
  unfold mm_malloc in E.
  replace (size <=? 0) with false in E by (symmetry; apply Z.leb_gt; lia).
  destruct (find_fit fuel s (adjust size)) as [bp|]; [|discriminate E].
  destruct (bp =? 0) eqn:Eb; [apply Z.eqb_eq in Eb; subst bp; reflexivity|].
  cbn [negb] in E. injection E as E _. apply Z.eqb_neq in Eb. contradiction.
Qed.

Lemma malloc_failure_is_clean_witness :
  mm_malloc 10 tight1 24 = Some (0, tight1)
  /\ heap_brk tight1 + adjust 24 > heap_max tight1.
Proof.
  destruct (run_result (mm_malloc 10 tight1 24) (fun _ => tt) 0 tt) as (s' & E & _);
    [vm_compute; reflexivity|].
  destruct (malloc_failure_is_clean tight1 [] 10 24 s' tight1_reachable
              ltac:(lia) E) as (Es & Hb & _).
  rewrite Es in E. split; [exact E|exact Hb].
Defined.

(** X17: [mm_free] of a block the client holds leaves the provider's
    bounds as they are and gives the bytes of the block back: the head
    of the free list is afterwards a free block that covers the freed
    one, and is the freed block itself when the footer before it is
    tagged allocated. *)
Theorem free_releases_block (s : state) (live : list Z) (p : Z) :
  reachable s live -> In p live ->
  let s' := mm_free s p in
  same_frame s s'
  /\ reachable s' (remove Z.eq_dec p live)
  /\ GET_ALLOC s' (HDRP (free_listp s')) = 0
  /\ free_listp s' <= p
  /\ p + GET_SIZE s (HDRP p) <= free_listp s' + GET_SIZE s' (HDRP (free_listp s'))
  /\ (GET_ALLOC s (p - DSIZE) = 1 -> free_listp s' = p).
Proof.
  intros R Hp. cbv zeta.
  destruct (free_outcome s live p R Hp)
    as (bs & fl & o & bs' & fl' & b & t & I & Hin & Eo & Hd & I' & SF & K
        & B1 & B2 & B3 & B4 & B5).
  split; [exact SF|]. split; [apply reach_free; auto|].
  destruct I' as (C' & _). rewrite <- (sf_first_hdr _ _ SF) in B1.
  destruct (block_reads _ _ _ _ _ C' B1) as (_ & _ & R3 & R4 & _).
  rewrite B4, Eo, R3. split; [exact R4|]. split; [exact B2|]. split; [exact B3|].
  exact B5.
Qed.

Lemma free_releases_block_witness :
  let s' := mm_free heap2 4144 in
  same_frame heap2 s'
  /\ reachable s' (remove Z.eq_dec 4144 [4144])
  /\ GET_ALLOC s' (HDRP (free_listp s')) = 0
  /\ free_listp s' <= 4144
  /\ 4144 + GET_SIZE heap2 (HDRP 4144)
     <= free_listp s' + GET_SIZE s' (HDRP (free_listp s'))
  /\ (GET_ALLOC heap2 (4144 - DSIZE) = 1 -> free_listp s' = 4144).
Proof.
  apply (free_releases_block heap2 [4144] 4144).
  - exact heap2_reachable.
  - simpl. auto.
Defined.

(** X18: [mm_free] changes no word of the other blocks the client
    holds: header, payload and footer read after the call as before
    it. *)
Theorem free_preserves_contents (s : state) (live : list Z) (p q x : Z) :
  reachable s live -> In p live -> In q live -> q <> p ->
  HDRP q <= x -> x <= FTRP s q ->
  GET (mm_free s p) x = GET s x.
Proof.
  intros R Hp Hq Hne Hx1 Hx2.
  destruct (free_outcome s live p R Hp)
    as (bs & fl & o & bs' & fl' & b & t & I & Hin & Eo & Hd & I' & SF & K & _).
  destruct (Hd q Hq) as (oq & Hiq). destruct I as (C & _).
  pose proof (geom_block _ _ _ _ _ (core_geom _ _ C) Hiq) as B.
  destruct (block_reads s bs q oq true C Hiq) as (R1 & _ & _ & _ & R5 & _).
  rewrite R1 in Hx1. rewrite R5 in Hx2.
  apply (K q oq x Hiq Hne); lia.
Qed.

Lemma free_preserves_contents_witness :
  GET (mm_free heap3 4192) 4160 = GET heap3 4160.
Proof.
  apply (free_preserves_contents heap3 [4192; 4144] 4192 4144 4160).
  - exact heap3_reachable.
  - simpl. auto.
  - simpl. auto.
  - lia.
  - vm_compute. discriminate.
  - vm_compute. discriminate.
Defined.

(** X19: the free list is last in, first out.  After [mm_free(p)], an
    [mm_malloc] whose adjusted size fits the freed block returns the
    head of the free list, the block that has absorbed [p]; it returns
    [p] itself when the footer before [p] was tagged allocated. *)
Theorem free_then_malloc_reuses
    (s : state) (live : list Z) (fuel : nat) (p size : Z) :
  reachable s live -> In p live -> 0 < size ->
  adjust size <= GET_SIZE s (HDRP p) -> (0 < fuel)%nat ->
  exists q s',
    mm_malloc fuel (mm_free s p) size = Some (q, s')
    /\ q = free_listp (mm_free s p) /\ q <> 0 /\ q <= p
    /\ (GET_ALLOC s (p - DSIZE) = 1 -> q = p).
Proof.
  intros R Hp Hsz Hfit Hfuel.
  destruct (free_outcome s live p R Hp)
    as (bs & fl & o & bs' & fl' & b & t & I & Hin & Eo & Hd & I' & SF & K
        & B1 & B2 & B3 & B4 & B5).
  destruct I' as (C' & _). rewrite <- (sf_first_hdr _ _ SF) in B1.
  pose proof (geom_block _ _ _ _ _ (core_geom _ _ C') B1) as B.
  destruct (block_reads _ _ _ _ _ C' B1) as (_ & _ & R3 & R4 & _).
  exists b, (place (mm_free s p) b (adjust size)).
  split; [|split; [symmetry; exact B4|split; [lia|split; [exact B2|exact B5]]]].
  unfold mm_malloc.
  replace (size <=? 0) with false by (symmetry; apply Z.leb_gt; lia).
  unfold find_fit. rewrite B4.
  destruct fuel as [|fuel]; [lia|]. cbn [find_fit_from].
  rewrite R4, R3. cbn [b2z Z.eqb].
  replace (adjust size <=? t) with true by (symmetry; apply Z.leb_le; lia).
  replace (b =? 0) with false by (symmetry; apply Z.eqb_neq; lia).
  reflexivity.
Qed.

Lemma free_then_malloc_reuses_witness :
  exists q s',
    mm_malloc 10 (mm_free heap2 4144) 40 = Some (q, s')
    /\ q = free_listp (mm_free heap2 4144) /\ q <> 0 /\ q <= 4144
    /\ (GET_ALLOC heap2 (4144 - DSIZE) = 1 -> q = 4144).
Proof.
  apply (free_then_malloc_reuses heap2 [4144] 10 4144 40).
  - exact heap2_reachable.
  - simpl. auto.
  - lia.
  - vm_compute. discriminate.
  - lia.
Defined.

(** The outcomes of [mm_realloc] on a block the client holds. *)
Lemma realloc_held (s : state) (live : list Z) (fuel : nat) (p size q : Z) (s' : state) :
  reachable s live -> In p live -> 0 < size < 4294967296 ->
  mm_realloc fuel s p size = Some (q, s') ->
  exists bs fl o,
    heap_inv s bs fl /\ In (p, o, true) (layout (first_hdr s) bs)
    /\ GET_SIZE s (HDRP p) = o
    /\ (forall r, In r live -> exists szr, In (r, szr, true) (layout (first_hdr s) bs))
    /\ (s' = s \/ q <> 0)
    /\ (forall r szr x, In (r, szr, true) (layout (first_hdr s) bs) -> r <> p ->
          r - 4 <= x -> x + 4 <= r + szr - 4 -> GET s' x = GET s x)
    /\ (q <> 0 -> size + 8 <= adjust size ->
        forall i, 0 <= i -> i + 4 <= Z.min size (o - 8) ->
                  GET s' (q + i) = GET s (p + i)).
Proof.
  intros R Hp Hsz E. destruct (held_blocks s live R) as (bs & fl & I & Hd).
  destruct (Hd p Hp) as (o & Hin & Eo).
  exists bs, fl, o. split; [exact I|]. split; [exact Hin|]. split; [exact Eo|].
  split.
  { intros r Hr. destruct (Hd r Hr) as (szr & Hr' & _). eauto. }
  pose proof I as (C & _).
  pose proof (geom_block _ _ _ _ _ (core_geom _ _ C) Hin) as B.
  destruct (realloc_outcome s bs fl fuel p o size q s' I Hin Hsz E)
    as [(P1 & P2 & _)
       |[(P1 & P2 & bs' & fl' & _ & _ & _ & K & Kp)
        |[(P1 & P2 & _)
         |(P1 & _ & _ & bs' & fl' & sz & _ & _ & _ & _ & _ & _ & K & Kc)]]].
  - subst. split; [left; reflexivity|]. split; reflexivity.
  - subst q. split; [right; lia|]. split; [exact K|].
    intros _ Ha i Hi1 Hi2. apply Kp; lia.
  - subst. split; [left; reflexivity|]. split; [reflexivity|]. intros H. contradiction.
  - split; [right; exact P1|]. split; [exact K|]. intros _ _. exact Kc.
Qed.

(** X20: [mm_realloc] keeps the contents: when it returns a non-null
    pointer for a request of at most 2^32 - 16 bytes, every word of the
    first [min(size, o - 8)] bytes behind that pointer reads as the
    word at the same offset of the old payload did before the call,
    whether the block stayed, was shrunk in place, or was moved. *)
Theorem realloc_preserves_contents
    (s : state) (live : list Z) (fuel : nat) (p size q : Z) (s' : state) (i : Z) :
  reachable s live -> In p live -> 0 < size <= 4294967280 ->
  mm_realloc fuel s p size = Some (q, s') -> q <> 0 ->
  0 <= i -> i + WSIZE <= Z.min size (GET_SIZE s (HDRP p) - DSIZE) ->
  GET s' (q + i) = GET s (p + i).
Proof.
  intros R Hp Hsz E Hq Hi1 Hi2.
  destruct (realloc_held s live fuel p size q s' R Hp ltac:(lia) E)
    as (bs & fl & o & _ & _ & Eo & _ & _ & _ & Kc).
  rewrite Eo in Hi2. unfold WSIZE, DSIZE in Hi2.
  apply Kc; try assumption.
  pose proof (adjust_ge size ltac:(lia) ltac:(lia)) as Ha. unfold DSIZE in Ha. exact Ha.
Qed.

Lemma realloc_preserves_contents_witness :
  exists q s',
    mm_realloc 10 heap2 4144 100 = Some (q, s')
    /\ GET s' (q + 16) = GET heap2 (4144 + 16).
Proof.
  destruct (run_result (mm_realloc 10 heap2 4144 100) (fun _ => tt) 4192 tt)
    as (s' & E & _); [vm_compute; reflexivity|].
  exists 4192, s'. split; [exact E|].
  apply (realloc_preserves_contents heap2 [4144] 10 4144 100 4192 s' 16).
  - exact heap2_reachable.
  - simpl. auto.
  - lia.
  - exact E.
  - lia.
  - lia.
  - vm_compute. discriminate.
Defined.

(** X21: [mm_realloc] of one block, to any size from 0 up, changes no
    word of the other blocks the client holds.  With a size of 0 the call
    returns null and its state is that of [mm_free] of the block; with a
    size of at least one byte a call that returns null changes nothing at
    all. *)
Theorem realloc_keeps_other_blocks
    (s : state) (live : list Z) (fuel : nat) (p size q : Z) (s' : state) (r x : Z) :
  reachable s live -> In p live -> 0 <= size < 4294967296 ->
  mm_realloc fuel s p size = Some (q, s') ->
  (size = 0 -> q = 0 /\ s' = mm_free s p)
  /\ (0 < size -> q = 0 -> s' = s)
  /\ (In r live -> r <> p -> HDRP r <= x -> x <= FTRP s r ->
      GET s' x = GET s x).
Proof.
  intros R Hp Hsz E.
  assert (Z0 : size = 0 -> q = 0 /\ s' = mm_free s p).
  { intros Hz. subst size. change (mm_realloc fuel s p 0) with (Some (0, mm_free s p)) in E.
    injection E as E1 E2. auto. }
  split; [exact Z0|].
  destruct (Z.eq_dec size 0) as [Hz|Hz].
  - destruct (Z0 Hz) as (_ & Es). split; [intros; lia|].
    intros Hr Hne Hx1 Hx2. rewrite Es.
    destruct (free_outcome s live p R Hp)
      as (bs & fl & o & bs' & fl' & b & t & I & Hin & Eo & Hd & I' & SF & K & _).
    destruct (Hd r Hr) as (szr & Hir). destruct I as (C & _).
    pose proof (geom_block _ _ _ _ _ (core_geom _ _ C) Hir) as B.
    destruct (block_reads s bs r szr true C Hir) as (R1 & _ & _ & _ & R5 & _).
    rewrite R1 in Hx1. rewrite R5 in Hx2.
    apply (K r szr x Hir Hne); lia.
  - destruct (realloc_held s live fuel p size q s' R Hp ltac:(lia) E)
      as (bs & fl & o & I & _ & _ & Hd & Hs & K & _).
    split.
    + intros _ Hq. destruct Hs as [Hs|Hs]; [exact Hs|contradiction].
    + intros Hr Hne Hx1 Hx2. destruct (Hd r Hr) as (szr & Hir). destruct I as (C & _).
      pose proof (geom_block _ _ _ _ _ (core_geom _ _ C) Hir) as B.
      destruct (block_reads s bs r szr true C Hir) as (R1 & _ & _ & _ & R5 & _).
      rewrite R1 in Hx1. rewrite R5 in Hx2.
      apply (K r szr x Hir Hne); lia.
Qed.

Lemma realloc_keeps_other_blocks_witness :
  (0 = 0 -> 0 = 0 /\ mm_free heap3 4192 = mm_free heap3 4192)
  /\ (0 < 0 -> 0 = 0 -> mm_free heap3 4192 = heap3)
  /\ (In 4144 [4192; 4144] -> 4144 <> 4192 -> HDRP 4144 <= 4160 ->
      4160 <= FTRP heap3 4144 ->
      GET (mm_free heap3 4192) 4160 = GET heap3 4160).
Proof.
  apply (realloc_keeps_other_blocks heap3 [4192; 4144] 10 4192 0 0
           (mm_free heap3 4192) 4144 4160).
  - exact heap3_reachable.
  - simpl. auto.
  - lia.
  - reflexivity.
Defined.

(** X22: a client store into the payload of an allocated block damages
    nothing: the same row of blocks and the same free list describe the
    heap after the store, and every word outside the payload reads as
    before. *)
Theorem payload_store_is_safe
    (s : state) (bs : list (Z * bool)) (fl : list Z) (p sz x v : Z) :
  heap_inv s bs fl -> In (p, sz, true) (layout (first_hdr s) bs) ->
  p <= x < p + sz - DSIZE ->
  heap_inv (poke s x v) bs fl
  /\ forall y, y + WSIZE <= p \/ p + sz - DSIZE <= y -> GET (poke s x v) y = GET s y.
Proof.
  intros I Hin Hx. unfold DSIZE, WSIZE in *.
  assert (F : forall y, y + 4 <= p \/ p + sz - 8 <= y -> GET (poke s x v) y = GET s y).
  { intros y Hy. apply GET_poke_other. lia. }
  split; [|exact F].
  apply (payload_frame s (poke s x v) bs fl p sz I Hin); auto.
  unfold same_frame. auto.
Qed.

Lemma payload_store_is_safe_witness :
  heap_inv (poke heap2 4150 255) [(48, true); (24, false)] [4192]
  /\ forall y, y + WSIZE <= 4144 \/ 4144 + 48 - DSIZE <= y ->
               GET (poke heap2 4150 255) y = GET heap2 y.
Proof.
  apply (payload_store_is_safe heap2 [(48, true); (24, false)] [4192] 4144 48 4150 255).
  - exact heap2_inv.
  - vm_compute. auto.
  - unfold DSIZE. lia.
Defined.

(** ** The block checker *)

(** X23: in every state a client can reach, [check_block] accepts
    every member of the free list but the head and rejects the head,
    whose previous-free slot is null, for both readings of
    [mem_heap_hi]. *)
Theorem check_block_on_free_list (s : state) (live : list Z) (inclusive : bool) :
  reachable s live ->
  exists fl,
    flist s (prologue s) 0 (free_listp s) fl
    /\ forall b, In b fl ->
         check_block inclusive s b = (if b =? free_listp s then -1 else 0).
Proof.
  intros R. destruct (free_list_facts s live R) as (bs & fl & (C & _) & Fl & H).
  exists fl. split; [exact Fl|]. intros b Hb.
  destruct (H b Hb) as (_ & _ & Fn & _ & Fh & Fp & Fal & Ft).
  assert (Hhi : heap_brk s - 1 <= mem_heap_hi inclusive s).
  { unfold mem_heap_hi. destruct inclusive; lia. }
  pose proof (core_lo _ _ C) as Lo.
  unfold check_block. unfold mem_heap_lo in *.
  replace (NEXT_FREEP s b <? heap_lo s) with false by (symmetry; apply Z.ltb_ge; lia).
  replace (NEXT_FREEP s b >? mem_heap_hi inclusive s) with false
    by (symmetry; rewrite Z.gtb_ltb; apply Z.ltb_ge; lia).
  cbn [orb].
  destruct (Z.eqb_spec b (free_listp s)) as [Eh|Nh].
  - rewrite (Fh Eh).
    replace (0 <? heap_lo s) with true by (symmetry; apply Z.ltb_lt; lia).
    reflexivity.
  - destruct (Fp Nh) as (_ & Pr).
    replace (PREV_FREEP s b <? heap_lo s) with false by (symmetry; apply Z.ltb_ge; lia).
    replace (PREV_FREEP s b >? mem_heap_hi inclusive s) with false
      by (symmetry; rewrite Z.gtb_ltb; apply Z.ltb_ge; lia).
    cbn [orb]. rewrite Fal, Ft, !Z.eqb_refl. reflexivity.
Qed.

Lemma check_block_on_free_list_witness :
  exists fl,
    flist heap2 (prologue heap2) 0 (free_listp heap2) fl
    /\ forall b, In b fl ->
         check_block true heap2 b = (if b =? free_listp heap2 then -1 else 0).
Proof. apply (check_block_on_free_list heap2 [4144] true). exact heap2_reachable. Defined.
